(** * A guitar tuner: pitch detection and note mapping

    Shallow embedding of [src/scripts/tuner.ts]: the note table, the
    autocorrelation pitch estimator [autocorrelate], the note resolver
    ([findClosestNote], [calculateCents]), the per-frame orchestration
    ([audioLoop], with the mode and target selection handlers), the
    rendering ([updateUI], [resetUI]) and the audio session
    ([startAudio], [stopAudio] and the event listeners).

    Numbers.  A JavaScript [number] is embedded as an extended real: a
    finite value carries a real of [R], next to [+Infinity], [-Infinity]
    and [NaN].  Arithmetic on finite values is exact (no rounding, no
    overflow, a single zero); the special cases of the operators follow
    IEEE 754 as ECMAScript prescribes them.  Reading a typed array out of
    range yields [undefined], which every arithmetic and relational
    operator of the program converts to [NaN]; the embedding reads [NaN]
    there.  Storing into the [Float32Array] of correlations is exact. *)

From Stdlib Require Import Reals Lra Lia ZArith String.
From Stdlib Require Import ROrderedType.
From stdpp Require Import base list strings.

(* ================================================================== *)
(** ** JavaScript numbers *)
(* ================================================================== *)

Module JS.

Inductive number : Type :=
| Fin (x : R)
| PInf
| NInf
| NaN.

(** The outcome of a call: a value, or an exception that escapes it. *)
Inductive completion (A : Type) : Type :=
| Normal (a : A)
| ThrowRangeError
| ThrowTypeError.
Arguments Normal {A} a.
Arguments ThrowRangeError {A}.
Arguments ThrowTypeError {A}.

Definition Rltb (x y : R) : bool := if Rlt_dec x y then true else false.
Definition Rleb (x y : R) : bool := if Rle_dec x y then true else false.
Definition Reqb (x y : R) : bool := if Req_dec_T x y then true else false.

(** The infinity of the sign of a product or quotient; [Eq] is the
    sign of zero, where [0 * Infinity] and [0 / 0] are [NaN]. *)
Definition signed_inf (c : comparison) : number :=
  match c with
  | Gt => PInf
  | Lt => NInf
  | Eq => NaN
  end.

Definition Rsign (x : R) : comparison := Rcompare x 0.

Definition neg (a : number) : number :=
  match a with
  | Fin x => Fin (- x)
  | PInf => NInf
  | NInf => PInf
  | NaN => NaN
  end.

Definition add (a b : number) : number :=
  match a, b with
  | NaN, _ | _, NaN => NaN
  | Fin x, Fin y => Fin (x + y)
  | PInf, NInf | NInf, PInf => NaN
  | PInf, _ | _, PInf => PInf
  | NInf, _ | _, NInf => NInf
  end.

Definition sub (a b : number) : number := add a (neg b).

Definition mul (a b : number) : number :=
  match a, b with
  | NaN, _ | _, NaN => NaN
  | Fin x, Fin y => Fin (x * y)
  | Fin x, PInf | PInf, Fin x => signed_inf (Rsign x)
  | Fin x, NInf | NInf, Fin x => signed_inf (CompOpp (Rsign x))
  | PInf, PInf | NInf, NInf => PInf
  | PInf, NInf | NInf, PInf => NInf
  end.

(** Division; the only zero is the positive one, so a finite dividend
    over zero takes the sign of the dividend. *)
Definition div (a b : number) : number :=
  match a, b with
  | NaN, _ | _, NaN => NaN
  | Fin x, Fin y => if Reqb y 0 then signed_inf (Rsign x) else Fin (x / y)
  | Fin _, PInf | Fin _, NInf => Fin 0
  | PInf, Fin y => if Rltb y 0 then NInf else PInf
  | NInf, Fin y => if Rltb y 0 then PInf else NInf
  | PInf, PInf | PInf, NInf | NInf, PInf | NInf, NInf => NaN
  end.

(** The relational operators; every comparison with [NaN] is false. *)
Definition lt (a b : number) : bool :=
  match a, b with
  | NaN, _ | _, NaN => false
  | Fin x, Fin y => Rltb x y
  | NInf, Fin _ | NInf, PInf | Fin _, PInf => true
  | _, _ => false
  end.

Definition gt (a b : number) : bool := lt b a.

Definition le (a b : number) : bool :=
  match a, b with
  | NaN, _ | _, NaN => false
  | Fin x, Fin y => Rleb x y
  | NInf, _ | _, PInf => true
  | _, _ => false
  end.

Definition ge (a b : number) : bool := le b a.

(** [a !== b] on numbers. *)
Definition strict_neq (a b : number) : bool :=
  match a, b with
  | NaN, _ | _, NaN => true
  | Fin x, Fin y => negb (Reqb x y)
  | PInf, PInf | NInf, NInf => false
  | _, _ => true
  end.

(** [Math.floor] on a real, as an integer. *)
Definition floorZ (x : R) : Z := Int_part x.

Definition Math_floor (a : number) : number :=
  match a with
  | Fin x => Fin (IZR (floorZ x))
  | _ => a
  end.

(** [Math.round]: the nearest integer, a tie going towards
    [+Infinity]. *)
Definition roundZ (x : R) : Z := floorZ (x + / 2).

Definition Math_round (a : number) : number :=
  match a with
  | Fin x => Fin (IZR (roundZ x))
  | _ => a
  end.

Definition Math_sqrt (a : number) : number :=
  match a with
  | Fin x => if Rltb x 0 then NaN else Fin (sqrt x)
  | PInf => PInf
  | NInf | NaN => NaN
  end.

Definition log2 (x : R) : R := (ln x / ln 2)%R.

Definition Math_log2 (a : number) : number :=
  match a with
  | Fin x =>
      if Rltb x 0 then NaN
      else if Reqb x 0 then NInf
      else Fin (log2 x)
  | PInf => PInf
  | NInf | NaN => NaN
  end.

(** [Math.pow(x, y)] for a positive base and a finite exponent, the
    only way the program calls it. *)
Definition Math_pow (x y : R) : R := Rpower x y.

(** [typedArray[k]]: [undefined] out of range, read as [NaN]. *)
Definition read (arr : list number) (k : Z) : number :=
  if (k <? 0)%Z then NaN
  else match arr !! Z.to_nat k with
       | Some v => v
       | None => NaN
       end.

(** [typedArray[k] = v]: a store out of range is ignored. *)
Definition write (arr : list number) (k : Z) (v : number) : list number :=
  if (k <? 0)%Z then arr else <[Z.to_nat k := v]> arr.

(** [new Float32Array(len)] for an integral [len]: a [RangeError]
    outside [0, 2^53 - 1] (ECMAScript's ToIndex), zeros otherwise.  An
    engine may refuse a smaller length for lack of memory; that limit is
    not part of the language and is left out. *)
Definition MAX_SAFE_INTEGER : Z := 2 ^ 53 - 1.

Definition new_Float32Array (len : Z) : completion (list number) :=
  if ((len <? 0) || (MAX_SAFE_INTEGER <? len))%Z then ThrowRangeError
  else Normal (replicate (Z.to_nat len) (Fin 0)).

End JS.

Export JS.

Declare Scope number_scope.
Delimit Scope number_scope with num.
Bind Scope number_scope with number.
Notation "a + b" := (add a b) : number_scope.
Notation "a - b" := (sub a b) : number_scope.
Notation "a * b" := (mul a b) : number_scope.
Notation "a / b" := (div a b) : number_scope.
Notation "a <? b" := (lt a b) : number_scope.
Notation "a >? b" := (gt a b) : number_scope.
Notation "a >=? b" := (ge a b) : number_scope.
Notation "a !== b" := (strict_neq a b) (at level 70) : number_scope.

(** An integer and a natural number as finite numbers. *)
Definition ofZ (z : Z) : number := Fin (IZR z).
Definition ofNat (n : nat) : number := Fin (INR n).

(** Sequencing of calls that may throw. *)
#[global] Instance completion_bind : MBind completion :=
  fun A B (k : A -> completion B) (c : completion A) =>
    match c with
    | Normal a => k a
    | ThrowRangeError => ThrowRangeError
    | ThrowTypeError => ThrowTypeError
    end.

(* ================================================================== *)
(** ** Constants and the note table *)
(* ================================================================== *)

Definition NOTE_NAMES : list string :=
  ["C"; "C#"; "D"; "D#"; "E"; "F"; "F#"; "G"; "G#"; "A"; "A#"; "B"]%string.

(** An element of [NOTE_FREQUENCIES]. *)
Record NoteFrequency : Type := {
  entry_note : string;
  entry_frequency : number;
}.

(** The frequency the table-building loop computes for a note number:
    [440 * Math.pow(2, (noteNumber - 57) / 12)]. *)
Definition note_frequency (noteNumber : Z) : R :=
  (440 * Math_pow 2 ((IZR noteNumber - 57) / 12))%R.

(** The two nested loops over [octave = 0..8] and [i = 0..11], each
    iteration pushing one element. *)
Definition NOTE_FREQUENCIES : list NoteFrequency :=
  flat_map
    (fun octave : Z =>
       map (fun i : Z =>
              let noteNumber := (octave * 12 + i)%Z in
              {| entry_note := NOTE_NAMES !!! Z.to_nat i;
                 entry_frequency := Fin (note_frequency noteNumber) |})
           (seqZ 0 12))
    (seqZ 0 9).

Definition FFT_SIZE : nat := 4096.
Definition MIN_FREQUENCY : R := 65.
Definition MAX_FREQUENCY : R := 1000.
Definition MIN_RMS_THRESHOLD : R := 0.005.
Definition CENTS_TOLERANCE : R := 5.

(* ================================================================== *)
(** ** The autocorrelation estimator *)
(* ================================================================== *)

Definition windowSize : Z := 2048.

(** Step 1: the sum of squares of the whole buffer and its RMS. *)
Definition sumSquares (buffer : list number) : number :=
  fold_left (fun acc x => acc + x * x)%num buffer (Fin 0).

Definition rms (buffer : list number) : number :=
  Math_sqrt (sumSquares buffer / ofNat (length buffer)).

(** Step 3, inner loop: the correlation of the window with itself
    shifted by [lag]. *)
Definition correlation_at (buffer : list number) (lag : Z) : number :=
  fold_left (fun correlation i =>
               correlation + read buffer i * read buffer (i + lag))%num
            (seqZ 0 windowSize) (Fin 0).

(** The lags of [for (let lag = minLag; lag <= maxLag; lag++)]. *)
Definition lag_range (minLag maxLag : Z) : list Z :=
  seqZ minLag (maxLag - minLag + 1).

(** Step 3, outer loop: one store per lag into the zeroed array. *)
Definition compute_correlations (buffer : list number) (minLag maxLag : Z)
    (correlations : list number) : list number :=
  fold_left (fun cs lag => write cs lag (correlation_at buffer lag))
            (lag_range minLag maxLag) correlations.

(** The test of step 4: the correlation at [lag] exceeds both of its
    neighbours. *)
Definition is_peak (correlations : list number) (lag : Z) : bool :=
  (read correlations lag >? read correlations (lag - 1))%num
  && (read correlations lag >? read correlations (lag + 1))%num.

(** Step 4: the scan over the remaining lags, with the current
    [bestLag] and [maxCorrelation]; [break] ends it. *)
Fixpoint peak_scan (correlations : list number) (lags : list Z)
    (bestLag : Z) (maxCorrelation : number) : Z * number :=
  match lags with
  | [] => (bestLag, maxCorrelation)
  | lag :: rest =>
      if is_peak correlations lag then
        let '(bestLag', maxCorrelation') :=
          if (read correlations lag >? maxCorrelation)%num
          then (lag, read correlations lag)
          else (bestLag, maxCorrelation) in
        if (read correlations lag >? Fin 0.9 * read correlations 0)%num
        then (bestLag', maxCorrelation')
        else peak_scan correlations rest bestLag' maxCorrelation'
      else peak_scan correlations rest bestLag maxCorrelation
  end.

(** Step 5: parabolic interpolation around [bestLag]. *)
Definition refine_lag (correlations : list number) (bestLag maxLag : Z)
  : number :=
  if ((0 <? bestLag) && (bestLag <? maxLag))%Z then
    let y1 := read correlations (bestLag - 1) in
    let y2 := read correlations bestLag in
    let y3 := read correlations (bestLag + 1) in
    let a := ((y1 + y3 - Fin 2 * y2) / Fin 2)%num in
    let b := ((y3 - y1) / Fin 2)%num in
    if (a !== Fin 0)%num
    then (ofZ bestLag - b / (Fin 2 * a))%num
    else ofZ bestLag
  else ofZ bestLag.

(** Steps 2 to 6 for a finite sample rate, after the RMS gate. *)
Definition autocorrelate_search (buffer : list number) (sampleRate : R)
  : completion number :=
  let minLag := floorZ (sampleRate / MAX_FREQUENCY) in
  let maxLag := floorZ (sampleRate / MIN_FREQUENCY) in
  zeros ← new_Float32Array (maxLag + 1);
  let correlations := compute_correlations buffer minLag maxLag zeros in
  let '(bestLag, maxCorrelation) :=
    peak_scan correlations (lag_range minLag maxLag) (-1) NInf in
  if (bestLag =? -1)%Z || (maxCorrelation <? Fin 0.01)%num
  then Normal (Fin (-1))
  else
    let refinedLag := refine_lag correlations bestLag maxLag in
    Normal (Fin sampleRate / refinedLag)%num.

(** [autocorrelate(buffer, sampleRate)].  With a [NaN] sample rate both
    lag bounds are [NaN]: the array has length 0, neither loop runs and
    [bestLag] stays [-1].  With an infinite one [maxLag + 1] is infinite
    and the array constructor throws. *)
Definition autocorrelate (buffer : list number) (sampleRate : number)
  : completion number :=
  if (rms buffer <? Fin MIN_RMS_THRESHOLD)%num then Normal (Fin (-1))
  else
    match sampleRate with
    | Fin sr => autocorrelate_search buffer sr
    | NaN => Normal (Fin (-1))
    | PInf | NInf => ThrowRangeError
    end.

(* ================================================================== *)
(** ** The note resolver *)
(* ================================================================== *)

(** The object [{ note, octave, frequency }] returned by
    [findClosestNote] and held in [selectedNote]. *)
Record Note : Type := {
  note : string;
  octave : number;
  frequency : number;
}.

(** [findClosestNote(frequency)].  Past the range test [noteIndex] is an
    integer of [0, 108) or [NaN]; with [NaN] the element read from
    [NOTE_FREQUENCIES] is [undefined] and taking its [frequency]
    throws. *)
Definition findClosestNote (frequency : number) : completion Note :=
  let semitones := (Fin 12 * Math_log2 (frequency / Fin 440))%num in
  let noteIndex := (Math_round semitones + Fin 57)%num in
  if (noteIndex <? Fin 0)%num
     || (noteIndex >=? ofNat (length NOTE_FREQUENCIES))%num
  then Normal {| note := "--"; octave := Fin 0; frequency := Fin 0 |}
  else
    match noteIndex with
    | Fin x =>
        let octave := Math_floor (noteIndex / Fin 12) in
        let noteInOctave := (floorZ x mod 12)%Z in
        match NOTE_FREQUENCIES !! Z.to_nat (floorZ x) with
        | Some entry =>
            Normal {| note := NOTE_NAMES !!! Z.to_nat noteInOctave;
                      octave := octave;
                      frequency := entry_frequency entry |}
        | None => ThrowTypeError
        end
    | _ => ThrowTypeError
    end.

(** [calculateCents(detected, target)]. *)
Definition calculateCents (detected target : number) : number :=
  (Fin 1200 * Math_log2 (detected / target))%num.

(* ================================================================== *)
(** ** Application state, mode selection and the animation loop *)
(* ================================================================== *)

Inductive TunerMode : Type := auto | manual.

(** The module-level variables the loop and the selection handlers
    read and write.  [analyser] records whether the analyser node is
    set; the audio context and the microphone are set and cleared
    together with it. *)
Record State : Type := {
  analyser : bool;
  isListening : bool;
  animationFrameId : option Z;
  currentMode : TunerMode;
  selectedNote : option Note;
}.

(** The texts written to the status bar. *)
Inductive StatusText : Type :=
| WaitingForAudio                        (* "Esperando audio..." *)
| AutoDetecting                          (* "Modo Auto: Detectando cualquier nota..." *)
| ManualSelectString                     (* "Modo Manual: Selecciona una cuerda para afinar" *)
| TuningTo (n : string) (o f : number).  (* "Afinando a <note><octave> (<frequency> Hz)" *)

(** What a handler shows: a call of [updateUI] with its four
    arguments, a text in the status bar, or the target-note panel.
    Style classes of the page are not modelled. *)
Inductive Effect : Type :=
| UpdateUI (frequency : number) (note : string) (octave : number)
           (cents : number)
| StatusBar (text : StatusText)
| TargetPrompt                           (* "Selecciona una cuerda" *)
| TargetShown (n : string) (o f : number).

(** [audioLoop()], for the frame [analyser.getFloatTimeDomainData]
    copies into [audioBuffer], the sample rate of the audio context and
    the handle [requestAnimationFrame] returns. *)
Definition audioLoop (st : State) (audioBuffer : list number)
    (sampleRate : number) (handle : Z) : completion (State * list Effect) :=
  if negb (analyser st) || negb (isListening st) then Normal (st, [])
  else
    frequency ← autocorrelate audioBuffer sampleRate;
    effects ←
      (if (frequency >? Fin 0)%num then
         target ←
           match currentMode st, selectedNote st with
           | manual, Some selected => Normal selected
           | _, _ => findClosestNote frequency
           end;
         let '{| note := note; octave := octave; frequency := targetFreq |} :=
           target in
         let cents := calculateCents frequency targetFreq in
         Normal [UpdateUI frequency note octave cents]
       else Normal [StatusBar WaitingForAudio]);
    Normal ({| analyser := analyser st;
               isListening := isListening st;
               animationFrameId := Some handle;
               currentMode := currentMode st;
               selectedNote := selectedNote st |},
            effects).

(** [setAutoMode()]. *)
Definition setAutoMode (st : State) : State * list Effect :=
  ({| analyser := analyser st;
      isListening := isListening st;
      animationFrameId := animationFrameId st;
      currentMode := auto;
      selectedNote := None |},
   if isListening st then [StatusBar AutoDetecting] else []).

(** [setManualMode()]. *)
Definition setManualMode (st : State) : State * list Effect :=
  ({| analyser := analyser st;
      isListening := isListening st;
      animationFrameId := animationFrameId st;
      currentMode := manual;
      selectedNote := selectedNote st |},
   match selectedNote st with
   | None =>
       TargetPrompt
       :: (if isListening st then [StatusBar ManualSelectString] else [])
   | Some _ => []
   end).

(** [selectNote(note, octave, frequency, button)]. *)
Definition selectNote (n : string) (o f : number) (st : State)
  : State * list Effect :=
  let st1 := {| analyser := analyser st;
                isListening := isListening st;
                animationFrameId := animationFrameId st;
                currentMode := currentMode st;
                selectedNote :=
                  Some {| note := n; octave := o; frequency := f |} |} in
  let '(st2, shown) :=
    match currentMode st1 with
    | manual => (st1, [])
    | auto => setManualMode st1
    end in
  (st2,
   shown ++ TargetShown n o f
         :: (if isListening st2 then [StatusBar (TuningTo n o f)] else [])).

(* ================================================================== *)
(** ** Predicates on numbers *)
(* ================================================================== *)

(** A number that is a real. *)
Definition finite (a : number) : Prop := exists x, a = Fin x.

(** A sample or correlation that is a real or [NaN], never infinite. *)
Definition real_or_nan (a : number) : Prop := a <> PInf /\ a <> NInf.

(* ================================================================== *)
(** ** The note table and the resolver, restated *)
(* ================================================================== *)

(** The element the loops push for note number [k]. *)
Definition table_entry (k : Z) : NoteFrequency :=
  {| entry_note := NOTE_NAMES !!! Z.to_nat (k mod 12);
     entry_frequency := Fin (note_frequency k) |}.

(** The placeholder [findClosestNote] returns out of range. *)
Definition out_of_range_note : Note :=
  {| note := "--"; octave := Fin 0; frequency := Fin 0 |}.

(** The index [findClosestNote] computes for a positive frequency. *)
Definition closest_index (f : R) : Z :=
  (roundZ (12 * log2 (f / 440)) + 57)%Z.

(* ================================================================== *)
(** ** Intermediate values of the estimator *)
(* ================================================================== *)

(** The zeroed array the constructor returns for [maxLag + 1] slots. *)
Definition zeros (maxLag : Z) : list number :=
  replicate (Z.to_nat (maxLag + 1)) (Fin 0).

(** The array of correlations after step 3. *)
Definition correlations_of (buffer : list number) (minLag maxLag : Z)
  : list number :=
  compute_correlations buffer minLag maxLag (zeros maxLag).

(** The value a candidate must exceed for the scan to stop. *)
Definition exit_threshold (correlations : list number) : number :=
  (Fin 0.9 * read correlations 0)%num.

(** A candidate at which the scan stops. *)
Definition stops_scan (correlations : list number) (lag : Z) : bool :=
  is_peak correlations lag
  && (read correlations lag >? exit_threshold correlations)%num.

(** A running maximum that every stopping candidate exceeds. *)
Definition below_exit (correlations : list number)
    (maxCorrelation : number) : Prop :=
  maxCorrelation = NInf
  \/ (maxCorrelation <> NaN
      /\ (maxCorrelation >? exit_threshold correlations)%num = false).

Definition minLag_of (sampleRate : R) : Z := floorZ (sampleRate / MAX_FREQUENCY).
Definition maxLag_of (sampleRate : R) : Z := floorZ (sampleRate / MIN_FREQUENCY).

(** A positive sample rate for which the array of correlations can be
    constructed. *)
Definition allocatable (sampleRate : R) : Prop :=
  (0 < sampleRate)%R /\ (maxLag_of sampleRate + 1 <= MAX_SAFE_INTEGER)%Z.

(** The refined lag the interpolation computes from three reals. *)
Definition parabola_vertex (bestLag : Z) (y1 y2 y3 : R) : R :=
  (IZR bestLag - ((y3 - y1) / 2) / (2 * ((y1 + y3 - 2 * y2) / 2)))%R.

(** The array of correlations, [bestLag] and [maxCorrelation] that
    [autocorrelate] computes for a buffer and a finite sample rate. *)
Definition correlations_for (buffer : list number) (sampleRate : R)
  : list number :=
  correlations_of buffer (minLag_of sampleRate) (maxLag_of sampleRate).

Definition scan_for (buffer : list number) (sampleRate : R) : Z * number :=
  peak_scan (correlations_for buffer sampleRate)
            (lag_range (minLag_of sampleRate) (maxLag_of sampleRate))
            (-1) NInf.

Definition bestLag_for (buffer : list number) (sampleRate : R) : Z :=
  (scan_for buffer sampleRate).1.

Definition maxCorrelation_for (buffer : list number) (sampleRate : R)
  : number :=
  (scan_for buffer sampleRate).2.

(* ================================================================== *)
(** ** The animation loop over several frames *)
(* ================================================================== *)

(** The state [audioLoop] leaves: only the frame handle changes. *)
Definition rescheduled (st : State) (handle : Z) : State :=
  {| analyser := analyser st;
     isListening := isListening st;
     animationFrameId := Some handle;
     currentMode := currentMode st;
     selectedNote := selectedNote st |}.

(** The successive runs of [audioLoop] that [requestAnimationFrame]
    schedules, one per frame, each given as the samples, the sample
    rate and the handle of the next request. *)
Fixpoint run_ticks (st : State) (frames : list (list number * number * Z))
  : completion (State * list Effect) :=
  match frames with
  | [] => Normal (st, [])
  | (audioBuffer, sampleRate, handle) :: rest =>
      r1 ← audioLoop st audioBuffer sampleRate handle;
      r2 ← run_ticks r1.1 rest;
      Normal (r2.1, r1.2 ++ r2.2)
  end.

(** Listening in manual mode, nothing selected. *)
Definition manual_without_target : State :=
  {| analyser := true;
     isListening := true;
     animationFrameId := None;
     currentMode := manual;
     selectedNote := None |}.

(** Listening in auto mode, nothing selected. *)
Definition listening_auto : State :=
  {| analyser := true;
     isListening := true;
     animationFrameId := None;
     currentMode := auto;
     selectedNote := None |}.

(** A call of [updateUI] that shows the note and octave of [target],
    with the deviation of the detected frequency from its frequency. *)
Definition shows_target (target : Note) (e : Effect) : Prop :=
  match e with
  | UpdateUI detected n o cents =>
      n = note target /\ o = octave target
      /\ cents = calculateCents detected (frequency target)
  | _ => True
  end.

(** The low E string as the selection handler receives it. *)
Definition after_selecting_E2 : State :=
  (selectNote "E" (Fin 2) (Fin 82.41) listening_auto).1.

(* ================================================================== *)
(** ** Evaluation on integer-valued samples *)
(* ================================================================== *)

(** Numbers whose finite values are integers are closed under the
    additions, products, loads and stores of steps 1 to 4.  On them
    these steps are computed with integer arithmetic; the lemmas below
    carry each result to the embedding over the reals. *)
Module IntSamples.

Inductive inum : Type :=
| IFin (z : Z)
| IPInf
| INInf
| INaN.

Definition embed (a : inum) : number :=
  match a with
  | IFin z => Fin (IZR z)
  | IPInf => PInf
  | INInf => NInf
  | INaN => NaN
  end.

Definition isigned_inf (c : comparison) : inum :=
  match c with
  | Gt => IPInf
  | Lt => INInf
  | Eq => INaN
  end.

Definition iadd (a b : inum) : inum :=
  match a, b with
  | INaN, _ | _, INaN => INaN
  | IFin x, IFin y => IFin (x + y)
  | IPInf, INInf | INInf, IPInf => INaN
  | IPInf, _ | _, IPInf => IPInf
  | INInf, _ | _, INInf => INInf
  end.

Definition imul (a b : inum) : inum :=
  match a, b with
  | INaN, _ | _, INaN => INaN
  | IFin x, IFin y => IFin (x * y)
  | IFin x, IPInf | IPInf, IFin x => isigned_inf (x ?= 0)%Z
  | IFin x, INInf | INInf, IFin x => isigned_inf (CompOpp (x ?= 0)%Z)
  | IPInf, IPInf | INInf, INInf => IPInf
  | IPInf, INInf | INInf, IPInf => INInf
  end.

Definition ilt (a b : inum) : bool :=
  match a, b with
  | INaN, _ | _, INaN => false
  | IFin x, IFin y => (x <? y)%Z
  | INInf, IFin _ | INInf, IPInf | IFin _, IPInf => true
  | _, _ => false
  end.

(** [0.9 * c0 < c]. *)
Definition ilt_exit (c0 c : inum) : bool :=
  match c0, c with
  | IFin z0, IFin z => (9 * z0 <? 10 * z)%Z
  | IFin _, IPInf => true
  | IFin _, _ => false
  | _, _ => ilt c0 c
  end.

Definition iread (arr : list inum) (k : Z) : inum :=
  if (k <? 0)%Z then INaN
  else match arr !! Z.to_nat k with
       | Some v => v
       | None => INaN
       end.

Definition iwrite (arr : list inum) (k : Z) (v : inum) : list inum :=
  if (k <? 0)%Z then arr else <[Z.to_nat k := v]> arr.

Definition isumSquares (buffer : list inum) : inum :=
  fold_left (fun acc x => iadd acc (imul x x)) buffer (IFin 0).

Definition icorrelation_at (buffer : list inum) (lag : Z) : inum :=
  fold_left (fun correlation i =>
               iadd correlation (imul (iread buffer i) (iread buffer (i + lag))))
            (seqZ 0 windowSize) (IFin 0).

Definition icorrelations_of (buffer : list inum) (minLag maxLag : Z)
  : list inum :=
  fold_left (fun cs lag => iwrite cs lag (icorrelation_at buffer lag))
            (lag_range minLag maxLag)
            (replicate (Z.to_nat (maxLag + 1)) (IFin 0)).

Definition iis_peak (correlations : list inum) (lag : Z) : bool :=
  ilt (iread correlations (lag - 1)) (iread correlations lag)
  && ilt (iread correlations (lag + 1)) (iread correlations lag).

Fixpoint ipeak_scan (correlations : list inum) (lags : list Z)
    (bestLag : Z) (maxCorrelation : inum) : Z * inum :=
  match lags with
  | [] => (bestLag, maxCorrelation)
  | lag :: rest =>
      if iis_peak correlations lag then
        let '(bestLag', maxCorrelation') :=
          if ilt maxCorrelation (iread correlations lag)
          then (lag, iread correlations lag)
          else (bestLag, maxCorrelation) in
        if ilt_exit (iread correlations 0) (iread correlations lag)
        then (bestLag', maxCorrelation')
        else ipeak_scan correlations rest bestLag' maxCorrelation'
      else ipeak_scan correlations rest bestLag maxCorrelation
  end.

Definition ihead (l : list inum) : inum :=
  match l with
  | x :: _ => x
  | [] => INaN
  end.

(** The sum of the first [n] products of two lists read in step, a
    list that ends early reading [NaN]. *)
Fixpoint idot (n : nat) (xs ys : list inum) (acc : inum) : inum :=
  match n with
  | O => acc
  | S n' => idot n' (tail xs) (tail ys) (iadd acc (imul (ihead xs) (ihead ys)))
  end.

Definition icorrelations_fast (buffer : list inum) (minLag maxLag : Z)
  : list inum :=
  fold_left (fun cs lag =>
               iwrite cs lag
                 (idot (Z.to_nat windowSize) buffer
                       (drop (Z.to_nat lag) buffer) (IFin 0)))
            (lag_range minLag maxLag)
            (replicate (Z.to_nat (maxLag + 1)) (IFin 0)).

End IntSamples.

Import IntSamples.

(** [maxCorrelation < 0.01] on an integer-valued maximum. *)
Definition ibelow_floor (m : inum) : bool :=
  match m with
  | IFin z => (z <=? 0)%Z
  | INInf => true
  | IPInf | INaN => false
  end.

(** The gate on an integer-valued sum of squares over [n] samples. *)
Definition igate_closed (s : inum) (n : nat) : bool :=
  match s with
  | IFin z => (0 <? n)%nat && (0 <=? z)%Z && (1000000 * z <? 25 * Z.of_nat n)%Z
  | _ => false
  end.

Definition is_ifin (a : inum) : bool :=
  match a with IFin _ => true | _ => false end.

(* ================================================================== *)
(** ** Frames used to run the program *)
(* ================================================================== *)

(** A frame of [FFT_SIZE] samples, zero except at the listed
    positions. *)
Definition impulses (entries : list (nat * inum)) : list inum :=
  fold_left (fun frame e => <[e.1 := e.2]> frame) entries
            (replicate FFT_SIZE (IFin 0)).

(** Two unit clicks 100 samples apart. *)
Definition click_frame : list number :=
  embed <$> impulses [(0, IFin 1); (100, IFin 1)]%nat.

(** Two unit clicks 200 samples apart. *)
Definition low_click_frame : list number :=
  embed <$> impulses [(0, IFin 1); (200, IFin 1)]%nat.

(** A single unit click. *)
Definition single_click_frame : list number :=
  embed <$> impulses [(0, IFin 1)]%nat.

(** Two unit clicks and a louder one: the correlation is 1 at lag 100
    and 5 at lags 300 and 400. *)
Definition two_peak_frame : list number :=
  embed <$> impulses [(0, IFin 1); (100, IFin 1); (400, IFin 5)]%nat.

(** A click between two opposite ones: the correlation is 0 at lag 100
    and -1 at lags 99 and 101. *)
Definition weak_peak_frame : list number :=
  embed <$> impulses [(0, IFin 1); (99, IFin (-1)); (101, IFin (-1))]%nat.


(** The first 2149 samples of the two-click frame: long enough for the
    lags up to 101, too short for the lags from 102 to 678. *)
Definition short_click_frame : list number :=
  embed <$> take 2149 (impulses [(0, IFin 1); (100, IFin 1)]%nat).

(** The silent frame. *)
Definition silent_frame : list number := replicate FFT_SIZE (Fin 0).

(** Two unit clicks 44 samples apart, the smallest lag at 44100 Hz. *)
Definition fast_click_frame : list number :=
  embed <$> impulses [(0, IFin 1); (44, IFin 1)]%nat.

(** The two-click frame with a third click at sample 4000, past every
    sample the lags up to 678 reach. *)
Definition tail_click_frame : list number :=
  embed <$> impulses [(0, IFin 1); (100, IFin 1); (4000, IFin 1)]%nat.

(* ================================================================== *)
(** ** Rendering and the audio session *)
(* ================================================================== *)

Definition Math_abs (a : number) : number :=
  match a with
  | Fin x => Fin (Rabs x)
  | PInf | NInf => PInf
  | NaN => NaN
  end.

(** [Math.min] and [Math.max] of two numbers: [NaN] if either is. *)
Definition Math_min (a b : number) : number :=
  match a, b with
  | NaN, _ | _, NaN => NaN
  | _, _ => if (b <? a)%num then b else a
  end.

Definition Math_max (a b : number) : number :=
  match a, b with
  | NaN, _ | _, NaN => NaN
  | _, _ => if (a <? b)%num then b else a
  end.

(** The colour [updateUI] and [resetUI] give the note and the border
    of the tuner. *)
Inductive TuningColor : Type := white | green | yellow | red.

(** What the tuner shows.  [octaveDisplay] is [None] for the text "-",
    [frequencyDisplay] is [None] for "-- Hz" and otherwise the number
    that is printed with one decimal; [centsDisplay] is the sign prefix
    ("+" or none) and the rounded number of cents; [needle] is the
    rotation in degrees.  The colour of the needle follows [tuning],
    except after [resetUI], which leaves it red. *)
Record Display : Type := {
  noteDisplay : string;
  octaveDisplay : option number;
  frequencyDisplay : option number;
  centsDisplay : bool * number;
  needle : number;
  tuning : TuningColor;
}.

(** [updateUI(frequency, note, octave, cents)]. *)
Definition updateUI (frequency : number) (note : string)
    (octave cents : number) : Display :=
  let centsRounded := Math_round cents in
  let centsSign := (centsRounded >=? Fin 0)%num in
  let rotation := Math_max (Fin (-45)) (Math_min (Fin 45) (cents * Fin 0.9))%num in
  let isInTune := le (Math_abs cents) (Fin CENTS_TOLERANCE) in
  {| noteDisplay := note;
     octaveDisplay := if (octave >? Fin 0)%num then Some octave else None;
     frequencyDisplay := Some frequency;
     centsDisplay := (centsSign, centsRounded);
     needle := rotation;
     tuning := if isInTune then green
               else if le (Math_abs cents) (Fin 20) then yellow
               else red |}.

(** [resetUI()]. *)
Definition resetUI : Display :=
  {| noteDisplay := "--";
     octaveDisplay := None;
     frequencyDisplay := None;
     centsDisplay := (false, Fin 0);
     needle := Fin 0;
     tuning := white |}.

(** The texts of the status bar. *)
Inductive StatusLine : Type :=
| PressToStart                  (* "Presiona el boton para comenzar" *)
| ListeningPlayString           (* "Escuchando... Toca una cuerda" *)
| MicrophoneError               (* "Error: No se pudo acceder al microfono" *)
| TunerStatus (text : StatusText).

(** The page: the variables of [State], the audio context and the
    microphone node ([true] when set), what is shown, and the number of
    calls of [startAudio] that wait for [getUserMedia].  The
    target-note panel and the labels of the buttons are not tracked. *)
Record Page : Type := {
  tuner : State;
  audioContext : bool;
  microphone : bool;
  screen : Display;
  statusBar : StatusLine;
  pendingStarts : nat;
}.

(** The page as the script leaves it when it is loaded. *)
Definition initial_page : Page :=
  {| tuner := {| analyser := false;
                 isListening := false;
                 animationFrameId := None;
                 currentMode := auto;
                 selectedNote := None |};
     audioContext := false;
     microphone := false;
     screen := resetUI;
     statusBar := PressToStart;
     pendingStarts := 0 |}.

(** What a handler of [Effect]s shows on the page. *)
Definition show (e : Effect) (p : Page) : Page :=
  match e with
  | UpdateUI f n o c =>
      {| tuner := tuner p;
         audioContext := audioContext p;
         microphone := microphone p;
         screen := updateUI f n o c;
         statusBar := statusBar p;
         pendingStarts := pendingStarts p |}
  | StatusBar text =>
      {| tuner := tuner p;
         audioContext := audioContext p;
         microphone := microphone p;
         screen := screen p;
         statusBar := TunerStatus text;
         pendingStarts := pendingStarts p |}
  | TargetPrompt | TargetShown _ _ _ => p
  end.

(** A handler of [State] run on the page. *)
Definition on_page (r : State * list Effect) (p : Page) : Page :=
  fold_left (fun q e => show e q) r.2
    {| tuner := r.1;
       audioContext := audioContext p;
       microphone := microphone p;
       screen := screen p;
       statusBar := statusBar p;
       pendingStarts := pendingStarts p |}.

(** [stopAudio()].  A frame handle is cancelled and cleared when it is
    truthy, that is, not zero. *)
Definition stopAudio (p : Page) : Page :=
  {| tuner :=
       {| analyser := false;
          isListening := false;
          animationFrameId :=
            match animationFrameId (tuner p) with
            | Some id => if (id =? 0)%Z then Some id else None
            | None => None
            end;
          currentMode := currentMode (tuner p);
          selectedNote := selectedNote (tuner p) |};
     audioContext := false;
     microphone := false;
     screen := resetUI;
     statusBar := PressToStart;
     pendingStarts := pendingStarts p |}.

(** [startAudio()] up to its [await]: the audio context is created and
    the call waits for [getUserMedia]. *)
Definition startAudio_begin (p : Page) : Page :=
  {| tuner := tuner p;
     audioContext := true;
     microphone := microphone p;
     screen := screen p;
     statusBar := statusBar p;
     pendingStarts := S (pendingStarts p) |}.

(** The [catch] branch of [startAudio]. *)
Definition startAudio_failed (p : Page) : Page :=
  {| tuner := tuner p;
     audioContext := audioContext p;
     microphone := microphone p;
     screen := screen p;
     statusBar := MicrophoneError;
     pendingStarts := pendingStarts p |}.

(** [startAudio()] from the point where [getUserMedia] resolves, with
    the first frame the analyser delivers.  With [audioContext] cleared
    in between, [audioContext.createMediaStreamSource] throws and the
    [catch] branch runs; so it does when the first [audioLoop]
    throws. *)
Definition startAudio_granted (p : Page) (audioBuffer : list number)
    (sampleRate : number) (handle : Z) : Page :=
  if audioContext p then
    let listening :=
      {| tuner :=
           {| analyser := true;
              isListening := true;
              animationFrameId := animationFrameId (tuner p);
              currentMode := currentMode (tuner p);
              selectedNote := selectedNote (tuner p) |};
         audioContext := true;
         microphone := true;
         screen := screen p;
         statusBar := ListeningPlayString;
         pendingStarts := pendingStarts p |} in
    match audioLoop (tuner listening) audioBuffer sampleRate handle with
    | Normal r => on_page r listening
    | _ => startAudio_failed listening
    end
  else startAudio_failed p.

(** What happens to the page. *)
Inductive Event : Type :=
| ClickStart (created : bool)      (* the start button; whether
                                      [new AudioContext()] succeeds *)
| MediaGranted (audioBuffer : list number) (sampleRate : number) (handle : Z)
| MediaDenied
| AnimationFrame (audioBuffer : list number) (sampleRate : number) (handle : Z)
| ClickAuto
| ClickManual
| ClickString (n : string) (o f : number)
| PageHidden.

(** One call less waits for [getUserMedia]. *)
Definition resumed (p : Page) : Page :=
  {| tuner := tuner p;
     audioContext := audioContext p;
     microphone := microphone p;
     screen := screen p;
     statusBar := statusBar p;
     pendingStarts := pred (pendingStarts p) |}.

(** The event listeners.  The outcome of [getUserMedia] is only
    delivered to a call that waits for it; an exception of [audioLoop]
    in an animation frame ends that frame and changes nothing.  Events
    are not constrained otherwise: a frame may come when none was
    requested, and with any sample rate, so that what holds of every
    sequence of events holds of those a browser delivers. *)
Definition handle_event (p : Page) (ev : Event) : Page :=
  match ev with
  | ClickStart created =>
      if isListening (tuner p) then stopAudio p
      else if created then startAudio_begin p
      else startAudio_failed p
  | MediaGranted audioBuffer sampleRate handle =>
      match pendingStarts p with
      | O => p
      | S _ => startAudio_granted (resumed p) audioBuffer sampleRate handle
      end
  | MediaDenied =>
      match pendingStarts p with
      | O => p
      | S _ => startAudio_failed (resumed p)
      end
  | AnimationFrame audioBuffer sampleRate handle =>
      match audioLoop (tuner p) audioBuffer sampleRate handle with
      | Normal r => on_page r p
      | _ => p
      end
  | ClickAuto => on_page (setAutoMode (tuner p)) p
  | ClickManual => on_page (setManualMode (tuner p)) p
  | ClickString n o f => on_page (selectNote n o f (tuner p)) p
  | PageHidden => if isListening (tuner p) then stopAudio p else p
  end.

Definition run_events (p : Page) (events : list Event) : Page :=
  fold_left handle_event events p.

(** The invariant of the page. *)
Definition page_invariant (p : Page) : Prop :=
  (currentMode (tuner p) = auto -> selectedNote (tuner p) = None)
  /\ analyser (tuner p) = isListening (tuner p)
  /\ (isListening (tuner p) = true ->
      audioContext p = true /\ microphone p = true).


(** The events of the audio session: all but the clicks on the mode
    buttons and on the strings. *)
Definition session_event (ev : Event) : bool :=
  match ev with
  | ClickAuto | ClickManual | ClickString _ _ _ => false
  | _ => true
  end.

(* ================================================================== *)
(** ** Buffers used to state properties of the estimator *)
(* ================================================================== *)

(** A buffer of [n] equal samples. *)
Definition constant_frame (n : nat) (c : R) : list number :=
  replicate n (Fin c).

(** A sample, and a buffer, [a] times as loud. *)
Definition scaled (a : R) (x : number) : number := (Fin a * x)%num.

Definition amplified (a : R) (buffer : list number) : list number :=
  scaled a <$> buffer.

(** An impulse train: [n] samples, a unit click every [period]
    samples, the first at sample 0. *)
Definition impulse_train (n : nat) (period : Z) : list number :=
  (fun i : Z => if (i mod period =? 0)%Z then Fin 1 else Fin 0)
    <$> seqZ 0 (Z.of_nat n).

(* ================================================================== *)
(** ** Facts on numbers *)
(* ================================================================== *)

Section NumberFacts.
Local Open Scope R_scope.

Lemma Rltb_true x y : Rltb x y = true <-> x < y.
Proof. unfold Rltb. destruct (Rlt_dec x y); split; auto; discriminate. Qed.

Lemma Rltb_false x y : Rltb x y = false <-> y <= x.
Proof.
  unfold Rltb. destruct (Rlt_dec x y); split; auto; try discriminate; lra.
Qed.

Lemma Rleb_true x y : Rleb x y = true <-> x <= y.
Proof. unfold Rleb. destruct (Rle_dec x y); split; auto; discriminate. Qed.

Lemma Rleb_false x y : Rleb x y = false <-> y < x.
Proof.
  unfold Rleb. destruct (Rle_dec x y); split; auto; try discriminate; lra.
Qed.

Lemma Reqb_true x y : Reqb x y = true <-> x = y.
Proof. unfold Reqb. destruct (Req_dec_T x y); split; auto; discriminate. Qed.

Lemma Reqb_false x y : Reqb x y = false <-> x <> y.
Proof.
  unfold Reqb. destruct (Req_dec_T x y); split; auto; try discriminate.
  intros; contradiction.
Qed.

Lemma Rsign_pos x : 0 < x -> Rsign x = Gt.
Proof.
  intros H. unfold Rsign. destruct (Rcompare_spec x 0); auto; lra.
Qed.

Lemma Rsign_neg x : x < 0 -> Rsign x = Lt.
Proof.
  intros H. unfold Rsign. destruct (Rcompare_spec x 0); auto; lra.
Qed.

Lemma Rsign_zero : Rsign 0 = Eq.
Proof. unfold Rsign. destruct (Rcompare_spec 0 0); auto; lra. Qed.

Lemma floorZ_spec x z : IZR z <= x < IZR z + 1 -> floorZ x = z.
Proof.
  intros H. unfold floorZ. symmetry. apply Int_part_spec. lra.
Qed.

Lemma floorZ_bounds x : IZR (floorZ x) <= x < IZR (floorZ x) + 1.
Proof. unfold floorZ. destruct (base_Int_part x). lra. Qed.

Lemma floorZ_IZR z : floorZ (IZR z) = z.
Proof. apply floorZ_spec. lra. Qed.

Lemma floorZ_mono x y : x <= y -> (floorZ x <= floorZ y)%Z.
Proof.
  intros H. pose proof (floorZ_bounds x). pose proof (floorZ_bounds y).
  apply Z.lt_succ_r, lt_IZR. rewrite succ_IZR. lra.
Qed.

Lemma floorZ_ge x z : IZR z <= x -> (z <= floorZ x)%Z.
Proof. intros H. rewrite <- (floorZ_IZR z). now apply floorZ_mono. Qed.

Lemma floorZ_div z d : (0 < d)%Z -> floorZ (IZR z / IZR d) = (z / d)%Z.
Proof.
  intros Hd. apply floorZ_spec.
  assert (0 < IZR d) by now apply IZR_lt.
  pose proof (Z.mul_div_le z d Hd).
  pose proof (Z.mul_succ_div_gt z d Hd).
  apply IZR_le in H0. apply IZR_lt in H1.
  rewrite mult_IZR in H0. rewrite mult_IZR, succ_IZR in H1.
  split.
  - apply Rmult_le_reg_r with (IZR d); auto.
    unfold Rdiv. rewrite Rmult_assoc, Rinv_l by lra. lra.
  - apply Rmult_lt_reg_r with (IZR d); auto.
    unfold Rdiv. rewrite Rmult_assoc, Rinv_l by lra. lra.
Qed.

End NumberFacts.

(** Turns boolean comparisons of reals into propositions and closes
    the goal by linear arithmetic. *)
Ltac reals_bool :=
  repeat match goal with
    | H : Rltb _ _ = true |- _ => apply Rltb_true in H
    | H : Rltb _ _ = false |- _ => apply Rltb_false in H
    | H : Rleb _ _ = true |- _ => apply Rleb_true in H
    | H : Rleb _ _ = false |- _ => apply Rleb_false in H
    | H : Reqb _ _ = true |- _ => apply Reqb_true in H
    | H : Reqb _ _ = false |- _ => apply Reqb_false in H
    | |- Rltb _ _ = true => apply Rltb_true
    | |- Rltb _ _ = false => apply Rltb_false
    | |- Rleb _ _ = true => apply Rleb_true
    | |- Rleb _ _ = false => apply Rleb_false
    | |- Reqb _ _ = true => apply Reqb_true
    | |- Reqb _ _ = false => apply Reqb_false
    end.

(** Replaces a closed term by its value, computed by the virtual
    machine. *)
Ltac vm_value t :=
  let v := eval vm_compute in t in
  replace t with v by (vm_compute; reflexivity).

Ltac vm_scan :=
  match goal with
  | |- context [ipeak_scan ?a ?b ?c ?d] => vm_value (ipeak_scan a b c d)
  end.

(* ================================================================== *)
(** ** The note table *)
(* ================================================================== *)

Section NoteTable.
Local Open Scope R_scope.

Lemma NOTE_FREQUENCIES_unfold :
  NOTE_FREQUENCIES = table_entry <$> seqZ 0 108.
Proof. reflexivity. Qed.

Lemma NOTE_FREQUENCIES_length : length NOTE_FREQUENCIES = 108%nat.
Proof. reflexivity. Qed.

Lemma NOTE_FREQUENCIES_lookup (k : Z) :
  (0 <= k < 108)%Z ->
  NOTE_FREQUENCIES !! Z.to_nat k = Some (table_entry k).
Proof.
  intros Hk. rewrite NOTE_FREQUENCIES_unfold, list_lookup_fmap.
  rewrite lookup_seqZ_lt by lia. simpl. f_equal. f_equal. lia.
Qed.

Lemma NOTE_FREQUENCIES_lookup_ge (i : nat) :
  (108 <= i)%nat -> NOTE_FREQUENCIES !! i = None.
Proof.
  intros Hi. apply lookup_ge_None_2. rewrite NOTE_FREQUENCIES_length. lia.
Qed.

Lemma note_frequency_pos k : 0 < note_frequency k.
Proof.
  unfold note_frequency, Math_pow, Rpower.
  apply Rmult_lt_0_compat; [lra | apply exp_pos].
Qed.

Lemma note_frequency_A4 : note_frequency 57 = 440.
Proof.
  unfold note_frequency, Math_pow.
  replace ((57 - 57) / 12) with 0 by lra.
  rewrite Rpower_O by lra. lra.
Qed.



End NoteTable.

(* ================================================================== *)
(** ** The note resolver on positive frequencies *)
(* ================================================================== *)

Section Resolver.
Local Open Scope R_scope.

Lemma ln2_pos : 0 < ln 2.
Proof. rewrite <- ln_1. apply ln_increasing; lra. Qed.

Lemma log2_1 : log2 1 = 0.
Proof. unfold log2. rewrite ln_1. lra. Qed.

Lemma log2_Rpower y : log2 (Rpower 2 y) = y.
Proof.
  unfold log2. rewrite ln_Rpower. pose proof ln2_pos.
  field. lra.
Qed.

Lemma log2_lt x y : 0 < x -> x < y -> log2 x < log2 y.
Proof.
  intros Hx Hxy. unfold log2. pose proof ln2_pos.
  apply Rmult_lt_compat_r; [now apply Rinv_0_lt_compat |].
  now apply ln_increasing.
Qed.

Lemma log2_pos_iff x : 0 < x -> (0 < log2 x <-> 1 < x).
Proof.
  intros Hx. split; intros H.
  - destruct (Rlt_dec 1 x) as [|Hn]; [assumption | exfalso].
    assert (x = 1 \/ x < 1) as [->|Hlt] by lra.
    + rewrite log2_1 in H. lra.
    + pose proof (log2_lt x 1 Hx Hlt). rewrite log2_1 in *. lra.
  - rewrite <- log2_1. apply log2_lt; lra.
Qed.

Lemma log2_neg_iff x : 0 < x -> (log2 x < 0 <-> x < 1).
Proof.
  intros Hx. split; intros H.
  - destruct (Rlt_dec x 1) as [|Hn]; [assumption | exfalso].
    assert (x = 1 \/ 1 < x) as [->|Hlt] by lra.
    + rewrite log2_1 in H. lra.
    + pose proof (log2_lt 1 x ltac:(lra) Hlt). rewrite log2_1 in *. lra.
  - rewrite <- log2_1. apply log2_lt; lra.
Qed.

Lemma div_Fin_nonzero x y : y <> 0 -> (Fin x / Fin y)%num = Fin (x / y).
Proof. intros H. simpl. apply Reqb_false in H. now rewrite H. Qed.

Lemma Math_log2_pos x : 0 < x -> Math_log2 (Fin x) = Fin (log2 x).
Proof.
  intros H. simpl.
  replace (Rltb x 0) with false by (symmetry; apply Rltb_false; lra).
  replace (Reqb x 0) with false by (symmetry; apply Reqb_false; lra).
  reflexivity.
Qed.

Lemma calculateCents_pos d t :
  0 < d -> 0 < t ->
  calculateCents (Fin d) (Fin t) = Fin (1200 * log2 (d / t)).
Proof.
  intros Hd Ht. unfold calculateCents.
  rewrite div_Fin_nonzero by lra.
  rewrite Math_log2_pos by (now apply Rdiv_lt_0_compat).
  reflexivity.
Qed.

Lemma findClosestNote_pos f :
  0 < f ->
  findClosestNote (Fin f) =
  Normal (if decide (0 <= closest_index f < 108)%Z
          then {| note := NOTE_NAMES !!! Z.to_nat (closest_index f mod 12);
                  octave := ofZ (closest_index f / 12);
                  frequency := Fin (note_frequency (closest_index f)) |}
          else out_of_range_note).
Proof.
  intros Hf. unfold findClosestNote.
  rewrite div_Fin_nonzero by lra.
  rewrite Math_log2_pos by (apply Rdiv_lt_0_compat; lra).
  cbn [mul Math_round add].
  set (r := roundZ (12 * log2 (f / 440))).
  replace (IZR r + 57) with (IZR (closest_index f))
    by (unfold closest_index; fold r; rewrite plus_IZR; reflexivity).
  set (idx := closest_index f).
  rewrite NOTE_FREQUENCIES_length.
  unfold ge, ofNat. cbn [lt le].
  replace (INR 108) with (IZR 108) by (rewrite INR_IZR_INZ; reflexivity).
  destruct (decide (0 <= idx < 108)%Z) as [Hin|Hout].
  - replace (Rltb (IZR idx) 0) with false
      by (symmetry; apply Rltb_false, IZR_le; lia).
    replace (Rleb 108 (IZR idx)) with false
      by (symmetry; apply Rleb_false, IZR_lt; lia).
    cbn [orb]. rewrite floorZ_IZR, NOTE_FREQUENCIES_lookup by lia.
    rewrite div_Fin_nonzero by lra. cbn [Math_floor].
    rewrite (floorZ_div idx 12) by lia. reflexivity.
  - destruct (Z_lt_ge_dec idx 0) as [Hlt|Hge].
    + replace (Rltb (IZR idx) 0) with true
        by (symmetry; apply Rltb_true, IZR_lt; lia).
      reflexivity.
    + replace (Rleb 108 (IZR idx)) with true
        by (symmetry; apply Rleb_true, IZR_le; lia).
      rewrite orb_true_r. reflexivity.
Qed.





End Resolver.

(* ================================================================== *)
(** ** Typed arrays and the array of correlations *)
(* ================================================================== *)

Section Arrays.
Implicit Types (arr : list number) (k lag : Z) (v : number).

Lemma read_out_of_range arr k :
  (k < 0 \/ Z.of_nat (length arr) <= k)%Z -> read arr k = NaN.
Proof.
  intros H. unfold read. destruct (Z.ltb_spec k 0); [reflexivity |].
  rewrite lookup_ge_None_2 by lia. reflexivity.
Qed.

Lemma read_not_NaN_in_range arr k :
  read arr k <> NaN -> (0 <= k < Z.of_nat (length arr))%Z.
Proof.
  intros H.
  destruct (decide (0 <= k < Z.of_nat (length arr))%Z); [assumption |].
  exfalso. apply H, read_out_of_range. lia.
Qed.

Lemma write_length arr k v : length (write arr k v) = length arr.
Proof.
  unfold write. destruct (k <? 0)%Z; [reflexivity | apply length_insert].
Qed.

Lemma read_write_eq arr k v :
  (0 <= k < Z.of_nat (length arr))%Z -> read (write arr k v) k = v.
Proof.
  intros H. unfold read, write.
  destruct (Z.ltb_spec k 0); [lia |].
  rewrite list_lookup_insert_eq by lia. reflexivity.
Qed.

Lemma read_write_ne arr k j v :
  j <> k -> read (write arr k v) j = read arr j.
Proof.
  intros H. unfold read, write.
  destruct (Z.ltb_spec j 0); [reflexivity |].
  destruct (Z.ltb_spec k 0); [reflexivity |].
  rewrite list_lookup_insert_ne by lia. reflexivity.
Qed.

Lemma read_write_out_of_range arr k j v :
  ~ (0 <= k < Z.of_nat (length arr))%Z ->
  read (write arr k v) j = read arr j.
Proof.
  intros H. unfold write.
  destruct (Z.ltb_spec k 0); [reflexivity |].
  rewrite list_insert_ge by lia. reflexivity.
Qed.

Lemma read_replicate n v k :
  (0 <= k < Z.of_nat n)%Z -> read (replicate n v) k = v.
Proof.
  intros H. unfold read. destruct (Z.ltb_spec k 0); [lia |].
  rewrite lookup_replicate_2 by lia. reflexivity.
Qed.

(** Storing [f lag] at every lag of a list: each slot in range that the
    list names holds [f] of its index, every other slot is unchanged. *)
Lemma read_fold_write (f : Z -> number) (lags : list Z) arr k :
  read (fold_left (fun cs lag => write cs lag (f lag)) lags arr) k
  = if decide (k ∈ lags /\ (0 <= k < Z.of_nat (length arr))%Z)
    then f k else read arr k.
Proof.
  revert arr. induction lags as [|lag lags IH]; intros arr; cbn [fold_left].
  - destruct (decide _) as [[Hin _]|_]; [|reflexivity].
    now apply elem_of_nil in Hin.
  - rewrite IH, write_length.
    destruct (decide (k ∈ lags /\ (0 <= k < Z.of_nat (length arr))%Z))
      as [[Hin Hk]|Hn];
    destruct (decide (k ∈ lag :: lags /\ (0 <= k < Z.of_nat (length arr))%Z))
      as [[Hin' Hk']|Hn'].
    + reflexivity.
    + exfalso. apply Hn'. split; [apply elem_of_cons; tauto | assumption].
    + assert (k = lag) as ->.
      { apply elem_of_cons in Hin' as [?|?]; [assumption |].
        exfalso. apply Hn. tauto. }
      now apply read_write_eq.
    + destruct (decide (k = lag)) as [->|Hne].
      * apply read_write_out_of_range. intros Hr. apply Hn'.
        split; [apply elem_of_cons; tauto | assumption].
      * now apply read_write_ne.
Qed.

End Arrays.

Section Correlations.
Implicit Types (buffer : list number) (minLag maxLag lag k : Z).

Lemma elem_of_lag_range minLag maxLag k :
  k ∈ lag_range minLag maxLag <-> (minLag <= k <= maxLag)%Z.
Proof. unfold lag_range. rewrite elem_of_seqZ. lia. Qed.

Lemma fold_write_length (f : Z -> number) (lags : list Z) (arr : list number) :
  length (fold_left (fun cs lag => write cs lag (f lag)) lags arr)
  = length arr.
Proof.
  revert arr. induction lags as [|l lags IH]; intros arr; simpl.
  - reflexivity.
  - rewrite IH. apply write_length.
Qed.

Lemma correlations_of_length buffer minLag maxLag :
  length (correlations_of buffer minLag maxLag) = Z.to_nat (maxLag + 1).
Proof.
  unfold correlations_of, compute_correlations.
  rewrite fold_write_length. unfold zeros. apply length_replicate.
Qed.

(** Slot [k] of the array after step 3. *)
Lemma read_correlations_of buffer minLag maxLag k :
  read (correlations_of buffer minLag maxLag) k
  = if decide (0 <= k <= maxLag)%Z
    then if decide (minLag <= k)%Z
         then correlation_at buffer k else Fin 0
    else NaN.
Proof.
  unfold correlations_of, compute_correlations.
  rewrite read_fold_write. unfold zeros. rewrite length_replicate.
  repeat case_decide; try reflexivity;
    rewrite ?elem_of_lag_range in *; try (exfalso; lia).
  - apply read_replicate. lia.
  - apply read_out_of_range. rewrite length_replicate. lia.
Qed.

(** With [minLag >= 1] slot 0 is never written and stays zero. *)
Lemma read_correlations_of_0 buffer minLag maxLag :
  (1 <= minLag)%Z -> (0 <= maxLag)%Z ->
  read (correlations_of buffer minLag maxLag) 0 = Fin 0.
Proof.
  intros H1 H2. rewrite read_correlations_of.
  repeat case_decide; try reflexivity; lia.
Qed.

End Correlations.

(* ================================================================== *)
(** ** Order and [NaN] facts used by the scan *)
(* ================================================================== *)

Section Order.
Implicit Types a b c : number.

Lemma lt_not_NaN a b : (a <? b)%num = true -> a <> NaN /\ b <> NaN.
Proof. destruct a, b; simpl; intros H; try discriminate; split; discriminate. Qed.

Lemma lt_NInf_r a : (a <? NInf)%num = false.
Proof. destruct a; reflexivity. Qed.

Lemma lt_PInf_l a : (PInf <? a)%num = false.
Proof. destruct a; reflexivity. Qed.

Lemma lt_NInf_l a : a <> NaN -> a <> NInf -> (NInf <? a)%num = true.
Proof. destruct a; simpl; intros; congruence. Qed.

(** [a] does not exceed [b], [b] is below [c]: [a] is below [c]. *)
Lemma lt_le_trans a b c :
  a <> NaN -> (a >? b)%num = false -> (b <? c)%num = true ->
  (a <? c)%num = true.
Proof.
  unfold gt. destruct a, b, c; simpl; intros Ha H1 H2;
    try discriminate; try congruence; reals_bool; lra.
Qed.

Lemma lt_Fin x y : (Fin x <? Fin y)%num = true <-> (x < y)%R.
Proof. simpl. apply Rltb_true. Qed.

End Order.

Section Accumulate.

Lemma add_NaN_l a : (NaN + a)%num = NaN.
Proof. reflexivity. Qed.

Lemma add_NaN_r a : (a + NaN)%num = NaN.
Proof. destruct a; reflexivity. Qed.

Lemma mul_NaN_r a : (a * NaN)%num = NaN.
Proof. destruct a; reflexivity. Qed.

Lemma real_or_nan_Fin x : real_or_nan (Fin x).
Proof. split; discriminate. Qed.

Lemma real_or_nan_NaN : real_or_nan NaN.
Proof. split; discriminate. Qed.

Lemma add_real_or_nan a b :
  real_or_nan a -> real_or_nan b -> real_or_nan (a + b)%num.
Proof.
  unfold real_or_nan. destruct a, b; simpl; intuition congruence.
Qed.

Lemma mul_real_or_nan a b :
  real_or_nan a -> real_or_nan b -> real_or_nan (a * b)%num.
Proof.
  unfold real_or_nan. destruct a, b; simpl; intuition congruence.
Qed.

(** A sum that meets a [NaN] term, or starts from [NaN], is [NaN]. *)
Lemma fold_add_NaN_acc {A} (g : A -> number) (l : list A) :
  fold_left (fun c i => c + g i)%num l NaN = NaN.
Proof. induction l as [|i l IH]; simpl; [reflexivity | exact IH]. Qed.

Lemma fold_add_NaN_term {A} (g : A -> number) (l : list A) acc i :
  i ∈ l -> g i = NaN -> fold_left (fun c i => c + g i)%num l acc = NaN.
Proof.
  revert acc. induction l as [|j l IH]; intros acc Hin Hg.
  - now apply elem_of_nil in Hin.
  - simpl. apply elem_of_cons in Hin as [<-|Hin].
    + rewrite Hg, add_NaN_r. apply fold_add_NaN_acc.
    + now apply IH.
Qed.

Lemma fold_add_real_or_nan {A} (g : A -> number) (l : list A) acc :
  real_or_nan acc -> (forall i, real_or_nan (g i)) ->
  real_or_nan (fold_left (fun c i => c + g i)%num l acc).
Proof.
  revert acc. induction l as [|j l IH]; intros acc Hacc Hg; simpl.
  - assumption.
  - apply IH; [|assumption]. apply add_real_or_nan; auto.
Qed.

Lemma read_real_or_nan (arr : list number) k :
  Forall real_or_nan arr -> real_or_nan (read arr k).
Proof.
  intros H. unfold read. destruct (k <? 0)%Z; [apply real_or_nan_NaN |].
  destruct (arr !! Z.to_nat k) as [v|] eqn:E; [|apply real_or_nan_NaN].
  eapply Forall_lookup_1; eauto.
Qed.

Lemma correlation_at_real_or_nan buffer lag :
  Forall real_or_nan buffer -> real_or_nan (correlation_at buffer lag).
Proof.
  intros H. unfold correlation_at.
  apply (fold_add_real_or_nan
           (fun i => read buffer i * read buffer (i + lag))%num);
    [apply (real_or_nan_Fin 0) |].
  intros i. apply mul_real_or_nan; now apply read_real_or_nan.
Qed.

(** A lag whose window passes the end of the buffer reads [undefined]
    and its correlation is [NaN]. *)
Lemma correlation_at_short buffer lag :
  (0 <= lag)%Z -> (Z.of_nat (length buffer) < windowSize + lag)%Z ->
  correlation_at buffer lag = NaN.
Proof.
  intros Hlag Hlen. unfold correlation_at.
  apply (fold_add_NaN_term
           (fun i => read buffer i * read buffer (i + lag))%num
           _ _ (windowSize - 1)%Z).
  - apply elem_of_seqZ. unfold windowSize. lia.
  - rewrite (read_out_of_range buffer (windowSize - 1 + lag)) by lia.
    apply mul_NaN_r.
Qed.

Lemma finite_real_or_nan a : finite a -> real_or_nan a.
Proof. intros [x ->]. apply real_or_nan_Fin. Qed.

Lemma read_correlations_real_or_nan buffer minLag maxLag k :
  Forall real_or_nan buffer ->
  real_or_nan (read (correlations_of buffer minLag maxLag) k).
Proof.
  intros H. rewrite read_correlations_of.
  repeat case_decide.
  - now apply correlation_at_real_or_nan.
  - apply (real_or_nan_Fin 0).
  - apply real_or_nan_NaN.
Qed.

End Accumulate.

(* ================================================================== *)
(** ** The peak scan *)
(* ================================================================== *)

Section PeakScan.
Variable correlations : list number.
Implicit Types (lag bestLag : Z) (lags : list Z) (maxCorrelation : number).

Lemma is_peak_true lag :
  is_peak correlations lag = true <->
  (read correlations (lag - 1) <? read correlations lag)%num = true
  /\ (read correlations (lag + 1) <? read correlations lag)%num = true.
Proof. unfold is_peak, gt. apply andb_true_iff. Qed.

(** A candidate and both of its neighbours are slots of the array. *)
Lemma is_peak_in_range lag :
  is_peak correlations lag = true ->
  (1 <= lag /\ lag + 1 < Z.of_nat (length correlations))%Z.
Proof.
  intros H. apply is_peak_true in H as [H1 H2].
  apply lt_not_NaN in H1 as [H1 _]. apply lt_not_NaN in H2 as [H2 _].
  apply read_not_NaN_in_range in H1, H2. lia.
Qed.

Lemma is_peak_not_NaN lag :
  is_peak correlations lag = true -> read correlations lag <> NaN.
Proof.
  intros H. apply is_peak_true in H as [H1 _].
  now apply lt_not_NaN in H1.
Qed.

(** A lag with a [NaN] correlation, or next to one, is no candidate. *)
Lemma is_peak_NaN_false lag :
  read correlations lag = NaN
  \/ read correlations (lag - 1) = NaN
  \/ read correlations (lag + 1) = NaN ->
  is_peak correlations lag = false.
Proof.
  intros H. destruct (is_peak correlations lag) eqn:Hp; [|reflexivity].
  apply is_peak_true in Hp as [H1 H3].
  apply lt_not_NaN in H1 as [? ?]. apply lt_not_NaN in H3 as [? ?].
  destruct H as [H|[H|H]]; congruence.
Qed.

(** The scan either keeps the pair it started with or ends on a
    candidate of the list, with that candidate's correlation. *)
Lemma peak_scan_result lags bestLag maxCorrelation b m :
  peak_scan correlations lags bestLag maxCorrelation = (b, m) ->
  (b = bestLag /\ m = maxCorrelation)
  \/ (b ∈ lags /\ is_peak correlations b = true
      /\ m = read correlations b).
Proof.
  revert bestLag maxCorrelation.
  induction lags as [|lag lags IH]; intros bestLag maxCorrelation;
    cbn [peak_scan].
  - intros [= <- <-]. now left.
  - assert (forall b0 m0,
              ((b = b0 /\ m = m0)
               \/ (b ∈ lags /\ is_peak correlations b = true
                   /\ m = read correlations b)) ->
              ((b0 = bestLag /\ m0 = maxCorrelation)
               \/ (b0 = lag /\ is_peak correlations lag = true
                   /\ m0 = read correlations lag)) ->
              (b = bestLag /\ m = maxCorrelation)
              \/ (b ∈ lag :: lags /\ is_peak correlations b = true
                  /\ m = read correlations b)) as Hstep.
    { intros b0 m0 [[-> ->]|(Hin & Hp & ->)] H0.
      - destruct H0 as [[-> ->]|(-> & Hp & ->)]; [now left |].
        right. split; [apply elem_of_cons; now left | tauto].
      - right. split; [apply elem_of_cons; now right | tauto]. }
    destruct (is_peak correlations lag) eqn:Hpeak.
    + destruct (read correlations lag >? maxCorrelation)%num;
        destruct (read correlations lag >? Fin 0.9 * read correlations 0)%num;
        intros H.
      * injection H as <- <-. apply (Hstep lag (read correlations lag));
          [now left | right; tauto].
      * apply IH in H. apply (Hstep lag (read correlations lag));
          [assumption | right; tauto].
      * injection H as <- <-. apply (Hstep bestLag maxCorrelation);
          [now left | now left].
      * apply IH in H. apply (Hstep bestLag maxCorrelation);
          [assumption | now left].
    + intros H. apply IH in H.
      apply (Hstep bestLag maxCorrelation); [assumption | now left].
Qed.

(** Without a candidate among the lags the scan changes nothing. *)
Lemma peak_scan_no_peak lags bestLag maxCorrelation :
  (forall lag, lag ∈ lags -> is_peak correlations lag = false) ->
  peak_scan correlations lags bestLag maxCorrelation
  = (bestLag, maxCorrelation).
Proof.
  induction lags as [|lag lags IH]; intros H; cbn [peak_scan];
    [reflexivity |].
  rewrite (H lag) by (apply elem_of_cons; now left).
  apply IH. intros l Hl. apply H, elem_of_cons. now right.
Qed.

(** Lags at which the scan does not stop can be scanned first. *)
Lemma peak_scan_app pre rest bestLag maxCorrelation :
  (forall lag, lag ∈ pre -> stops_scan correlations lag = false) ->
  peak_scan correlations (pre ++ rest) bestLag maxCorrelation
  = peak_scan correlations rest
      (peak_scan correlations pre bestLag maxCorrelation).1
      (peak_scan correlations pre bestLag maxCorrelation).2.
Proof.
  revert bestLag maxCorrelation.
  induction pre as [|lag pre IH]; intros bestLag maxCorrelation H;
    [reflexivity |].
  assert (forall l, l ∈ pre -> stops_scan correlations l = false) as H'
    by (intros l Hl; apply H, elem_of_cons; now right).
  pose proof (H lag ltac:(apply elem_of_cons; now left)) as Hlag.
  unfold stops_scan, exit_threshold in Hlag.
  cbn [app peak_scan].
  destruct (is_peak correlations lag); [|now apply IH].
  cbn [andb] in Hlag. rewrite Hlag.
  destruct (read correlations lag >? maxCorrelation)%num; now apply IH.
Qed.

Lemma below_exit_exceeded maxCorrelation a :
  below_exit correlations maxCorrelation ->
  (a >? exit_threshold correlations)%num = true ->
  (a >? maxCorrelation)%num = true.
Proof.
  intros [->|[Hn Hle]] Ha; unfold gt in *.
  - apply lt_NInf_l.
    + now apply lt_not_NaN in Ha.
    + intros ->. now rewrite lt_NInf_r in Ha.
  - now apply lt_le_trans with (exit_threshold correlations).
Qed.

Lemma peak_scan_below_exit pre bestLag maxCorrelation :
  (forall lag, lag ∈ pre -> stops_scan correlations lag = false) ->
  below_exit correlations maxCorrelation ->
  below_exit correlations
    (peak_scan correlations pre bestLag maxCorrelation).2.
Proof.
  revert bestLag maxCorrelation.
  induction pre as [|lag pre IH]; intros bestLag maxCorrelation H Hm;
    [assumption |].
  assert (forall l, l ∈ pre -> stops_scan correlations l = false) as H'
    by (intros l Hl; apply H, elem_of_cons; now right).
  pose proof (H lag ltac:(apply elem_of_cons; now left)) as Hlag.
  unfold stops_scan, exit_threshold in Hlag.
  cbn [peak_scan].
  destruct (is_peak correlations lag) eqn:Hpeak; [|now apply IH].
  cbn [andb] in Hlag. rewrite Hlag.
  destruct (read correlations lag >? maxCorrelation)%num;
    apply IH; try assumption.
  right. split; [now apply is_peak_not_NaN | exact Hlag].
Qed.

(** The scan ends on the first candidate that exceeds the exit
    threshold, and that candidate is [bestLag]. *)
Lemma peak_scan_first_exit pre lag post bestLag maxCorrelation :
  (forall l, l ∈ pre -> stops_scan correlations l = false) ->
  stops_scan correlations lag = true ->
  below_exit correlations maxCorrelation ->
  peak_scan correlations (pre ++ lag :: post) bestLag maxCorrelation
  = (lag, read correlations lag).
Proof.
  intros Hpre Hlag Hm. rewrite peak_scan_app by assumption.
  pose proof (peak_scan_below_exit pre bestLag maxCorrelation Hpre Hm) as Hb.
  unfold stops_scan in Hlag. apply andb_true_iff in Hlag as [Hp Hx].
  cbn [peak_scan]. rewrite Hp.
  rewrite (below_exit_exceeded _ _ Hb Hx).
  unfold exit_threshold in Hx. now rewrite Hx.
Qed.

End PeakScan.

(* ================================================================== *)
(** ** Lag bounds and the search after the gate *)
(* ================================================================== *)

Section Search.
Local Open Scope R_scope.
Implicit Types (buffer : list number) (sampleRate : R).

Lemma minLag_of_nonneg sampleRate : 0 < sampleRate -> (0 <= minLag_of sampleRate)%Z.
Proof.
  intros H. apply floorZ_ge. unfold MAX_FREQUENCY.
  apply Rlt_le, Rdiv_lt_0_compat; lra.
Qed.

Lemma maxLag_of_nonneg sampleRate : 0 < sampleRate -> (0 <= maxLag_of sampleRate)%Z.
Proof.
  intros H. apply floorZ_ge. unfold MIN_FREQUENCY.
  apply Rlt_le, Rdiv_lt_0_compat; lra.
Qed.

Lemma minLag_of_pos sampleRate :
  MAX_FREQUENCY <= sampleRate -> (1 <= minLag_of sampleRate)%Z.
Proof.
  unfold MAX_FREQUENCY. intros H. apply floorZ_ge.
  apply Rmult_le_reg_r with 1000; [lra |].
  unfold Rdiv. rewrite Rmult_assoc, Rinv_l by lra. lra.
Qed.


Lemma new_Float32Array_ok len :
  (0 <= len <= MAX_SAFE_INTEGER)%Z ->
  new_Float32Array len = Normal (replicate (Z.to_nat len) (Fin 0)).
Proof.
  intros H. unfold new_Float32Array.
  destruct (Z.ltb_spec len 0); [lia |].
  destruct (Z.ltb_spec MAX_SAFE_INTEGER len); [lia |]. reflexivity.
Qed.

Lemma new_Float32Array_too_long len :
  (MAX_SAFE_INTEGER < len)%Z -> new_Float32Array len = ThrowRangeError.
Proof.
  intros H. unfold new_Float32Array.
  destruct (Z.ltb_spec MAX_SAFE_INTEGER len); [|lia].
  now rewrite orb_true_r.
Qed.

(** The search once the array is constructed. *)
Lemma autocorrelate_search_eq buffer sampleRate :
  allocatable sampleRate ->
  autocorrelate_search buffer sampleRate =
  let correlations :=
    correlations_of buffer (minLag_of sampleRate) (maxLag_of sampleRate) in
  let scan :=
    peak_scan correlations
      (lag_range (minLag_of sampleRate) (maxLag_of sampleRate)) (-1) NInf in
  if (scan.1 =? -1)%Z || (scan.2 <? Fin 0.01)%num
  then Normal (Fin (-1))
  else Normal (Fin sampleRate
               / refine_lag correlations scan.1 (maxLag_of sampleRate))%num.
Proof.
  intros [Hpos Hmax]. unfold autocorrelate_search.
  fold (minLag_of sampleRate). fold (maxLag_of sampleRate).
  pose proof (maxLag_of_nonneg sampleRate Hpos).
  rewrite new_Float32Array_ok by lia.
  cbn [mbind completion_bind].
  fold (zeros (maxLag_of sampleRate)).
  fold (correlations_of buffer (minLag_of sampleRate) (maxLag_of sampleRate)).
  cbv zeta.
  destruct (peak_scan _ _ _ _) as [bestLag maxCorrelation]. reflexivity.
Qed.

Lemma autocorrelate_gate_open buffer sampleRate :
  (rms buffer <? Fin MIN_RMS_THRESHOLD)%num = false ->
  autocorrelate buffer (Fin sampleRate) = autocorrelate_search buffer sampleRate.
Proof. intros H. unfold autocorrelate. now rewrite H. Qed.

Lemma autocorrelate_gate_closed buffer (sampleRate : number) :
  (rms buffer <? Fin MIN_RMS_THRESHOLD)%num = true ->
  autocorrelate buffer sampleRate = Normal (Fin (-1)).
Proof. intros H. unfold autocorrelate. now rewrite H. Qed.

End Search.

(* ================================================================== *)
(** ** Parabolic refinement *)
(* ================================================================== *)

Section Refinement.
Local Open Scope R_scope.
Implicit Types (correlations : list number) (bestLag maxLag : Z).

Lemma parabola_vertex_near bestLag y1 y2 y3 :
  y1 < y2 -> y3 < y2 ->
  (y1 + y3 - 2 * y2) / 2 < 0
  /\ Rabs (((y3 - y1) / 2) / (2 * ((y1 + y3 - 2 * y2) / 2))) < / 2
  /\ IZR bestLag - / 2 < parabola_vertex bestLag y1 y2 y3 < IZR bestLag + / 2.
Proof.
  intros H1 H3. unfold parabola_vertex.
  set (a := (y1 + y3 - 2 * y2) / 2). set (b := (y3 - y1) / 2).
  assert (Ha : a < 0) by (unfold a; lra).
  split; [exact Ha |].
  set (t := b / (2 * a)).
  assert (Ht : t * (2 * a) = b) by (unfold t; field; lra).
  assert (Hlo : - / 2 < t).
  { destruct (Rlt_dec (- / 2) t) as [|Hn]; [assumption | exfalso].
    assert (t <= - / 2) by lra.
    assert (- / 2 * (2 * a) <= t * (2 * a)) by nra.
    unfold a, b in *. lra. }
  assert (Hhi : t < / 2).
  { destruct (Rlt_dec t (/ 2)) as [|Hn]; [assumption | exfalso].
    assert (/ 2 <= t) by lra.
    assert (t * (2 * a) <= / 2 * (2 * a)) by nra.
    unfold a, b in *. lra. }
  split; [apply Rabs_def1; lra | lra].
Qed.

(** Refinement at a lag whose three correlations are reals, the middle
    one the largest. *)
Lemma refine_lag_real correlations bestLag maxLag y1 y2 y3 :
  (0 < bestLag < maxLag)%Z ->
  read correlations (bestLag - 1) = Fin y1 ->
  read correlations bestLag = Fin y2 ->
  read correlations (bestLag + 1) = Fin y3 ->
  y1 < y2 -> y3 < y2 ->
  refine_lag correlations bestLag maxLag
  = Fin (parabola_vertex bestLag y1 y2 y3).
Proof.
  intros Hb E1 E2 E3 H1 H3. unfold refine_lag.
  destruct (Z.ltb_spec 0 bestLag); [|lia].
  destruct (Z.ltb_spec bestLag maxLag); [|lia].
  cbn [andb]. rewrite E1, E2, E3. cbv zeta.
  cbn [add sub neg mul].
  rewrite !div_Fin_nonzero by lra.
  cbn [strict_neq].
  replace (Reqb ((y1 + y3 + - (2 * y2)) / 2) 0) with false
    by (symmetry; apply Reqb_false; lra).
  cbn [negb mul]. unfold ofZ. cbn [sub add neg]. reflexivity.
Qed.

Lemma Rsign_2 : Rsign 2 = Gt.
Proof. apply Rsign_pos. lra. Qed.

Lemma Rltb_2_0 : Rltb 2 0 = false.
Proof. apply Rltb_false. lra. Qed.

Lemma Reqb_2_0 : Reqb 2 0 = false.
Proof. apply Reqb_false. lra. Qed.

(** Refinement at a candidate: [NaN], or a real within half a sample
    of [bestLag]. *)
Lemma refine_lag_peak correlations bestLag maxLag :
  is_peak correlations bestLag = true ->
  (0 < bestLag < maxLag)%Z ->
  refine_lag correlations bestLag maxLag = NaN
  \/ exists r, refine_lag correlations bestLag maxLag = Fin r
               /\ IZR bestLag - / 2 < r < IZR bestLag + / 2.
Proof.
  intros Hp Hb. apply is_peak_true in Hp as [H1 H3].
  destruct (read correlations (bestLag - 1)) as [y1| | |] eqn:E1;
    destruct (read correlations bestLag) as [y2| | |] eqn:E2;
    try discriminate H1;
    destruct (read correlations (bestLag + 1)) as [y3| | |] eqn:E3;
    try discriminate H3.
  1: { right. exists (parabola_vertex bestLag y1 y2 y3).
       apply lt_Fin in H1, H3.
       split; [now apply refine_lag_real |].
       now apply parabola_vertex_near. }
  all: unfold refine_lag;
    destruct (Z.ltb_spec 0 bestLag); [|lia];
    destruct (Z.ltb_spec bestLag maxLag); [|lia];
    cbn [andb]; rewrite E1, E2, E3; cbv zeta;
    repeat (progress cbn [add sub neg mul div signed_inf CompOpp
                          strict_neq ofZ negb]
            || rewrite Rsign_2 || rewrite Rltb_2_0 || rewrite Reqb_2_0);
    try (left; reflexivity);
    right; eexists; (split; [reflexivity | lra]).
Qed.

End Refinement.

Section Embedding.
Local Open Scope R_scope.

Lemma Rsign_IZR z : Rsign (IZR z) = (z ?= 0)%Z.
Proof.
  destruct (Z.compare_spec z 0) as [->|H|H].
  - apply Rsign_zero.
  - apply Rsign_neg. now apply IZR_lt in H.
  - apply Rsign_pos. now apply IZR_lt in H.
Qed.

Lemma embed_isigned_inf c : embed (isigned_inf c) = signed_inf c.
Proof. now destruct c. Qed.

Lemma embed_iadd a b : embed (iadd a b) = (embed a + embed b)%num.
Proof. destruct a, b; simpl; try reflexivity. now rewrite plus_IZR. Qed.

Lemma embed_imul a b : embed (imul a b) = (embed a * embed b)%num.
Proof.
  destruct a, b; simpl; rewrite ?Rsign_IZR, ?embed_isigned_inf;
    try reflexivity.
  now rewrite mult_IZR.
Qed.

Lemma Rltb_IZR x y : Rltb (IZR x) (IZR y) = (x <? y)%Z.
Proof.
  destruct (Z.ltb_spec x y) as [H|H].
  - apply Rltb_true. now apply IZR_lt.
  - apply Rltb_false. now apply IZR_le.
Qed.

Lemma lt_embed a b : (embed a <? embed b)%num = ilt a b.
Proof. destruct a, b; simpl; try reflexivity. apply Rltb_IZR. Qed.

Lemma lt_exit_embed c0 c :
  (Fin 0.9 * embed c0 <? embed c)%num = ilt_exit c0 c.
Proof.
  assert (Rsign 0.9 = Gt) as Hs by (apply Rsign_pos; lra).
  destruct c0 as [z0| | |], c as [z| | |]; simpl; rewrite ?Hs;
    try reflexivity.
  destruct (Z.ltb_spec (9 * z0) (10 * z)) as [H|H].
  - apply Rltb_true. apply IZR_lt in H.
    rewrite !mult_IZR in H. lra.
  - apply Rltb_false. apply IZR_le in H.
    rewrite !mult_IZR in H. lra.
Qed.

Lemma read_embed arr k : read (embed <$> arr) k = embed (iread arr k).
Proof.
  unfold read, iread. destruct (k <? 0)%Z; [reflexivity |].
  rewrite list_lookup_fmap. now destruct (arr !! Z.to_nat k).
Qed.

Lemma write_embed arr k v :
  write (embed <$> arr) k (embed v) = embed <$> iwrite arr k v.
Proof.
  unfold write, iwrite. destruct (k <? 0)%Z; [reflexivity |].
  now rewrite list_fmap_insert.
Qed.

Lemma sumSquares_embed buffer :
  sumSquares (embed <$> buffer) = embed (isumSquares buffer).
Proof.
  unfold sumSquares, isumSquares.
  change (Fin 0) with (embed (IFin 0)). generalize (IFin 0) as acc.
  induction buffer as [|x buffer IH]; intros acc; [reflexivity |].
  cbn [fmap list_fmap fold_left].
  rewrite <- embed_imul, <- embed_iadd. apply IH.
Qed.

Lemma fold_correlation_embed buffer lag (l : list Z) acc :
  fold_left (fun correlation i =>
               correlation
               + read (embed <$> buffer) i * read (embed <$> buffer) (i + lag))%num
            l (embed acc)
  = embed (fold_left
             (fun correlation i =>
                iadd correlation
                     (imul (iread buffer i) (iread buffer (i + lag))))
             l acc).
Proof.
  revert acc. induction l as [|i l IH]; intros acc; [reflexivity |].
  cbn [fold_left].
  rewrite !read_embed, <- embed_imul, <- embed_iadd. apply IH.
Qed.

Lemma correlation_at_embed buffer lag :
  correlation_at (embed <$> buffer) lag = embed (icorrelation_at buffer lag).
Proof.
  unfold correlation_at, icorrelation_at.
  apply (fold_correlation_embed buffer lag (seqZ 0 windowSize) (IFin 0)).
Qed.

Lemma fold_write_embed buffer (l : list Z) arr :
  fold_left (fun cs lag => write cs lag (correlation_at (embed <$> buffer) lag))
            l (embed <$> arr)
  = embed <$> fold_left
                (fun cs lag => iwrite cs lag (icorrelation_at buffer lag))
                l arr.
Proof.
  revert arr. induction l as [|lag l IH]; intros arr; [reflexivity |].
  cbn [fold_left].
  rewrite correlation_at_embed, write_embed. apply IH.
Qed.

Lemma correlations_of_embed buffer minLag maxLag :
  correlations_of (embed <$> buffer) minLag maxLag
  = embed <$> icorrelations_of buffer minLag maxLag.
Proof.
  unfold correlations_of, compute_correlations, icorrelations_of, zeros.
  rewrite <- fold_write_embed. f_equal.
  now rewrite fmap_replicate.
Qed.

Lemma is_peak_embed arr lag : is_peak (embed <$> arr) lag = iis_peak arr lag.
Proof.
  unfold is_peak, iis_peak, gt. now rewrite !read_embed, !lt_embed.
Qed.

Lemma peak_scan_embed arr lags bestLag m :
  peak_scan (embed <$> arr) lags bestLag (embed m)
  = ((ipeak_scan arr lags bestLag m).1,
     embed (ipeak_scan arr lags bestLag m).2).
Proof.
  revert bestLag m. induction lags as [|lag lags IH]; intros bestLag m;
    [reflexivity |].
  cbn [peak_scan ipeak_scan].
  rewrite is_peak_embed. unfold gt.
  rewrite !read_embed, lt_embed, lt_exit_embed.
  destruct (iis_peak arr lag); [|apply IH].
  destruct (ilt m (iread arr lag));
    destruct (ilt_exit (iread arr 0) (iread arr lag));
    try reflexivity; apply IH.
Qed.

End Embedding.

Section Fast.

Lemma iread_drop (b : list inum) (s : nat) :
  iread b (Z.of_nat s) = ihead (drop s b).
Proof.
  unfold iread. destruct (Z.ltb_spec (Z.of_nat s) 0); [lia |].
  rewrite Nat2Z.id. revert s H.
  induction b as [|x b IH]; intros [|s] H; try reflexivity.
  cbn [drop]. rewrite <- IH by lia. reflexivity.
Qed.

Lemma tail_drop {A} (l : list A) (s : nat) : tail (drop s l) = drop (S s) l.
Proof.
  revert s. induction l as [|x l IH]; intros [|s]; try reflexivity.
  cbn [drop]. rewrite IH. reflexivity.
Qed.

Lemma fold_seqZ_idot (b : list inum) (lag : nat) (n s : nat) acc :
  fold_left (fun c i =>
               iadd c (imul (iread b i) (iread b (i + Z.of_nat lag))))
            (seqZ (Z.of_nat s) (Z.of_nat n)) acc
  = idot n (drop s b) (drop (s + lag) b) acc.
Proof.
  revert s acc. induction n as [|n IH]; intros s acc; [reflexivity |].
  rewrite seqZ_cons by lia. cbn [fold_left idot].
  replace (Z.succ (Z.of_nat s)) with (Z.of_nat (S s)) by lia.
  replace (Z.pred (Z.of_nat (S n))) with (Z.of_nat n) by lia.
  rewrite IH, !tail_drop.
  replace (Z.of_nat s + Z.of_nat lag)%Z with (Z.of_nat (s + lag)) by lia.
  rewrite !iread_drop. reflexivity.
Qed.

Lemma icorrelation_at_fast (b : list inum) (lag : Z) :
  (0 <= lag)%Z ->
  icorrelation_at b lag
  = idot (Z.to_nat windowSize) b (drop (Z.to_nat lag) b) (IFin 0).
Proof.
  intros H. unfold icorrelation_at.
  pose proof (fold_seqZ_idot b (Z.to_nat lag) (Z.to_nat windowSize) 0 (IFin 0))
    as X.
  rewrite Z2Nat.id in X by assumption.
  rewrite Z2Nat.id in X by (unfold windowSize; lia).
  exact X.
Qed.

Lemma icorrelations_of_fast (b : list inum) (minLag maxLag : Z) :
  (0 <= minLag)%Z ->
  icorrelations_of b minLag maxLag = icorrelations_fast b minLag maxLag.
Proof.
  intros H. unfold icorrelations_of, icorrelations_fast.
  assert (Forall (fun lag => 0 <= lag)%Z (lag_range minLag maxLag)) as Hl.
  { apply Forall_forall. intros lag Hlag.
    apply elem_of_lag_range in Hlag. lia. }
  revert Hl. generalize (replicate (Z.to_nat (maxLag + 1)) (IFin 0)) as arr.
  induction (lag_range minLag maxLag) as [|lag l IH]; intros arr Hl;
    [reflexivity |].
  apply Forall_cons in Hl as [Hlag Hl]. cbn [fold_left].
  rewrite icorrelation_at_fast by assumption. now apply IH.
Qed.

End Fast.

(* ================================================================== *)
(** ** The RMS gate *)
(* ================================================================== *)

Section Gate.
Local Open Scope R_scope.
Implicit Types buffer : list number.

Lemma MIN_RMS_THRESHOLD_sq : MIN_RMS_THRESHOLD * MIN_RMS_THRESHOLD = 0.000025.
Proof. unfold MIN_RMS_THRESHOLD. lra. Qed.

(** The RMS of a nonempty buffer with a real, non-negative sum of
    squares. *)
Lemma rms_real buffer x :
  sumSquares buffer = Fin x -> 0 <= x -> buffer <> [] ->
  rms buffer = Fin (sqrt (x / INR (length buffer))).
Proof.
  intros E Hx Hne. unfold rms, ofNat. rewrite E.
  assert (0 < INR (length buffer)).
  { apply lt_0_INR. destruct buffer; [contradiction | simpl; lia]. }
  rewrite div_Fin_nonzero by lra. cbn [Math_sqrt].
  replace (Rltb (x / INR (length buffer)) 0) with false; [reflexivity |].
  symmetry. apply Rltb_false. apply Rmult_le_pos; [lra |].
  apply Rlt_le. now apply Rinv_0_lt_compat.
Qed.

(** The gate compares the mean square with the squared threshold. *)
Lemma sqrt_lt_threshold q :
  0 <= q -> (sqrt q < MIN_RMS_THRESHOLD <-> q < 0.000025).
Proof.
  intros Hq. rewrite <- MIN_RMS_THRESHOLD_sq.
  assert (0 <= MIN_RMS_THRESHOLD) by (unfold MIN_RMS_THRESHOLD; lra).
  rewrite <- (sqrt_square MIN_RMS_THRESHOLD) at 1 by assumption.
  split; intros Hlt.
  - apply sqrt_lt_0_alt in Hlt. exact Hlt.
  - apply sqrt_lt_1_alt. lra.
Qed.

Lemma sumSquares_zeros buffer :
  Forall (fun x => x = Fin 0) buffer -> sumSquares buffer = Fin 0.
Proof.
  unfold sumSquares. intros H.
  induction H as [|x buffer -> _ IH]; [reflexivity |].
  cbn [fold_left add mul].
  replace (0 + 0 * 0) with 0 by lra. exact IH.
Qed.

Lemma rms_zeros buffer :
  Forall (fun x => x = Fin 0) buffer -> buffer <> [] -> rms buffer = Fin 0.
Proof.
  intros H Hne. rewrite (rms_real buffer 0); [| now apply sumSquares_zeros | lra | assumption].
  unfold Rdiv. rewrite Rmult_0_l, sqrt_0. reflexivity.
Qed.

Lemma rms_empty : rms [] = NaN.
Proof.
  unfold rms, sumSquares, ofNat. cbn [fold_left length INR div].
  replace (Reqb 0 0) with true by (symmetry; now apply Reqb_true).
  rewrite Rsign_zero. reflexivity.
Qed.

End Gate.

(* ================================================================== *)
(** ** Evaluating [autocorrelate] on integer-valued samples *)
(* ================================================================== *)

Section Evaluate.
Local Open Scope R_scope.

Lemma below_floor_embed m : (embed m <? Fin 0.01)%num = ibelow_floor m.
Proof.
  destruct m as [z| | |]; simpl; try reflexivity.
  destruct (Z.leb_spec z 0) as [H|H].
  - apply Rltb_true. apply IZR_le in H. lra.
  - apply Rltb_false. assert (1 <= z)%Z as H' by lia.
    apply IZR_le in H'. lra.
Qed.

Lemma gate_embed (buffer : list inum) :
  (0 < length buffer)%nat ->
  (rms (embed <$> buffer) <? Fin MIN_RMS_THRESHOLD)%num
  = igate_closed (isumSquares buffer) (length buffer).
Proof.
  intros Hn. unfold rms. rewrite sumSquares_embed, length_fmap.
  assert (0 < INR (length buffer)) as Hlen by now apply lt_0_INR.
  assert (INR (length buffer) = IZR (Z.of_nat (length buffer))) as Hinr
    by apply INR_IZR_INZ.
  unfold ofNat.
  destruct (isumSquares buffer) as [z| | |]; cbn [embed igate_closed].
  - rewrite div_Fin_nonzero by lra. cbn [Math_sqrt].
    replace (0 <? length buffer)%nat with true
      by (symmetry; now apply Nat.ltb_lt).
    cbn [andb].
    destruct (Z.leb_spec 0 z) as [Hz|Hz]; cbn [andb].
    + apply IZR_le in Hz.
      assert (0 <= IZR z / INR (length buffer)) as Hq.
      { apply Rmult_le_pos; [lra |]. apply Rlt_le.
        now apply Rinv_0_lt_compat. }
      replace (Rltb (IZR z / INR (length buffer)) 0) with false
        by (symmetry; now apply Rltb_false).
      cbn [lt].
      destruct (Z.ltb_spec (1000000 * z) (25 * Z.of_nat (length buffer)))
        as [H|H].
      * apply Rltb_true, sqrt_lt_threshold; [assumption |].
        apply IZR_lt in H. rewrite !mult_IZR, <- Hinr in H.
        apply Rmult_lt_reg_r with (INR (length buffer)); [assumption |].
        unfold Rdiv. rewrite Rmult_assoc, Rinv_l by lra. lra.
      * apply Rltb_false.
        destruct (Rlt_dec (sqrt (IZR z / INR (length buffer)))
                    MIN_RMS_THRESHOLD) as [Hlt|]; [|lra].
        apply sqrt_lt_threshold in Hlt; [|assumption].
        apply IZR_le in H. rewrite !mult_IZR, <- Hinr in H.
        apply Rmult_lt_compat_r with (r := INR (length buffer)) in Hlt;
          [|assumption].
        unfold Rdiv in Hlt. rewrite Rmult_assoc, Rinv_l in Hlt by lra. lra.
    + apply IZR_lt in Hz.
      replace (Rltb (IZR z / INR (length buffer)) 0) with true; [reflexivity |].
      symmetry. apply Rltb_true.
      apply Rmult_lt_reg_r with (INR (length buffer)); [assumption |].
      unfold Rdiv. rewrite Rmult_assoc, Rinv_l by lra. lra.
  - cbn [div]. replace (Rltb (INR (length buffer)) 0) with false
      by (symmetry; apply Rltb_false; lra).
    reflexivity.
  - cbn [div]. replace (Rltb (INR (length buffer)) 0) with false
      by (symmetry; apply Rltb_false; lra).
    reflexivity.
  - reflexivity.
Qed.

(** [autocorrelate] on integer-valued samples, from the integer
    evaluation of the gate and of the scan. *)
Lemma autocorrelate_embed (buffer : list inum) (sampleRate : R)
    (minLag maxLag bestLag : Z) (m : inum) :
  allocatable sampleRate ->
  minLag_of sampleRate = minLag -> maxLag_of sampleRate = maxLag ->
  (0 < length buffer)%nat ->
  igate_closed (isumSquares buffer) (length buffer) = false ->
  ipeak_scan (icorrelations_fast buffer minLag maxLag)
             (lag_range minLag maxLag) (-1) INInf = (bestLag, m) ->
  autocorrelate (embed <$> buffer) (Fin sampleRate)
  = if (bestLag =? -1)%Z || ibelow_floor m
    then Normal (Fin (-1))
    else Normal (Fin sampleRate
                 / refine_lag (embed <$> icorrelations_fast buffer minLag maxLag)
                              bestLag maxLag)%num.
Proof.
  intros Ha Hmin Hmax Hn Hgate Hscan.
  rewrite autocorrelate_gate_open by (rewrite gate_embed; assumption).
  rewrite autocorrelate_search_eq by assumption. cbv zeta.
  rewrite Hmin, Hmax, correlations_of_embed.
  rewrite icorrelations_of_fast
    by (rewrite <- Hmin; apply minLag_of_nonneg, Ha).
  change NInf with (embed INInf).
  rewrite peak_scan_embed, Hscan. cbn [fst snd].
  rewrite below_floor_embed. reflexivity.
Qed.

End Evaluate.

(* ================================================================== *)
(** ** The frames at 44100 Hz *)
(* ================================================================== *)

Section Frames.
Local Open Scope R_scope.

Lemma minLag_of_44100 : minLag_of 44100 = 44%Z.
Proof.
  apply floorZ_spec. unfold MAX_FREQUENCY. lra.
Qed.

Lemma maxLag_of_44100 : maxLag_of 44100 = 678%Z.
Proof.
  apply floorZ_spec. unfold MIN_FREQUENCY. lra.
Qed.

Lemma allocatable_44100 : allocatable 44100.
Proof.
  split; [lra |]. rewrite maxLag_of_44100. now vm_compute.
Qed.

(** Refinement on integer-valued correlations. *)
Lemma refine_lag_embed (arr : list inum) (bestLag maxLag z1 z2 z3 : Z) :
  (0 < bestLag < maxLag)%Z ->
  iread arr (bestLag - 1) = IFin z1 ->
  iread arr bestLag = IFin z2 ->
  iread arr (bestLag + 1) = IFin z3 ->
  (z1 < z2)%Z -> (z3 < z2)%Z ->
  refine_lag (embed <$> arr) bestLag maxLag
  = Fin (parabola_vertex bestLag (IZR z1) (IZR z2) (IZR z3)).
Proof.
  intros Hb E1 E2 E3 H1 H3.
  apply refine_lag_real; try assumption;
    rewrite ?read_embed, ?E1, ?E2, ?E3; try reflexivity;
    now apply IZR_lt.
Qed.

Lemma click_frame_frequency :
  autocorrelate click_frame (Fin 44100) = Normal (Fin 441).
Proof.
  unfold click_frame.
  rewrite (autocorrelate_embed _ 44100 44 678 100 (IFin 1)
             allocatable_44100 minLag_of_44100 maxLag_of_44100);
    [| vm_compute; lia | now vm_compute | now vm_compute].
  cbn [Z.eqb ibelow_floor Z.leb Z.compare orb].
  rewrite (refine_lag_embed _ 100 678 0 1 0);
    [| lia | now vm_compute | now vm_compute | now vm_compute | lia | lia].
  assert (parabola_vertex 100 0 1 0 = 100) as ->
    by (unfold parabola_vertex; field).
  rewrite div_Fin_nonzero by lra. f_equal. f_equal. lra.
Qed.

Lemma low_click_frame_frequency :
  autocorrelate low_click_frame (Fin 44100) = Normal (Fin 220.5).
Proof.
  unfold low_click_frame.
  rewrite (autocorrelate_embed _ 44100 44 678 200 (IFin 1)
             allocatable_44100 minLag_of_44100 maxLag_of_44100);
    [| vm_compute; lia | now vm_compute | now vm_compute].
  cbn [Z.eqb ibelow_floor Z.leb Z.compare orb].
  rewrite (refine_lag_embed _ 200 678 0 1 0);
    [| lia | now vm_compute | now vm_compute | now vm_compute | lia | lia].
  assert (parabola_vertex 200 0 1 0 = 200) as ->
    by (unfold parabola_vertex; field).
  rewrite div_Fin_nonzero by lra. f_equal. f_equal. lra.
Qed.

End Frames.

(* ================================================================== *)
(** ** Claims on the note table and the note resolver *)
(* ================================================================== *)

Section TableClaims.
Local Open Scope R_scope.



End TableClaims.

Section ResolverClaims.
Local Open Scope R_scope.

Lemma log2_mult x y : 0 < x -> 0 < y -> log2 (x * y) = log2 x + log2 y.
Proof.
  intros Hx Hy. unfold log2. rewrite ln_mult by assumption.
  pose proof ln2_pos. field. lra.
Qed.

Lemma log2_pow_lt_2 x : 0 < x -> x ^ 24 < 2 -> log2 x < / 24.
Proof.
  intros Hx H. pose proof ln2_pos as H2.
  assert (ln (x ^ 24) < ln 2) as Hln
    by (apply ln_increasing; [now apply pow_lt | assumption]).
  rewrite ln_pow in Hln by assumption.
  rewrite INR_IZR_INZ in Hln. change (IZR (Z.of_nat 24)) with 24 in Hln.
  unfold log2.
  apply Rmult_lt_reg_r with (ln 2); [assumption |].
  unfold Rdiv. rewrite Rmult_assoc, Rinv_l by lra. lra.
Qed.

(** A frequency from a table frequency up to less than a quarter tone
    above it resolves to that element. *)
Lemma closest_index_within k f :
  note_frequency k <= f -> (f / note_frequency k) ^ 24 < 2 ->
  closest_index f = k.
Proof.
  intros Hlo Hhi. pose proof (note_frequency_pos k) as Hk.
  set (x := f / note_frequency k) in *.
  assert (1 <= x) as Hx1.
  { unfold x. apply Rmult_le_reg_r with (note_frequency k); [assumption |].
    unfold Rdiv. rewrite Rmult_assoc, Rinv_l by lra. lra. }
  unfold closest_index.
  assert (f / 440 = Rpower 2 ((IZR k - 57) / 12) * x) as ->.
  { unfold x, note_frequency, Math_pow in *.
    assert (0 < Rpower 2 ((IZR k - 57) / 12)) by apply exp_pos.
    field; repeat split; lra. }
  rewrite log2_mult by (try apply exp_pos; lra).
  rewrite log2_Rpower.
  assert (0 <= log2 x) as Hl0.
  { destruct (Req_dec_T x 1) as [->|Hne]; [rewrite log2_1; lra |].
    apply Rlt_le, log2_pos_iff; lra. }
  assert (log2 x < / 24) as Hl1 by (apply log2_pow_lt_2; lra).
  unfold roundZ. rewrite (floorZ_spec _ (k - 57)); [lia |].
  rewrite minus_IZR. lra.
Qed.



(** C7.  For positive frequencies [calculateCents] is
    [1200 * log2(detected / target)], without clamping: positive exactly
    when the detected frequency is above the target, negative exactly
    when it is below, and zero on equal frequencies. *)
Theorem cents_sign_convention (detected target : R) :
  0 < detected -> 0 < target ->
  calculateCents (Fin detected) (Fin target)
  = Fin (1200 * log2 (detected / target))
  /\ (0 < 1200 * log2 (detected / target) <-> target < detected)
  /\ (1200 * log2 (detected / target) < 0 <-> detected < target)
  /\ calculateCents (Fin detected) (Fin detected) = Fin 0.
Proof.
  intros Hd Ht.
  assert (0 < detected / target) as Hq by now apply Rdiv_lt_0_compat.
  assert (1 < detected / target <-> target < detected) as Hgt.
  { split; intros H.
    - apply Rmult_lt_compat_r with (r := target) in H; [|assumption].
      unfold Rdiv in H. rewrite Rmult_assoc, Rinv_l in H by lra. lra.
    - apply Rmult_lt_reg_r with target; [assumption |].
      unfold Rdiv. rewrite Rmult_assoc, Rinv_l by lra. lra. }
  assert (detected / target < 1 <-> detected < target) as Hlt.
  { split; intros H.
    - apply Rmult_lt_compat_r with (r := target) in H; [|assumption].
      unfold Rdiv in H. rewrite Rmult_assoc, Rinv_l in H by lra. lra.
    - apply Rmult_lt_reg_r with target; [assumption |].
      unfold Rdiv. rewrite Rmult_assoc, Rinv_l by lra. lra. }
  split; [now apply calculateCents_pos |].
  split; [|split].
  - rewrite <- Hgt, <- (log2_pos_iff _ Hq). lra.
  - rewrite <- Hlt, <- (log2_neg_iff _ Hq). lra.
  - rewrite calculateCents_pos by assumption. f_equal.
    replace (detected / detected) with 1 by (field; lra).
    rewrite log2_1. lra.
Qed.

(** C7 on the three readings of the sign convention: 466.16 Hz against
    440 Hz is sharp, 415.30 Hz is flat, 440 Hz is in tune. *)
Lemma cents_sign_convention_witness :
  (exists c, calculateCents (Fin 466.16) (Fin 440.0) = Fin c /\ 0 < c)
  /\ (exists c, calculateCents (Fin 415.30) (Fin 440.0) = Fin c /\ c < 0)
  /\ calculateCents (Fin 440.0) (Fin 440.0) = Fin 0.
Proof.
  assert (0 < 466.16) as H1 by lra.
  assert (0 < 415.30) as H2 by lra.
  assert (0 < 440.0) as H3 by lra.
  destruct (cents_sign_convention 466.16 440.0 H1 H3) as (E1 & P1 & _ & _).
  destruct (cents_sign_convention 415.30 440.0 H2 H3) as (E2 & _ & N2 & _).
  destruct (cents_sign_convention 440.0 440.0 H3 H3) as (_ & _ & _ & Z3).
  split; [|split].
  - eexists. split; [exact E1 |]. apply P1. lra.
  - eexists. split; [exact E2 |]. apply N2. lra.
  - exact Z3.
Defined.

End ResolverClaims.

(* ================================================================== *)
(** ** Claims on the animation loop *)
(* ================================================================== *)

Section LoopClaims.
Local Open Scope R_scope.

Lemma audioLoop_with_signal st audioBuffer sampleRate handle f :
  analyser st = true -> isListening st = true ->
  autocorrelate audioBuffer sampleRate = Normal f ->
  (f >? Fin 0)%num = true ->
  audioLoop st audioBuffer sampleRate handle
  = target ← match currentMode st, selectedNote st with
              | manual, Some selected => Normal selected
              | _, _ => findClosestNote f
              end;
    Normal (rescheduled st handle,
            [UpdateUI f (note target) (octave target)
                      (calculateCents f (frequency target))]).
Proof.
  intros Ha Hl Ef Hf. destruct st as [a l id m s].
  cbn [analyser isListening currentMode selectedNote] in *. subst a l.
  unfold audioLoop, rescheduled.
  cbn [analyser isListening currentMode selectedNote negb orb].
  rewrite Ef. cbn [mbind completion_bind]. rewrite Hf.
  destruct (match m, s with
            | manual, Some selected => Normal selected
            | _, _ => findClosestNote f
            end) as [[n o t]| |]; reflexivity.
Qed.


(** [audioLoop] never writes [currentMode] or [selectedNote]. *)
Lemma audioLoop_keeps_selection st audioBuffer sampleRate handle st' effects :
  audioLoop st audioBuffer sampleRate handle = Normal (st', effects) ->
  currentMode st' = currentMode st /\ selectedNote st' = selectedNote st.
Proof.
  unfold audioLoop.
  destruct (negb (analyser st) || negb (isListening st)).
  - intros [= <- _]. now split.
  - destruct (autocorrelate audioBuffer sampleRate) as [f| |];
      cbn [mbind completion_bind]; try discriminate.
    destruct (if (f >? Fin 0)%num then _ else _) as [e| |];
      try discriminate.
    intros [= <- _]. now split.
Qed.

(** On a frequency above zero, finite or not, [findClosestNote]
    returns normally. *)
Lemma findClosestNote_of_signal f :
  (f >? Fin 0)%num = true -> exists closest, findClosestNote f = Normal closest.
Proof.
  unfold gt. destruct f as [x| | |]; cbn [lt]; try discriminate.
  - intros H. apply Rltb_true in H.
    rewrite findClosestNote_pos by assumption. now eexists.
  - intros _. unfold findClosestNote. cbn [div].
    replace (Rltb 440 0) with false by (symmetry; apply Rltb_false; lra).
    cbn [Math_log2 mul signed_inf].
    replace (Rsign 12) with Gt by (symmetry; apply Rsign_pos; lra).
    cbn [signed_inf Math_round add lt ge le ofNat orb]. now eexists.
Qed.

(** C1, as the program has it.  Listening in manual mode with nothing
    selected, a frame with a signal is handled as in auto mode: the
    loop resolves the nearest note of the detected frequency and calls
    [updateUI] with it; it writes no status. *)
Theorem manual_without_target_falls_back st audioBuffer sampleRate handle f :
  analyser st = true -> isListening st = true ->
  currentMode st = manual -> selectedNote st = None ->
  autocorrelate audioBuffer sampleRate = Normal f ->
  (f >? Fin 0)%num = true ->
  exists closest,
    findClosestNote f = Normal closest
    /\ audioLoop st audioBuffer sampleRate handle
       = Normal (rescheduled st handle,
                 [UpdateUI f (note closest) (octave closest)
                           (calculateCents f (frequency closest))]).
Proof.
  intros Ha Hl Hm Hs Ef Hf.
  destruct (findClosestNote_of_signal f Hf) as [closest Ec].
  exists closest. split; [exact Ec |].
  rewrite (audioLoop_with_signal st audioBuffer sampleRate handle f)
    by assumption.
  now rewrite Hm, Hs, Ec.
Qed.

Lemma findClosestNote_441 :
  findClosestNote (Fin 441)
  = Normal {| note := "A"; octave := Fin 4; frequency := Fin 440 |}.
Proof.
  rewrite findClosestNote_pos by lra.
  assert (closest_index 441 = 57%Z) as ->
    by (apply closest_index_within; rewrite note_frequency_A4; lra).
  rewrite decide_True by lia.
  change (ofZ (57 / 12)) with (Fin 4). now rewrite note_frequency_A4.
Qed.

(** The amended C1 on the two-click frame at 44100 Hz: the loop shows
    A4 for the 441 Hz it detects. *)
Lemma manual_without_target_falls_back_witness :
  audioLoop manual_without_target click_frame (Fin 44100) 1
  = Normal (rescheduled manual_without_target 1,
            [UpdateUI (Fin 441) "A" (Fin 4)
                      (calculateCents (Fin 441) (Fin 440))]).
Proof.
  assert ((Fin 441 >? Fin 0)%num = true) as Hpos by (apply Rltb_true; lra).
  destruct (manual_without_target_falls_back
              manual_without_target click_frame (Fin 44100) 1 (Fin 441)
              eq_refl eq_refl eq_refl eq_refl click_frame_frequency Hpos)
    as (closest & Ec & Eloop).
  rewrite findClosestNote_441 in Ec. injection Ec as <-. exact Eloop.
Defined.

(** C1 as stated fails: listening in manual mode with nothing selected,
    the two-click frame at 44100 Hz yields a call of [updateUI] for the
    nearest note A4 and no status text. *)
Lemma manual_without_target_counterexample :
  audioLoop manual_without_target click_frame (Fin 44100) 1
  = Normal (rescheduled manual_without_target 1,
            [UpdateUI (Fin 441) "A" (Fin 4)
                      (calculateCents (Fin 441) (Fin 440))])
  /\ audioLoop listening_auto click_frame (Fin 44100) 1
     = Normal (rescheduled listening_auto 1,
               [UpdateUI (Fin 441) "A" (Fin 4)
                         (calculateCents (Fin 441) (Fin 440))]).
Proof.
  assert ((Fin 441 >? Fin 0)%num = true) as Hpos
    by (apply Rltb_true; lra).
  split.
  - rewrite (audioLoop_with_signal _ _ _ _ (Fin 441));
      try reflexivity; try assumption; try apply click_frame_frequency.
    cbn [currentMode selectedNote manual_without_target].
    now rewrite findClosestNote_441.
  - rewrite (audioLoop_with_signal _ _ _ _ (Fin 441));
      try reflexivity; try assumption; try apply click_frame_frequency.
    cbn [currentMode selectedNote listening_auto].
    now rewrite findClosestNote_441.
Qed.

End LoopClaims.

Section ManualTarget.
Local Open Scope R_scope.

Lemma audioLoop_manual_tick st target audioBuffer sampleRate handle st' effects :
  currentMode st = manual -> selectedNote st = Some target ->
  audioLoop st audioBuffer sampleRate handle = Normal (st', effects) ->
  Forall (shows_target target) effects.
Proof.
  intros Hm Hs. unfold audioLoop. rewrite Hm, Hs.
  destruct (negb (analyser st) || negb (isListening st)).
  - intros [= _ <-]. constructor.
  - destruct (autocorrelate audioBuffer sampleRate) as [f| |];
      cbn [mbind completion_bind]; try discriminate.
    destruct (f >? Fin 0)%num; cbn [mbind completion_bind].
    + destruct target as [n o t]. intros [= _ <-].
      repeat constructor.
    + intros [= _ <-]. repeat constructor.
Qed.

Lemma run_ticks_manual frames st target st' effects :
  currentMode st = manual -> selectedNote st = Some target ->
  run_ticks st frames = Normal (st', effects) ->
  currentMode st' = manual /\ selectedNote st' = Some target
  /\ Forall (shows_target target) effects.
Proof.
  revert st effects.
  induction frames as [|[[audioBuffer sampleRate] handle] frames IH];
    intros st effects Hm Hs; cbn [run_ticks].
  - intros [= <- <-]. repeat split; [assumption .. | constructor].
  - destruct (audioLoop st audioBuffer sampleRate handle)
      as [[st1 e1]| |] eqn:E1; cbn [mbind completion_bind];
      try discriminate.
    cbn [fst snd].
    destruct (run_ticks st1 frames) as [[st2 e2]| |] eqn:E2;
      cbn [mbind completion_bind]; try discriminate.
    cbn [fst snd]. intros [= <- <-].
    pose proof (audioLoop_keeps_selection _ _ _ _ _ _ E1) as [Hm1 Hs1].
    rewrite Hm in Hm1. rewrite Hs in Hs1.
    destruct (IH st1 e2 Hm1 Hs1 E2) as (Hm2 & Hs2 & He2).
    repeat split; try assumption.
    apply Forall_app. split; [|exact He2].
    exact (audioLoop_manual_tick _ _ _ _ _ _ _ Hm Hs E1).
Qed.

Lemma selectNote_selects n o f st :
  currentMode (selectNote n o f st).1 = manual
  /\ selectedNote (selectNote n o f st).1
     = Some {| note := n; octave := o; frequency := f |}
  /\ analyser (selectNote n o f st).1 = analyser st
  /\ isListening (selectNote n o f st).1 = isListening st.
Proof.
  unfold selectNote, setManualMode. destruct st as [a l id [|] s];
    cbn; repeat split; reflexivity.
Qed.

(** C9.  After [selectNote(n, o, f)] the mode is manual and the target
    is [{n, o, f}].  Over any run of ticks from there, the loop leaves
    the mode and the target as they are, and every call of [updateUI]
    carries the note [n] and the octave [o], with the deviation of the
    detected frequency from [f]; a tick that detects a signal makes
    such a call whatever the detected frequency is. *)
Theorem manual_target_stability n o f st frames st' effects :
  run_ticks (selectNote n o f st).1 frames = Normal (st', effects) ->
  let target := {| note := n; octave := o; frequency := f |} in
  currentMode (selectNote n o f st).1 = manual
  /\ selectedNote (selectNote n o f st).1 = Some target
  /\ currentMode st' = manual
  /\ selectedNote st' = Some target
  /\ Forall (shows_target target) effects
  /\ (forall audioBuffer sampleRate handle detected,
        analyser st = true -> isListening st = true ->
        autocorrelate audioBuffer sampleRate = Normal detected ->
        (detected >? Fin 0)%num = true ->
        audioLoop (selectNote n o f st).1 audioBuffer sampleRate handle
        = Normal (rescheduled (selectNote n o f st).1 handle,
                  [UpdateUI detected n o (calculateCents detected f)])).
Proof.
  intros Hrun target.
  destruct (selectNote_selects n o f st) as (Hm & Hs & Ha & Hl).
  destruct (run_ticks_manual _ _ target _ _ Hm Hs Hrun) as (Hm' & Hs' & He).
  repeat split; try assumption.
  intros audioBuffer sampleRate handle detected Ha' Hl' Ef Hf.
  rewrite (audioLoop_with_signal _ _ _ _ detected);
    try assumption; try congruence.
  now rewrite Hm, Hs.
Qed.

Lemma run_two_ticks_on_E2 :
  run_ticks after_selecting_E2
            [(click_frame, Fin 44100, 1%Z); (low_click_frame, Fin 44100, 2%Z)]
  = Normal (rescheduled after_selecting_E2 2,
            [UpdateUI (Fin 441) "E" (Fin 2)
                      (calculateCents (Fin 441) (Fin 82.41));
             UpdateUI (Fin 220.5) "E" (Fin 2)
                      (calculateCents (Fin 220.5) (Fin 82.41))]).
Proof.
  set (E2 := {| note := "E"; octave := Fin 2; frequency := Fin 82.41 |}).
  cbn [run_ticks].
  rewrite (audioLoop_with_signal _ _ _ _ (Fin 441));
    [| reflexivity | reflexivity | apply click_frame_frequency
     | apply Rltb_true; lra].
  change (currentMode after_selecting_E2) with manual.
  change (selectedNote after_selecting_E2) with (Some E2).
  cbn [mbind completion_bind fst snd].
  rewrite (audioLoop_with_signal _ _ _ _ (Fin 220.5));
    [| reflexivity | reflexivity | apply low_click_frame_frequency
     | apply Rltb_true; lra].
  reflexivity.
Qed.

(** C9 on two ticks after selecting E2: the frames carry 441 Hz and
    220.5 Hz, whose nearest notes are A4 and A3; both calls of
    [updateUI] show E2, and the target is still E2 afterwards. *)
Lemma manual_target_stability_witness :
  selectedNote (rescheduled after_selecting_E2 2)
  = Some {| note := "E"; octave := Fin 2; frequency := Fin 82.41 |}
  /\ Forall (shows_target
               {| note := "E"; octave := Fin 2; frequency := Fin 82.41 |})
       [UpdateUI (Fin 441) "E" (Fin 2)
                 (calculateCents (Fin 441) (Fin 82.41));
        UpdateUI (Fin 220.5) "E" (Fin 2)
                 (calculateCents (Fin 220.5) (Fin 82.41))]
  /\ findClosestNote (Fin 441)
     = Normal {| note := "A"; octave := Fin 4; frequency := Fin 440 |}.
Proof.
  destruct (manual_target_stability
              "E" (Fin 2) (Fin 82.41) listening_auto _ _ _
              run_two_ticks_on_E2) as (_ & _ & _ & Hs & He & _).
  split; [exact Hs |]. split; [exact He |]. apply findClosestNote_441.
Defined.

End ManualTarget.

(* ================================================================== *)
(** ** The outcome of the scan in [autocorrelate] *)
(* ================================================================== *)

Section ScanOutcome.
Local Open Scope R_scope.
Variables (buffer : list number) (sampleRate : R).
Hypothesis Halloc : allocatable sampleRate.

Local Abbreviation minLag := (minLag_of sampleRate).
Local Abbreviation maxLag := (maxLag_of sampleRate).
Local Abbreviation correlations := (correlations_for buffer sampleRate).
Local Abbreviation scan := (scan_for buffer sampleRate).
Local Abbreviation bestLag := (bestLag_for buffer sampleRate).
Local Abbreviation maxCorrelation := (maxCorrelation_for buffer sampleRate).

(** A [bestLag] other than [-1] is a candidate of the lag range, below
    [maxLag], and [maxCorrelation] is its correlation. *)
Lemma best_lag_is_peak :
  bestLag <> (-1)%Z ->
  (minLag <= bestLag < maxLag)%Z /\ (0 < bestLag)%Z
  /\ is_peak correlations bestLag = true
  /\ maxCorrelation = read correlations bestLag.
Proof.
  unfold bestLag_for, maxCorrelation_for.
  intros Hb. destruct scan as [b m] eqn:E. cbn [fst snd] in *.
  apply peak_scan_result in E as [[-> _]|(Hin & Hp & ->)];
    [contradiction |].
  apply elem_of_lag_range in Hin.
  pose proof (is_peak_in_range _ _ Hp) as [H1 H2].
  unfold correlations_for in H2. rewrite correlations_of_length in H2.
  repeat split; try assumption; lia.
Qed.

(** Without a candidate in the lag range [bestLag] stays [-1]. *)
Lemma no_peak_no_best_lag :
  (forall lag, (minLag <= lag <= maxLag)%Z ->
               is_peak correlations lag = false) ->
  scan = ((-1)%Z, NInf).
Proof.
  intros H. apply peak_scan_no_peak.
  intros lag Hlag. apply H. now apply elem_of_lag_range.
Qed.

(** What [autocorrelate] returns for the sample rate once the gate is
    passed. *)
Lemma autocorrelate_after_gate :
  (rms buffer <? Fin MIN_RMS_THRESHOLD)%num = false ->
  autocorrelate buffer (Fin sampleRate)
  = if (bestLag =? -1)%Z || (maxCorrelation <? Fin 0.01)%num
    then Normal (Fin (-1))
    else Normal (Fin sampleRate / refine_lag correlations bestLag maxLag)%num.
Proof.
  intros Hg. rewrite autocorrelate_gate_open by assumption.
  now rewrite autocorrelate_search_eq by assumption.
Qed.

(** With finite samples every correlation is a real or [NaN], and the
    three correlations around a candidate are reals. *)
Lemma peak_reals lag :
  Forall finite buffer -> is_peak correlations lag = true ->
  exists y1 y2 y3,
    read correlations (lag - 1) = Fin y1
    /\ read correlations lag = Fin y2
    /\ read correlations (lag + 1) = Fin y3
    /\ y1 < y2 /\ y3 < y2.
Proof.
  intros Hfin Hp.
  assert (Forall real_or_nan buffer) as Hr
    by (eapply Forall_impl; [exact Hfin | exact finite_real_or_nan]).
  pose proof (read_correlations_real_or_nan buffer minLag maxLag (lag - 1) Hr)
    as R1.
  pose proof (read_correlations_real_or_nan buffer minLag maxLag lag Hr) as R2.
  pose proof (read_correlations_real_or_nan buffer minLag maxLag (lag + 1) Hr)
    as R3.
  fold correlations in R1, R2, R3.
  apply is_peak_true in Hp as [H1 H3].
  destruct (read correlations (lag - 1)) as [y1| | |];
    destruct (read correlations lag) as [y2| | |];
    try discriminate H1;
    destruct (read correlations (lag + 1)) as [y3| | |];
    try discriminate H3;
    try (destruct R1 as [? ?]; congruence);
    try (destruct R2 as [? ?]; congruence);
    try (destruct R3 as [? ?]; congruence).
  exists y1, y2, y3. apply lt_Fin in H1, H3. now repeat split.
Qed.

End ScanOutcome.

(* ================================================================== *)
(** ** Evaluating the scan on integer-valued samples *)
(* ================================================================== *)

Section EvaluateScan.

Lemma scan_for_embed (buffer : list inum) (sampleRate : R) (minLag maxLag : Z) :
  (0 < sampleRate)%R ->
  minLag_of sampleRate = minLag -> maxLag_of sampleRate = maxLag ->
  correlations_for (embed <$> buffer) sampleRate
  = embed <$> icorrelations_fast buffer minLag maxLag
  /\ scan_for (embed <$> buffer) sampleRate
     = ((ipeak_scan (icorrelations_fast buffer minLag maxLag)
                    (lag_range minLag maxLag) (-1) INInf).1,
        embed (ipeak_scan (icorrelations_fast buffer minLag maxLag)
                          (lag_range minLag maxLag) (-1) INInf).2).
Proof.
  intros Hpos Hmin Hmax.
  assert (correlations_for (embed <$> buffer) sampleRate
          = embed <$> icorrelations_fast buffer minLag maxLag) as E.
  { unfold correlations_for. rewrite Hmin, Hmax, correlations_of_embed.
    rewrite icorrelations_of_fast
      by (rewrite <- Hmin; now apply minLag_of_nonneg).
    reflexivity. }
  split; [exact E |].
  unfold scan_for. rewrite E, Hmin, Hmax.
  change NInf with (embed INInf). apply peak_scan_embed.
Qed.

Lemma finite_embed (buffer : list inum) :
  forallb is_ifin buffer = true -> Forall finite (embed <$> buffer).
Proof.
  intros H. apply Forall_fmap, Forall_forall. intros a Ha.
  assert (is_ifin a = true) as Hfin.
  { rewrite forallb_forall in H. apply H. now apply list_elem_of_In. }
  destruct a; try discriminate. now eexists.
Qed.

(** A bounded search for a lag with a property, as a computation. *)
Lemma forall_lags_forallb (P : Z -> bool) (lo len : Z) :
  forallb (fun lag => negb (P lag)) (seqZ lo len) = true ->
  forall lag, (lo <= lag < lo + len)%Z -> P lag = false.
Proof.
  intros H lag Hlag. rewrite forallb_forall in H.
  apply negb_true_iff, H, list_elem_of_In, elem_of_seqZ. lia.
Qed.

End EvaluateScan.

(* ================================================================== *)
(** ** Claims on the estimator *)
(* ================================================================== *)

Section EstimatorClaims.
Local Open Scope R_scope.

(** C10.  When [autocorrelate] reaches the parabolic refinement with a
    sample rate of at least [MAX_FREQUENCY], [bestLag] is a candidate
    with [1 <= minLag <= bestLag < maxLag], so the guard
    [bestLag > 0 && bestLag < maxLag] holds and the three reads around
    [bestLag] are inside the array; [maxLag] itself is never a
    candidate, its right neighbour being read past the end of the
    array.  With samples that are reals the three correlations are
    reals, [a = (y1 + y3 - 2 y2) / 2] is negative,
    [|b / (2 a)| < 1/2], the refined lag lies strictly within half a
    sample of [bestLag] and is positive, and the frequency
    [sampleRate / refinedLag] that is returned is a positive real. *)
Theorem refinement_is_safe (buffer : list number) (sampleRate : R) :
  allocatable sampleRate -> MAX_FREQUENCY <= sampleRate ->
  bestLag_for buffer sampleRate <> (-1)%Z ->
  let minLag := minLag_of sampleRate in
  let maxLag := maxLag_of sampleRate in
  let correlations := correlations_for buffer sampleRate in
  let bestLag := bestLag_for buffer sampleRate in
  (1 <= minLag)%Z /\ (minLag <= bestLag < maxLag)%Z
  /\ is_peak correlations bestLag = true
  /\ ((0 <? bestLag) && (bestLag <? maxLag))%Z = true
  /\ (0 <= bestLag - 1)%Z
  /\ (bestLag + 1 < Z.of_nat (length correlations))%Z
  /\ read correlations (maxLag + 1) = NaN
  /\ is_peak correlations maxLag = false
  /\ (Forall finite buffer ->
      exists y1 y2 y3 refinedLag,
        read correlations (bestLag - 1) = Fin y1
        /\ read correlations bestLag = Fin y2
        /\ read correlations (bestLag + 1) = Fin y3
        /\ y1 < y2 /\ y3 < y2
        /\ (y1 + y3 - 2 * y2) / 2 < 0
        /\ Rabs (((y3 - y1) / 2) / (2 * ((y1 + y3 - 2 * y2) / 2))) < / 2
        /\ refine_lag correlations bestLag maxLag = Fin refinedLag
        /\ refinedLag
           = IZR bestLag - ((y3 - y1) / 2) / (2 * ((y1 + y3 - 2 * y2) / 2))
        /\ IZR bestLag - / 2 < refinedLag < IZR bestLag + / 2
        /\ 0 < refinedLag
        /\ 0 < sampleRate / refinedLag
        /\ ((rms buffer <? Fin MIN_RMS_THRESHOLD)%num = false ->
            (maxCorrelation_for buffer sampleRate <? Fin 0.01)%num = false ->
            autocorrelate buffer (Fin sampleRate)
            = Normal (Fin (sampleRate / refinedLag)))).
Proof.
  intros Halloc Hrate Hbest minLag maxLag correlations bestLag.
  destruct (best_lag_is_peak buffer sampleRate Hbest)
    as (Hrange & Hpos & Hpeak & Hmax).
  fold minLag maxLag correlations bestLag in Hrange, Hpos, Hpeak, Hmax.
  pose proof (minLag_of_pos sampleRate Hrate) as Hmin. fold minLag in Hmin.
  pose proof (is_peak_in_range _ _ Hpeak) as [_ Hright].
  split; [exact Hmin |]. split; [exact Hrange |]. split; [exact Hpeak |].
  split.
  { destruct (Z.ltb_spec 0 bestLag); [|lia].
    destruct (Z.ltb_spec bestLag maxLag); [reflexivity | lia]. }
  split; [lia |]. split; [exact Hright |].
  assert (read correlations (maxLag + 1) = NaN) as Eend.
  { apply read_out_of_range. right. unfold correlations, correlations_for.
    rewrite correlations_of_length. fold maxLag. lia. }
  split; [exact Eend |].
  split; [apply is_peak_NaN_false; right; right; exact Eend |].
  intros Hfin.
  destruct (peak_reals buffer sampleRate bestLag Hfin Hpeak)
    as (y1 & y2 & y3 & E1 & E2 & E3 & H1 & H3).
  fold correlations in E1, E2, E3.
  destruct (parabola_vertex_near bestLag y1 y2 y3 H1 H3) as (Ha & Hb & Hr).
  assert (refine_lag correlations bestLag maxLag
          = Fin (parabola_vertex bestLag y1 y2 y3)) as Eref
    by (apply refine_lag_real; try assumption; lia).
  assert (1 <= IZR bestLag) as Hb1 by (apply IZR_le; lia).
  assert (0 < parabola_vertex bestLag y1 y2 y3) as Hrpos by lra.
  assert (0 < sampleRate) as Hsr by apply Halloc.
  exists y1, y2, y3, (parabola_vertex bestLag y1 y2 y3).
  split; [exact E1 |]. split; [exact E2 |]. split; [exact E3 |].
  split; [exact H1 |]. split; [exact H3 |].
  split; [exact Ha |]. split; [exact Hb |].
  split; [exact Eref |]. split; [reflexivity |].
  split; [exact Hr |]. split; [exact Hrpos |].
  split; [now apply Rdiv_lt_0_compat |].
  intros Hgate Hfloor.
  rewrite autocorrelate_after_gate by assumption.
  fold bestLag maxLag correlations.
  replace (bestLag =? -1)%Z with false
    by (symmetry; apply Z.eqb_neq; exact Hbest).
  rewrite Hfloor. cbn [orb]. rewrite Eref.
  now rewrite div_Fin_nonzero by lra.
Qed.

Lemma click_frame_scan :
  correlations_for click_frame 44100
  = embed <$> icorrelations_fast
                (impulses [(0, IFin 1); (100, IFin 1)]%nat) 44 678
  /\ scan_for click_frame 44100 = (100%Z, Fin 1).
Proof.
  destruct (scan_for_embed (impulses [(0, IFin 1); (100, IFin 1)]%nat)
              44100 44 678 ltac:(lra) minLag_of_44100 maxLag_of_44100)
    as [Ec Es].
  split; [exact Ec |]. unfold click_frame. rewrite Es.
  vm_scan. reflexivity.
Qed.

Lemma click_frame_finite : Forall finite click_frame.
Proof. apply finite_embed. now vm_compute. Qed.

Lemma click_frame_gate :
  (rms click_frame <? Fin MIN_RMS_THRESHOLD)%num = false.
Proof.
  unfold click_frame. rewrite gate_embed by (vm_compute; lia).
  now vm_compute.
Qed.

(** C10 on the two-click frame at 44100 Hz: the refinement is reached
    with [bestLag = 100], and the frequency returned is the sample rate
    over a refined lag within half a sample of 100. *)
Lemma refinement_is_safe_witness :
  exists refinedLag,
    100 - / 2 < refinedLag < 100 + / 2
    /\ autocorrelate click_frame (Fin 44100)
       = Normal (Fin (44100 / refinedLag)).
Proof.
  assert (MAX_FREQUENCY <= 44100) as Hrate by (unfold MAX_FREQUENCY; lra).
  assert (bestLag_for click_frame 44100 = 100%Z) as Hbest
    by (unfold bestLag_for; now rewrite (proj2 click_frame_scan)).
  assert (bestLag_for click_frame 44100 <> (-1)%Z) as Hne
    by (rewrite Hbest; lia).
  destruct (refinement_is_safe click_frame 44100 allocatable_44100 Hrate Hne)
    as (_ & _ & _ & _ & _ & _ & _ & _ & Hreal).
  destruct (Hreal click_frame_finite)
    as (y1 & y2 & y3 & r & _ & _ & _ & _ & _ & _ & _ & _ & _ & Hr & _ & _
        & Hret).
  rewrite Hbest in Hr. exists r. split; [exact Hr |].
  apply Hret; [exact click_frame_gate |].
  unfold maxCorrelation_for. rewrite (proj2 click_frame_scan).
  apply Rltb_false. lra.
Defined.

Lemma exit_threshold_zero correlations :
  read correlations 0 = Fin 0 -> exit_threshold correlations = Fin 0.
Proof.
  intros E. unfold exit_threshold. rewrite E. cbn [mul]. f_equal. lra.
Qed.

Lemma lag_range_split minLag maxLag lag :
  (minLag <= lag <= maxLag)%Z ->
  lag_range minLag maxLag
  = seqZ minLag (lag - minLag) ++ lag :: seqZ (lag + 1) (maxLag - lag).
Proof.
  intros H. unfold lag_range.
  replace (maxLag - minLag + 1)%Z
    with ((lag - minLag) + (maxLag - lag + 1))%Z by lia.
  rewrite seqZ_app by lia. f_equal.
  replace (minLag + (lag - minLag))%Z with lag by lia.
  rewrite seqZ_cons by lia. f_equal. f_equal; lia.
Qed.

Lemma two_peak_frame_scan :
  correlations_for two_peak_frame 44100
  = embed <$> icorrelations_fast
                (impulses [(0, IFin 1); (100, IFin 1); (400, IFin 5)]%nat)
                44 678
  /\ scan_for two_peak_frame 44100 = (100%Z, Fin 1).
Proof.
  destruct (scan_for_embed
              (impulses [(0, IFin 1); (100, IFin 1); (400, IFin 5)]%nat)
              44100 44 678 ltac:(lra) minLag_of_44100 maxLag_of_44100)
    as [Ec Es].
  split; [exact Ec |]. unfold two_peak_frame. rewrite Es.
  vm_scan. reflexivity.
Qed.

(** C3.  With a sample rate of at least [MAX_FREQUENCY], [minLag >= 1]
    and slot 0 of the correlations is never written: it is zero, and so
    is the exit threshold [0.9 * correlations[0]].  The scan visits the
    lags in ascending order; at a lag whose correlation exceeds both
    neighbours it keeps the larger of that correlation and the running
    maximum and stops if the correlation exceeds the threshold.  So the
    scan ends at the first candidate with a positive correlation, and
    [bestLag] is that candidate.  It need not be the best candidate of
    the range: on some frame a later candidate has a larger
    correlation. *)
Theorem peak_scan_stops_at_first_positive_peak
    (buffer : list number) (sampleRate : R) (lag : Z) :
  allocatable sampleRate -> MAX_FREQUENCY <= sampleRate ->
  let minLag := minLag_of sampleRate in
  let maxLag := maxLag_of sampleRate in
  let correlations := correlations_for buffer sampleRate in
  (minLag <= lag <= maxLag)%Z ->
  is_peak correlations lag = true ->
  (read correlations lag >? Fin 0)%num = true ->
  (forall l, (minLag <= l < lag)%Z ->
             is_peak correlations l && (read correlations l >? Fin 0)%num
             = false) ->
  (1 <= minLag)%Z
  /\ read correlations 0 = Fin 0
  /\ exit_threshold correlations = Fin 0
  /\ lag_range minLag maxLag = seqZ minLag (maxLag - minLag + 1)
  /\ (forall l rest bestLag maxCorrelation,
        peak_scan correlations (l :: rest) bestLag maxCorrelation
        = if (read correlations l >? read correlations (l - 1))%num
             && (read correlations l >? read correlations (l + 1))%num
          then
            if (read correlations l >? Fin 0.9 * read correlations 0)%num
            then if (read correlations l >? maxCorrelation)%num
                 then (l, read correlations l)
                 else (bestLag, maxCorrelation)
            else if (read correlations l >? maxCorrelation)%num
                 then peak_scan correlations rest l (read correlations l)
                 else peak_scan correlations rest bestLag maxCorrelation
          else peak_scan correlations rest bestLag maxCorrelation)
  /\ scan_for buffer sampleRate = (lag, read correlations lag)
  /\ ((rms buffer <? Fin MIN_RMS_THRESHOLD)%num = false ->
      autocorrelate buffer (Fin sampleRate)
      = if (read correlations lag <? Fin 0.01)%num
        then Normal (Fin (-1))
        else Normal (Fin sampleRate / refine_lag correlations lag maxLag)%num)
  /\ (exists (frame : list number) (rate : R) (later : Z),
        allocatable rate /\ MAX_FREQUENCY <= rate
        /\ (rms frame <? Fin MIN_RMS_THRESHOLD)%num = false
        /\ (bestLag_for frame rate < later <= maxLag_of rate)%Z
        /\ is_peak (correlations_for frame rate) later = true
        /\ (read (correlations_for frame rate) later
            >? maxCorrelation_for frame rate)%num = true).
Proof.
  intros Halloc Hrate minLag maxLag correlations Hlag Hpeak Hpos Hfirst.
  pose proof (minLag_of_pos sampleRate Hrate) as Hmin. fold minLag in Hmin.
  assert (0 <= maxLag)%Z as Hmax by (apply maxLag_of_nonneg, Halloc).
  pose proof (read_correlations_of_0 buffer minLag maxLag Hmin Hmax) as E0.
  fold (correlations_for buffer sampleRate) in E0. fold correlations in E0.
  pose proof (exit_threshold_zero correlations E0) as Ethr.
  assert (scan_for buffer sampleRate = (lag, read correlations lag)) as Escan.
  { unfold scan_for. fold minLag maxLag correlations.
    rewrite (lag_range_split minLag maxLag lag Hlag).
    apply peak_scan_first_exit.
    - intros l Hl. apply elem_of_seqZ in Hl.
      unfold stops_scan. rewrite Ethr. apply Hfirst. lia.
    - unfold stops_scan. now rewrite Ethr, Hpeak, Hpos.
    - now left. }
  split; [exact Hmin |]. split; [exact E0 |]. split; [exact Ethr |].
  split; [reflexivity |].
  split.
  { intros l rest bestLag maxCorrelation. cbn [peak_scan]. unfold is_peak.
    destruct (_ && _); [|reflexivity].
    destruct (read correlations l >? maxCorrelation)%num;
      destruct (read correlations l >? Fin 0.9 * read correlations 0)%num;
      reflexivity. }
  split; [exact Escan |].
  split.
  { intros Hgate. rewrite autocorrelate_after_gate by assumption.
    unfold bestLag_for, maxCorrelation_for. rewrite Escan. cbn [fst snd].
    fold correlations maxLag.
    replace (lag =? -1)%Z with false by (symmetry; apply Z.eqb_neq; lia).
    reflexivity. }
  exists two_peak_frame, 44100, 300%Z.
  destruct two_peak_frame_scan as [Ec Es].
  split; [exact allocatable_44100 |].
  split; [unfold MAX_FREQUENCY; lra |].
  split.
  { unfold two_peak_frame. rewrite gate_embed by (vm_compute; lia).
    now vm_compute. }
  unfold bestLag_for, maxCorrelation_for. rewrite Es, Ec. cbn [fst snd].
  rewrite maxLag_of_44100. split; [lia |].
  rewrite is_peak_embed, read_embed. change (Fin 1) with (embed (IFin 1)).
  unfold gt. rewrite lt_embed. split; now vm_compute.
Qed.

Lemma click_frame_no_earlier_peak :
  forall l, (minLag_of 44100 <= l < 100)%Z ->
    is_peak (correlations_for click_frame 44100) l
    && (read (correlations_for click_frame 44100) l >? Fin 0)%num
    = false.
Proof.
  destruct click_frame_scan as [Ec _].
  rewrite minLag_of_44100, Ec. intros l Hl.
  rewrite is_peak_embed, read_embed. change (Fin 0) with (embed (IFin 0)).
  unfold gt. rewrite lt_embed. revert l Hl.
  set (arr := icorrelations_fast
                (impulses [(0, IFin 1); (100, IFin 1)]%nat) 44 678).
  change (forall l, (44 <= l < 44 + 56)%Z ->
            (fun l => iis_peak arr l && ilt (IFin 0) (iread arr l)) l = false).
  apply forall_lags_forallb. subst arr.
  pattern (icorrelations_fast
             (impulses [(0, IFin 1); (100, IFin 1)]%nat) 44 678).
  now vm_compute.
Qed.

(** C3 on the two-click frame at 44100 Hz: lags 44 to 99 hold no
    positive candidate, lag 100 is one, and the scan ends there with
    the correlation 1. *)
Lemma peak_scan_stops_at_first_positive_peak_witness :
  scan_for click_frame 44100
  = (100%Z, read (correlations_for click_frame 44100) 100)
  /\ read (correlations_for click_frame 44100) 0 = Fin 0.
Proof.
  assert (MAX_FREQUENCY <= 44100) as Hrate by (unfold MAX_FREQUENCY; lra).
  destruct click_frame_scan as [Ec _].
  assert (minLag_of 44100 <= 100 <= maxLag_of 44100)%Z as Hlag
    by (rewrite minLag_of_44100, maxLag_of_44100; lia).
  assert (is_peak (correlations_for click_frame 44100) 100 = true) as Hpeak
    by (rewrite Ec, is_peak_embed; now vm_compute).
  assert ((read (correlations_for click_frame 44100) 100 >? Fin 0)%num = true)
    as Hpos.
  { rewrite Ec, read_embed. change (Fin 0) with (embed (IFin 0)).
    unfold gt. rewrite lt_embed. now vm_compute. }
  pose proof click_frame_no_earlier_peak as Hfirst.
  destruct (peak_scan_stops_at_first_positive_peak
              click_frame 44100 100 allocatable_44100 Hrate
              Hlag Hpeak Hpos Hfirst)
    as (_ & E0 & _ & _ & _ & Escan & _).
  split; [exact Escan | exact E0].
Defined.

(** What [autocorrelate] returns for a finite sample rate for which
    the array can be constructed: [-1] on one of the three failure
    paths, and otherwise the sample rate over the refined lag, which is
    [NaN] or a real within half a sample of a [bestLag >= 1]. *)
Lemma autocorrelate_cases (buffer : list number) (sampleRate : R) :
  allocatable sampleRate ->
  (autocorrelate buffer (Fin sampleRate) = Normal (Fin (-1))
   /\ ((rms buffer <? Fin MIN_RMS_THRESHOLD)%num = true
       \/ bestLag_for buffer sampleRate = (-1)%Z
       \/ (maxCorrelation_for buffer sampleRate <? Fin 0.01)%num = true))
  \/ ((rms buffer <? Fin MIN_RMS_THRESHOLD)%num = false
      /\ bestLag_for buffer sampleRate <> (-1)%Z
      /\ (maxCorrelation_for buffer sampleRate <? Fin 0.01)%num = false
      /\ autocorrelate buffer (Fin sampleRate)
         = Normal (Fin sampleRate
                   / refine_lag (correlations_for buffer sampleRate)
                                (bestLag_for buffer sampleRate)
                                (maxLag_of sampleRate))%num
      /\ (refine_lag (correlations_for buffer sampleRate)
                     (bestLag_for buffer sampleRate) (maxLag_of sampleRate)
          = NaN
          \/ exists r,
               refine_lag (correlations_for buffer sampleRate)
                          (bestLag_for buffer sampleRate)
                          (maxLag_of sampleRate) = Fin r
               /\ IZR (bestLag_for buffer sampleRate) - / 2 < r
               /\ 1 <= IZR (bestLag_for buffer sampleRate))).
Proof.
  intros Halloc.
  destruct (rms buffer <? Fin MIN_RMS_THRESHOLD)%num eqn:Hgate.
  { left. split; [now apply autocorrelate_gate_closed | now left]. }
  rewrite autocorrelate_after_gate by assumption.
  destruct (Z.eqb_spec (bestLag_for buffer sampleRate) (-1)) as [Hb|Hb].
  { left. split; [reflexivity | right; now left]. }
  destruct (maxCorrelation_for buffer sampleRate <? Fin 0.01)%num eqn:Hfloor.
  { left. split; [reflexivity | right; now right]. }
  right. cbn [orb].
  destruct (best_lag_is_peak buffer sampleRate Hb)
    as (Hrange & Hpos & Hpeak & _).
  repeat (split; [first [reflexivity | assumption] |]).
  destruct (refine_lag_peak _ _ (maxLag_of sampleRate) Hpeak ltac:(lia))
    as [E|(r & E & Hr)].
  - now left.
  - right. exists r. split; [exact E |]. split; [lra |].
    apply IZR_le. lia.
Qed.







Lemma silent_frame_zeros :
  silent_frame <> [] /\ Forall (fun x => x = Fin 0) silent_frame.
Proof.
  unfold silent_frame. split.
  - intros E. apply (f_equal length) in E.
    rewrite length_replicate in E. discriminate.
  - apply Forall_replicate. reflexivity.
Qed.

Lemma single_click_frame_scan :
  correlations_for single_click_frame 44100
  = embed <$> icorrelations_fast (impulses [(0, IFin 1)]%nat) 44 678
  /\ scan_for single_click_frame 44100 = ((-1)%Z, NInf).
Proof.
  destruct (scan_for_embed (impulses [(0, IFin 1)]%nat)
              44100 44 678 ltac:(lra) minLag_of_44100 maxLag_of_44100)
    as [Ec Es].
  split; [exact Ec |]. unfold single_click_frame. rewrite Es.
  vm_scan. reflexivity.
Qed.

Lemma single_click_frame_no_peak :
  forall lag, (minLag_of 44100 <= lag <= maxLag_of 44100)%Z ->
    is_peak (correlations_for single_click_frame 44100) lag = false.
Proof.
  destruct single_click_frame_scan as [Ec _].
  rewrite minLag_of_44100, maxLag_of_44100, Ec. intros lag Hlag.
  rewrite is_peak_embed. revert lag Hlag.
  set (arr := icorrelations_fast (impulses [(0, IFin 1)]%nat) 44 678).
  assert (forall lag, (44 <= lag < 44 + 635)%Z ->
            (fun lag => iis_peak arr lag) lag = false) as H.
  { apply forall_lags_forallb. subst arr.
    pattern (icorrelations_fast (impulses [(0, IFin 1)]%nat) 44 678).
    now vm_compute. }
  intros lag Hlag. apply H. lia.
Qed.

Lemma weak_peak_frame_scan :
  correlations_for weak_peak_frame 44100
  = embed <$> icorrelations_fast
                (impulses [(0, IFin 1); (99, IFin (-1)); (101, IFin (-1))]%nat)
                44 678
  /\ scan_for weak_peak_frame 44100 = (100%Z, Fin 0).
Proof.
  destruct (scan_for_embed
              (impulses [(0, IFin 1); (99, IFin (-1)); (101, IFin (-1))]%nat)
              44100 44 678 ltac:(lra) minLag_of_44100 maxLag_of_44100)
    as [Ec Es].
  split; [exact Ec |]. unfold weak_peak_frame. rewrite Es.
  vm_scan. reflexivity.
Qed.

Lemma autocorrelate_completes (buffer : list number) (sampleRate : R) :
  allocatable sampleRate ->
  exists v, autocorrelate buffer (Fin sampleRate) = Normal v.
Proof.
  intros Halloc.
  destruct (autocorrelate_cases buffer sampleRate Halloc)
    as [[E _]|(_ & _ & _ & E & _)]; eexists; exact E.
Qed.

Lemma no_candidate_no_signal (buffer : list number) (sampleRate : R) :
  allocatable sampleRate ->
  (forall lag, (minLag_of sampleRate <= lag <= maxLag_of sampleRate)%Z ->
               is_peak (correlations_for buffer sampleRate) lag = false) ->
  bestLag_for buffer sampleRate = (-1)%Z
  /\ autocorrelate buffer (Fin sampleRate) = Normal (Fin (-1)).
Proof.
  intros Halloc Hnone.
  pose proof (no_peak_no_best_lag buffer sampleRate Hnone) as Es.
  assert (bestLag_for buffer sampleRate = (-1)%Z) as Eb
    by (unfold bestLag_for; now rewrite Es).
  split; [exact Eb |].
  destruct (rms buffer <? Fin MIN_RMS_THRESHOLD)%num eqn:Hgate;
    [now apply autocorrelate_gate_closed |].
  rewrite autocorrelate_after_gate by assumption.
  rewrite Eb. reflexivity.
Qed.

(** The correlation stored for a lag whose window passes the end of
    the buffer. *)
Lemma short_lag_correlation (buffer : list number) (sampleRate : R) lag :
  (0 < sampleRate)%R ->
  (minLag_of sampleRate <= lag <= maxLag_of sampleRate)%Z ->
  (Z.of_nat (length buffer) < windowSize + lag)%Z ->
  read (correlations_for buffer sampleRate) lag = NaN.
Proof.
  intros Hsr Hlag Hlen. pose proof (minLag_of_nonneg sampleRate Hsr).
  unfold correlations_for. rewrite read_correlations_of.
  repeat case_decide; try lia. apply correlation_at_short; lia.
Qed.

Lemma too_short_no_signal (buffer : list number) (sampleRate : R) :
  allocatable sampleRate ->
  (Z.of_nat (length buffer) < windowSize + minLag_of sampleRate)%Z ->
  autocorrelate buffer (Fin sampleRate) = Normal (Fin (-1)).
Proof.
  intros Halloc Hall. apply no_candidate_no_signal; [assumption |].
  intros lag Hlag. apply is_peak_NaN_false. left.
  apply short_lag_correlation; [apply Halloc | assumption | lia].
Qed.

Lemma single_click_frame_gate :
  (rms single_click_frame <? Fin MIN_RMS_THRESHOLD)%num = false.
Proof.
  unfold single_click_frame. rewrite gate_embed by (vm_compute; lia).
  now vm_compute.
Qed.

(** C8.  [autocorrelate] returns [-1] when the RMS of the samples is
    below [MIN_RMS_THRESHOLD = 0.005]; a nonempty all-zero buffer has
    RMS 0 and is such a buffer.  The gate comes first: it returns [-1]
    for every sample rate, also for an infinite one, for which the
    array constructor would throw once the gate is passed.  For a
    sample rate for which the array can be constructed,
    [autocorrelate] also returns [-1] when no lag of the range is a
    candidate ([bestLag] is then [-1]) and when the correlation of the
    best candidate is below 0.01.  The empty buffer, whose RMS is [NaN],
    passes the gate and returns [-1] for want of a candidate. *)
Theorem no_signal_paths (buffer : list number) (sampleRate : R)
    (anyRate : number) :
  allocatable sampleRate ->
  MIN_RMS_THRESHOLD = 0.005
  /\ ((rms buffer <? Fin MIN_RMS_THRESHOLD)%num = true ->
      autocorrelate buffer anyRate = Normal (Fin (-1)))
  /\ (buffer <> [] -> Forall (fun x => x = Fin 0) buffer ->
      rms buffer = Fin 0
      /\ autocorrelate buffer anyRate = Normal (Fin (-1)))
  /\ ((rms buffer <? Fin MIN_RMS_THRESHOLD)%num = false ->
      autocorrelate buffer PInf = ThrowRangeError)
  /\ ((forall lag, (minLag_of sampleRate <= lag <= maxLag_of sampleRate)%Z ->
                   is_peak (correlations_for buffer sampleRate) lag = false) ->
      bestLag_for buffer sampleRate = (-1)%Z
      /\ autocorrelate buffer (Fin sampleRate) = Normal (Fin (-1)))
  /\ (bestLag_for buffer sampleRate <> (-1)%Z ->
      is_peak (correlations_for buffer sampleRate)
              (bestLag_for buffer sampleRate) = true
      /\ maxCorrelation_for buffer sampleRate
         = read (correlations_for buffer sampleRate)
                (bestLag_for buffer sampleRate))
  /\ ((maxCorrelation_for buffer sampleRate <? Fin 0.01)%num = true ->
      autocorrelate buffer (Fin sampleRate) = Normal (Fin (-1)))
  /\ (rms [] = NaN /\ autocorrelate [] (Fin sampleRate) = Normal (Fin (-1))).
Proof.
  intros Halloc.
  split; [reflexivity |].
  split; [apply autocorrelate_gate_closed |].
  split.
  { intros Hne Hz. pose proof (rms_zeros buffer Hz Hne) as E.
    split; [exact E |]. apply autocorrelate_gate_closed. rewrite E.
    apply Rltb_true. unfold MIN_RMS_THRESHOLD. lra. }
  split.
  { intros Hgate. unfold autocorrelate. now rewrite Hgate. }
  split.
  { now apply no_candidate_no_signal. }
  split.
  { intros Hb. destruct (best_lag_is_peak buffer sampleRate Hb)
      as (_ & _ & Hp & Hm). now split. }
  split.
  { intros Hfloor.
    destruct (rms buffer <? Fin MIN_RMS_THRESHOLD)%num eqn:Hgate;
      [now apply autocorrelate_gate_closed |].
    rewrite autocorrelate_after_gate by assumption.
    rewrite Hfloor, orb_true_r. reflexivity. }
  split; [exact rms_empty |].
  apply too_short_no_signal; [assumption |].
  pose proof (minLag_of_nonneg sampleRate ltac:(apply Halloc)).
  unfold windowSize. cbn [length]. lia.
Qed.

(** C8 at 44100 Hz: the silent frame is gated for every sample rate,
    the single-click frame passes the gate but has no candidate, and
    the best candidate of the frame with a click between two opposite
    ones has the correlation 0; each returns [-1]. *)
Lemma no_signal_paths_witness :
  autocorrelate silent_frame PInf = Normal (Fin (-1))
  /\ autocorrelate single_click_frame PInf = ThrowRangeError
  /\ autocorrelate single_click_frame (Fin 44100) = Normal (Fin (-1))
  /\ maxCorrelation_for weak_peak_frame 44100 = Fin 0
  /\ autocorrelate weak_peak_frame (Fin 44100) = Normal (Fin (-1)).
Proof.
  destruct silent_frame_zeros as [Hne Hz].
  destruct (no_signal_paths silent_frame 44100 PInf allocatable_44100)
    as (_ & _ & Hsilent & _).
  destruct (no_signal_paths single_click_frame 44100 PInf allocatable_44100)
    as (_ & _ & _ & Hthrow & Hnone & _).
  destruct (no_signal_paths weak_peak_frame 44100 PInf allocatable_44100)
    as (_ & _ & _ & _ & _ & _ & Hweak & _).
  assert (maxCorrelation_for weak_peak_frame 44100 = Fin 0) as Em
    by (unfold maxCorrelation_for; now rewrite (proj2 weak_peak_frame_scan)).
  split; [exact (proj2 (Hsilent Hne Hz)) |].
  split; [exact (Hthrow single_click_frame_gate) |].
  split; [exact (proj2 (Hnone single_click_frame_no_peak)) |].
  split; [exact Em |].
  apply Hweak. rewrite Em. apply Rltb_true. lra.
Defined.

Lemma short_click_frame_frequency :
  autocorrelate short_click_frame (Fin 44100) = Normal (Fin 441).
Proof.
  unfold short_click_frame.
  rewrite (autocorrelate_embed _ 44100 44 678 100 (IFin 1)
             allocatable_44100 minLag_of_44100 maxLag_of_44100);
    [| vm_compute; lia | now vm_compute | now vm_compute].
  cbn [Z.eqb ibelow_floor Z.leb Z.compare orb].
  rewrite (refine_lag_embed _ 100 678 0 1 0);
    [| lia | now vm_compute | now vm_compute | now vm_compute | lia | lia].
  assert (parabola_vertex 100 0 1 0 = 100) as ->
    by (unfold parabola_vertex; field).
  rewrite div_Fin_nonzero by lra. f_equal. f_equal. lra.
Qed.

(** C4, as the program has it.  [autocorrelate] does not test the
    length of the buffer.  With a buffer shorter than
    [windowSize + maxLag], for a positive sample rate for which the
    array can be constructed, the call completes normally; every lag
    whose window passes the end of the buffer reads [undefined] there,
    its correlation is [NaN], and neither it nor a lag next to it is a
    candidate.  When the buffer is shorter than [windowSize + minLag]
    every lag is such a lag and the call returns [-1]. *)
Theorem short_buffer_is_not_rejected (buffer : list number) (sampleRate : R) :
  allocatable sampleRate ->
  (Z.of_nat (length buffer) < windowSize + maxLag_of sampleRate)%Z ->
  (exists v, autocorrelate buffer (Fin sampleRate) = Normal v)
  /\ (forall lag,
        (minLag_of sampleRate <= lag <= maxLag_of sampleRate)%Z ->
        (Z.of_nat (length buffer) < windowSize + lag)%Z ->
        read buffer (windowSize - 1 + lag) = NaN
        /\ correlation_at buffer lag = NaN
        /\ read (correlations_for buffer sampleRate) lag = NaN
        /\ is_peak (correlations_for buffer sampleRate) lag = false
        /\ is_peak (correlations_for buffer sampleRate) (lag - 1) = false
        /\ is_peak (correlations_for buffer sampleRate) (lag + 1) = false)
  /\ ((Z.of_nat (length buffer) < windowSize + minLag_of sampleRate)%Z ->
      autocorrelate buffer (Fin sampleRate) = Normal (Fin (-1))).
Proof.
  intros Halloc Hshort.
  assert (0 < sampleRate) as Hsr by apply Halloc.
  pose proof (minLag_of_nonneg sampleRate Hsr) as Hmin.
  pose proof (short_lag_correlation buffer sampleRate) as Hnan.
  split; [now apply autocorrelate_completes |].
  split; [|now apply too_short_no_signal].
  intros lag Hlag Hlen.
  split; [apply read_out_of_range; lia |].
  split; [apply correlation_at_short; lia |].
  split; [now apply Hnan |].
  split; [apply is_peak_NaN_false; left; now apply Hnan |].
  split; apply is_peak_NaN_false.
  - right. right. replace (lag - 1 + 1)%Z with lag by lia. now apply Hnan.
  - right. left. replace (lag + 1 - 1)%Z with lag by lia. now apply Hnan.
Qed.

(** C4 as stated fails, at 44100 Hz where [windowSize + maxLag = 2726]:
    a buffer of one sample is answered with [-1], the value for no
    signal; and the first 2149 samples of the two-click frame are
    answered with 441 Hz, although the loop reads past the end of the
    buffer for every lag from 102 on.  Neither call throws. *)
Lemma short_buffer_counterexample :
  autocorrelate [Fin 1] (Fin 44100) = Normal (Fin (-1))
  /\ length short_click_frame = 2149%nat
  /\ (windowSize + maxLag_of 44100 = 2726)%Z
  /\ read short_click_frame (windowSize - 1 + 102) = NaN
  /\ autocorrelate short_click_frame (Fin 44100) = Normal (Fin 441).
Proof.
  split.
  { apply too_short_no_signal; [exact allocatable_44100 |].
    rewrite minLag_of_44100. unfold windowSize. cbn [length]. lia. }
  split; [now vm_compute |].
  split; [rewrite maxLag_of_44100; reflexivity |].
  split; [|exact short_click_frame_frequency].
  apply read_out_of_range. right.
  replace (length short_click_frame) with 2149%nat by now vm_compute.
  unfold windowSize. lia.
Qed.

(** The amended C4 on a buffer of one sample at 44100 Hz, where every
    lag of 44 to 678 reads past the end: [-1] is returned. *)
Lemma short_buffer_is_not_rejected_witness :
  correlation_at [Fin 1] 44 = NaN
  /\ autocorrelate [Fin 1] (Fin 44100) = Normal (Fin (-1)).
Proof.
  assert (Z.of_nat (length [Fin 1]) < windowSize + maxLag_of 44100)%Z as Hshort
    by (rewrite maxLag_of_44100; unfold windowSize; cbn [length]; lia).
  destruct (short_buffer_is_not_rejected [Fin 1] 44100
              allocatable_44100 Hshort) as (_ & Hlag & Hall).
  split.
  - apply (Hlag 44%Z).
    + rewrite minLag_of_44100, maxLag_of_44100. lia.
    + unfold windowSize. cbn [length]. lia.
  - apply Hall. rewrite minLag_of_44100. unfold windowSize. cbn [length]. lia.
Defined.

End EstimatorClaims.

(* ================================================================== *)
(** ** More frames at 44100 Hz *)
(* ================================================================== *)

Section MoreFrames.
Local Open Scope R_scope.

Lemma fast_click_frame_frequency :
  autocorrelate fast_click_frame (Fin 44100) = Normal (Fin (44100 / 44)).
Proof.
  unfold fast_click_frame.
  rewrite (autocorrelate_embed _ 44100 44 678 44 (IFin 1)
             allocatable_44100 minLag_of_44100 maxLag_of_44100);
    [| vm_compute; lia | now vm_compute | now vm_compute].
  cbn [Z.eqb ibelow_floor Z.leb Z.compare orb].
  rewrite (refine_lag_embed _ 44 678 0 1 0);
    [| lia | now vm_compute | now vm_compute | now vm_compute | lia | lia].
  assert (parabola_vertex 44 0 1 0 = 44) as ->
    by (unfold parabola_vertex; field).
  rewrite div_Fin_nonzero by lra. reflexivity.
Qed.



End MoreFrames.

(* ================================================================== *)
(** ** The band of the frequencies [autocorrelate] returns *)
(* ================================================================== *)

Section DetectedBand.
Local Open Scope R_scope.
Implicit Types (buffer : list number) (sampleRate f : R).

(** A value other than [-1] and [NaN] is the sample rate over a refined
    lag within half a sample of [bestLag], a candidate of the range. *)
Lemma detected_lag buffer sampleRate f :
  allocatable sampleRate ->
  autocorrelate buffer (Fin sampleRate) = Normal (Fin f) -> f <> -1 ->
  exists r,
    f * r = sampleRate /\ 0 < f
    /\ IZR (bestLag_for buffer sampleRate) - / 2 < r
       < IZR (bestLag_for buffer sampleRate) + / 2
    /\ (minLag_of sampleRate <= bestLag_for buffer sampleRate
        < maxLag_of sampleRate)%Z
    /\ (1 <= bestLag_for buffer sampleRate)%Z
    /\ is_peak (correlations_for buffer sampleRate)
               (bestLag_for buffer sampleRate) = true.
Proof.
  intros Halloc E Hf.
  destruct (rms buffer <? Fin MIN_RMS_THRESHOLD)%num eqn:Hgate.
  { rewrite autocorrelate_gate_closed in E by assumption.
    injection E as E. lra. }
  rewrite autocorrelate_after_gate in E by assumption.
  destruct (Z.eqb_spec (bestLag_for buffer sampleRate) (-1)) as [Hb|Hb].
  { cbn [orb] in E. injection E as E. lra. }
  destruct (maxCorrelation_for buffer sampleRate <? Fin 0.01)%num.
  { cbn [orb] in E. injection E as E. lra. }
  cbn [orb] in E.
  destruct (best_lag_is_peak buffer sampleRate Hb)
    as (Hrange & Hpos & Hpeak & _).
  destruct (refine_lag_peak _ _ (maxLag_of sampleRate) Hpeak ltac:(lia))
    as [En|(r & Er & Hr1 & Hr2)].
  { rewrite En in E. discriminate E. }
  rewrite Er in E.
  assert (1 <= IZR (bestLag_for buffer sampleRate)) as H1
    by (apply IZR_le; lia).
  rewrite div_Fin_nonzero in E by lra. injection E as E.
  destruct Halloc as [Hsr _].
  exists r. subst f.
  split; [field; lra |].
  split; [apply Rdiv_lt_0_compat; lra |].
  split; [split; assumption |].
  repeat split; try assumption; lia.
Qed.

(** The bounds the lag range puts on the refined lag of a frequency
    returned. *)
Lemma refined_lag_bounds buffer sampleRate f :
  allocatable sampleRate ->
  autocorrelate buffer (Fin sampleRate) = Normal (Fin f) -> f <> -1 ->
  exists r,
    f * r = sampleRate /\ 0 < f /\ / 2 < r
    /\ IZR (minLag_of sampleRate) - / 2 < r
    /\ MIN_FREQUENCY * r < sampleRate
    /\ sampleRate < MAX_FREQUENCY * r + 1500.
Proof.
  intros Halloc E Hf.
  destruct (detected_lag buffer sampleRate f Halloc E Hf)
    as (r & Efr & Hfpos & [Hlo Hhi] & [Hmin Hmax] & H1 & _).
  apply IZR_le in Hmin, H1.
  assert (IZR (bestLag_for buffer sampleRate) + 1
          <= IZR (maxLag_of sampleRate)) as Hmax'
    by (rewrite <- plus_IZR; apply IZR_le; lia).
  pose proof (floorZ_bounds (sampleRate / MIN_FREQUENCY)) as [Hfl _].
  pose proof (floorZ_bounds (sampleRate / MAX_FREQUENCY)) as [_ Hfm].
  fold (maxLag_of sampleRate) in Hfl. fold (minLag_of sampleRate) in Hfm.
  unfold MIN_FREQUENCY, MAX_FREQUENCY in *.
  apply Rmult_le_compat_l with (r := 65) in Hfl; [|lra].
  replace (65 * (sampleRate / 65)) with sampleRate in Hfl by (field; lra).
  apply Rmult_lt_compat_l with (r := 1000) in Hfm; [|lra].
  replace (1000 * (sampleRate / 1000)) with sampleRate in Hfm
    by (field; lra).
  exists r. repeat split; try assumption; lra.
Qed.

(** X1.  Every frequency [autocorrelate] returns is above [MIN_FREQUENCY].
    It is below the sample rate over [minLag - 1/2], a bound above
    [MAX_FREQUENCY], and below twice the sample rate; from 3000 Hz on
    it is below twice [MAX_FREQUENCY]. *)
Theorem detected_frequency_band buffer sampleRate f :
  allocatable sampleRate ->
  autocorrelate buffer (Fin sampleRate) = Normal (Fin f) -> f <> -1 ->
  MIN_FREQUENCY < f
  /\ f * (IZR (minLag_of sampleRate) - / 2) < sampleRate
  /\ f < 2 * sampleRate
  /\ (3000 <= sampleRate -> f < 2 * MAX_FREQUENCY).
Proof.
  intros Halloc E Hf.
  destruct (refined_lag_bounds buffer sampleRate f Halloc E Hf)
    as (r & Efr & Hfpos & Hhalf & Hmin & H65 & H1000).
  unfold MIN_FREQUENCY, MAX_FREQUENCY in *.
  split; [|split; [|split]].
  - (* [65 * r < f * r] *)
    apply Rmult_lt_reg_r with r; lra.
  - apply Rlt_le_trans with (f * r);
      [apply Rmult_lt_compat_l; assumption | lra].
  - (* [f * (1/2) < f * r] *)
    assert (f * / 2 < f * r) by (apply Rmult_lt_compat_l; assumption).
    lra.
  - intros H3000.
    (* [r > 3/2], so [f * r < 2000 * r] *)
    apply Rmult_lt_reg_r with r; [lra |]. nra.
Qed.

(** The band at 44100 Hz on two clicks 44 samples apart: the frequency
    returned, 44100 / 44, is above [MAX_FREQUENCY]. *)
Lemma detected_frequency_band_witness :
  MAX_FREQUENCY < 44100 / 44
  /\ MIN_FREQUENCY < 44100 / 44
  /\ 44100 / 44 * (IZR (minLag_of 44100) - / 2) < 44100
  /\ 44100 / 44 < 2 * 44100
  /\ (3000 <= 44100 -> 44100 / 44 < 2 * MAX_FREQUENCY).
Proof.
  split; [unfold MAX_FREQUENCY; lra |].
  apply (detected_frequency_band fast_click_frame 44100 (44100 / 44)
           allocatable_44100 fast_click_frame_frequency).
  lra.
Defined.


(** X2.  The buffer bounds the lag: a frequency returned for a buffer of
    [n] samples is above the sample rate over [n - windowSize - 1/2]. *)
Theorem detected_frequency_buffer_bound buffer sampleRate f :
  allocatable sampleRate ->
  autocorrelate buffer (Fin sampleRate) = Normal (Fin f) -> f <> -1 ->
  (windowSize + minLag_of sampleRate + 1 <= Z.of_nat (length buffer))%Z
  /\ sampleRate
     < f * (IZR (Z.of_nat (length buffer)) - IZR windowSize - / 2).
Proof.
  intros Halloc E Hf.
  destruct (detected_lag buffer sampleRate f Halloc E Hf)
    as (r & Efr & Hfpos & [Hlo Hhi] & [Hmin Hmax] & H1 & Hpeak).
  set (b := bestLag_for buffer sampleRate) in *.
  assert (windowSize + b + 1 <= Z.of_nat (length buffer))%Z as Hlen.
  { destruct (Z_le_gt_dec (windowSize + b + 1) (Z.of_nat (length buffer)))
      as [|Hgt]; [assumption | exfalso].
    apply is_peak_true in Hpeak as [_ H3].
    apply lt_not_NaN in H3 as [H3 _]. apply H3.
    apply short_lag_correlation; [apply Halloc | lia | lia]. }
  split; [lia |].
  apply IZR_le in Hlen. rewrite !plus_IZR in Hlen.
  nra.
Qed.

Lemma detected_frequency_buffer_bound_witness :
  (windowSize + minLag_of 44100 + 1 <= Z.of_nat (length click_frame))%Z
  /\ 44100 < 441 * (IZR (Z.of_nat (length click_frame)) - IZR windowSize - / 2).
Proof.
  apply (detected_frequency_buffer_bound click_frame 44100 441
           allocatable_44100 click_frame_frequency).
  lra.
Defined.

End DetectedBand.

(* ================================================================== *)
(** ** Reads of the correlation loop *)
(* ================================================================== *)

Section WindowReads.
Local Open Scope R_scope.
Implicit Types (buffer : list number) (sampleRate : R) (lag : Z).








(** X4.  A [NaN] among the first [windowSize] samples, or a buffer that
    ends before them, leaves no candidate: [-1] is returned. *)
Theorem nan_in_window_no_signal buffer sampleRate (i : Z) :
  allocatable sampleRate ->
  (0 <= i < windowSize)%Z -> read buffer i = NaN ->
  autocorrelate buffer (Fin sampleRate) = Normal (Fin (-1)).
Proof.
  intros Halloc Hi Ei.
  apply no_candidate_no_signal; [assumption |].
  intros lag Hlag. apply is_peak_NaN_false. left.
  pose proof (minLag_of_nonneg sampleRate (proj1 Halloc)).
  unfold correlations_for. rewrite read_correlations_of.
  repeat case_decide; try lia.
  unfold correlation_at.
  apply (fold_add_NaN_term
           (fun i => read buffer i * read buffer (i + lag))%num _ _ i).
  - apply elem_of_seqZ. lia.
  - rewrite Ei. reflexivity.
Qed.

Lemma nan_in_window_no_signal_witness :
  autocorrelate [NaN] (Fin 44100) = Normal (Fin (-1)).
Proof.
  apply (nan_in_window_no_signal [NaN] 44100 0 allocatable_44100);
    [unfold windowSize; lia | reflexivity].
Defined.

End WindowReads.

(* ================================================================== *)
(** ** Constant buffers *)
(* ================================================================== *)

Section ConstantFrames.
Local Open Scope R_scope.

Lemma lt_irrefl a : (a <? a)%num = false.
Proof.
  destruct a as [x| | |]; try reflexivity.
  cbn [lt]. apply Rltb_false. lra.
Qed.

Lemma fold_add_ext {A} (g h : A -> number) (l : list A) acc :
  (forall i, i ∈ l -> g i = h i) ->
  fold_left (fun c i => c + g i)%num l acc
  = fold_left (fun c i => c + h i)%num l acc.
Proof.
  revert acc. induction l as [|j l IH]; intros acc Hg; cbn [fold_left].
  - reflexivity.
  - rewrite (Hg j) by now left. apply IH.
    intros i Hi. apply Hg. now right.
Qed.

(** The correlation of a constant buffer is the same at every lag whose
    window stays inside the buffer. *)
Lemma correlation_at_constant n c lag :
  (0 <= lag)%Z -> (windowSize + lag <= Z.of_nat n)%Z ->
  correlation_at (constant_frame n c) lag
  = fold_left (fun acc (_ : Z) => acc + Fin c * Fin c)%num
              (seqZ 0 windowSize) (Fin 0).
Proof.
  intros Hlag Hlen. unfold correlation_at.
  apply (fold_add_ext
           (fun i => read (constant_frame n c) i
                     * read (constant_frame n c) (i + lag))%num
           (fun _ => Fin c * Fin c)%num).
  intros i Hi. apply elem_of_seqZ in Hi. unfold constant_frame.
  rewrite !read_replicate by lia. reflexivity.
Qed.

(** Every slot of the array of a constant buffer from [minLag] on
    holds the common correlation or [NaN]. *)
Lemma constant_frame_slot n c sampleRate :
  0 < sampleRate ->
  exists common, forall lag,
    (minLag_of sampleRate <= lag)%Z ->
    read (correlations_for (constant_frame n c) sampleRate) lag = common
    \/ read (correlations_for (constant_frame n c) sampleRate) lag = NaN.
Proof.
  intros Hsr.
  exists (fold_left (fun acc (_ : Z) => acc + Fin c * Fin c)%num
                    (seqZ 0 windowSize) (Fin 0)).
  intros lag Hlag.
  pose proof (minLag_of_nonneg sampleRate Hsr).
  unfold correlations_for. rewrite read_correlations_of.
  repeat case_decide; try lia; [|now right].
  destruct (Z_le_gt_dec (windowSize + lag) (Z.of_nat n)).
  - left. apply correlation_at_constant; lia.
  - right. apply correlation_at_short; [lia |].
    unfold constant_frame. rewrite length_replicate. lia.
Qed.

(** X5.  A constant buffer of any length and level has no candidate: no
    correlation exceeds the next one, and [-1] is returned. *)
Theorem constant_frame_no_signal (n : nat) (c sampleRate : R) :
  allocatable sampleRate ->
  autocorrelate (constant_frame n c) (Fin sampleRate) = Normal (Fin (-1)).
Proof.
  intros Halloc. apply no_candidate_no_signal; [assumption |].
  intros lag Hlag.
  destruct (is_peak _ lag) eqn:Hp; [exfalso | reflexivity].
  apply is_peak_true in Hp as [_ H3].
  destruct (constant_frame_slot n c sampleRate (proj1 Halloc))
    as [common Hslot].
  pose proof (lt_not_NaN _ _ H3) as [Hn' Hn].
  destruct (Hslot lag ltac:(lia)) as [E|E]; [|contradiction].
  destruct (Hslot (lag + 1)%Z ltac:(lia)) as [E'|E']; [|contradiction].
  rewrite E, E', lt_irrefl in H3. discriminate.
Qed.

Lemma constant_frame_no_signal_witness :
  autocorrelate (constant_frame FFT_SIZE (/ 2)) (Fin 44100)
  = Normal (Fin (-1)).
Proof.
  exact (constant_frame_no_signal FFT_SIZE (/ 2) 44100 allocatable_44100).
Defined.

End ConstantFrames.

(* ================================================================== *)
(** ** The nearest note: range, order and deviation *)
(* ================================================================== *)

Section NearestNote.
Local Open Scope R_scope.


Lemma log2_le x y : 0 < x -> x <= y -> log2 x <= log2 y.
Proof.
  intros Hx [Hlt| ->]; [|lra]. apply Rlt_le. now apply log2_lt.
Qed.



(** X6.  A higher frequency never resolves to a lower note. *)
Theorem closest_index_monotone f g :
  0 < f -> f <= g -> (closest_index f <= closest_index g)%Z.
Proof.
  intros Hf Hfg. unfold closest_index, roundZ.
  apply Z.add_le_mono_r, floorZ_mono.
  assert (log2 (f / 440) <= log2 (g / 440)); [|lra].
  apply log2_le; [apply Rdiv_lt_0_compat; lra |].
  unfold Rdiv. apply Rmult_le_compat_r; lra.
Qed.

Lemma closest_index_monotone_witness :
  (closest_index 440 <= closest_index 880)%Z.
Proof. apply (closest_index_monotone 440 880); lra. Defined.





End NearestNote.

(* ================================================================== *)
(** ** A frame in auto mode *)
(* ================================================================== *)

Section AutoTick.
Local Open Scope R_scope.











End AutoTick.

(* ================================================================== *)
(** ** What [updateUI] shows *)
(* ================================================================== *)

Section Rendering.
Local Open Scope R_scope.
Implicit Types (frequency o : number) (n : string) (c : R).

Lemma tuning_real frequency n o c :
  tuning (updateUI frequency n o (Fin c))
  = if Rleb (Rabs c) CENTS_TOLERANCE then green
    else if Rleb (Rabs c) 20 then yellow else red.
Proof. reflexivity. Qed.

(** The rotation for a real deviation: nine tenths of a degree per
    cent, stopped at 45 degrees either way. *)
Lemma needle_real frequency n o c :
  needle (updateUI frequency n o (Fin c))
  = Fin (if Rltb c (-50) then -45 else if Rltb 50 c then 45 else c * 0.9).
Proof.
  unfold updateUI. cbn [needle mul Math_min Math_max lt].
  destruct (Rltb c (-50)) eqn:Elo; reals_bool.
  - replace (Rltb (c * 0.9) 45) with true by (symmetry; reals_bool; lra).
    cbn [lt]. replace (Rltb (-45) (c * 0.9)) with false
      by (symmetry; reals_bool; lra).
    reflexivity.
  - destruct (Rltb 50 c) eqn:Ehi; reals_bool.
    + replace (Rltb (c * 0.9) 45) with false by (symmetry; reals_bool; lra).
      cbn [lt]. replace (Rltb (-45) 45) with true
        by (symmetry; reals_bool; lra).
      reflexivity.
    + destruct (Rltb (c * 0.9) 45) eqn:E45; reals_bool; cbn [lt].
      * destruct (Rltb (-45) (c * 0.9)) eqn:E; reals_bool;
          [reflexivity | f_equal; lra].
      * replace (Rltb (-45) 45) with true by (symmetry; reals_bool; lra).
        f_equal. lra.
Qed.

(** X10.  [updateUI] on a real deviation.  The needle turns nine tenths of a
    degree per cent and stops at 45 degrees either way, reached at 50
    cents.  The colour is green up to [CENTS_TOLERANCE] cents either
    way, yellow up to 20 and red beyond.  The number shown is the
    deviation rounded, with a plus sign from -0.5 cents on. *)
Theorem updateUI_real_cents frequency n o c :
  (c <= -50 -> needle (updateUI frequency n o (Fin c)) = Fin (-45))
  /\ (-50 <= c <= 50 ->
      needle (updateUI frequency n o (Fin c)) = Fin (c * 0.9))
  /\ (50 <= c -> needle (updateUI frequency n o (Fin c)) = Fin 45)
  /\ (tuning (updateUI frequency n o (Fin c)) = green
      <-> Rabs c <= CENTS_TOLERANCE)
  /\ (tuning (updateUI frequency n o (Fin c)) = yellow
      <-> CENTS_TOLERANCE < Rabs c <= 20)
  /\ (tuning (updateUI frequency n o (Fin c)) = red <-> 20 < Rabs c)
  /\ (centsDisplay (updateUI frequency n o (Fin c))).2
     = Fin (IZR (roundZ c))
  /\ ((centsDisplay (updateUI frequency n o (Fin c))).1 = true
      <-> - / 2 <= c).
Proof.
  rewrite tuning_real, needle_real. unfold CENTS_TOLERANCE.
  repeat apply conj.
  - intros H. destruct (Rltb c (-50)) eqn:E; reals_bool; [reflexivity |].
    replace (Rltb 50 c) with false by (symmetry; reals_bool; lra).
    f_equal. lra.
  - intros [H1 H2].
    replace (Rltb c (-50)) with false by (symmetry; reals_bool; lra).
    replace (Rltb 50 c) with false by (symmetry; reals_bool; lra).
    reflexivity.
  - intros H.
    replace (Rltb c (-50)) with false by (symmetry; reals_bool; lra).
    destruct (Rltb 50 c) eqn:E; reals_bool; [reflexivity |].
    f_equal. lra.
  - destruct (Rleb (Rabs c) 5) eqn:E5; reals_bool; [intros _; lra |].
    destruct (Rleb (Rabs c) 20); discriminate.
  - intros H.
    replace (Rleb (Rabs c) 5) with true by (symmetry; reals_bool; lra).
    reflexivity.
  - destruct (Rleb (Rabs c) 5) eqn:E5; reals_bool; [discriminate |].
    destruct (Rleb (Rabs c) 20) eqn:E20; reals_bool;
      [intros _; lra | discriminate].
  - intros [H5 H20].
    replace (Rleb (Rabs c) 5) with false by (symmetry; reals_bool; lra).
    replace (Rleb (Rabs c) 20) with true by (symmetry; reals_bool; lra).
    reflexivity.
  - destruct (Rleb (Rabs c) 5) eqn:E5; reals_bool; [discriminate |].
    destruct (Rleb (Rabs c) 20) eqn:E20; reals_bool;
      [discriminate | intros _; assumption].
  - intros H20.
    replace (Rleb (Rabs c) 5) with false by (symmetry; reals_bool; lra).
    replace (Rleb (Rabs c) 20) with false by (symmetry; reals_bool; lra).
    reflexivity.
  - reflexivity.
  - cbn [updateUI centsDisplay snd Math_round ge le fst]. intros H.
    reals_bool. unfold roundZ in H.
    pose proof (floorZ_bounds (c + / 2)) as [Hlo _]. lra.
  - cbn [updateUI centsDisplay snd Math_round ge le fst]. intros H.
    reals_bool. apply IZR_le. unfold roundZ. apply floorZ_ge. lra.
Qed.

(** X11.  A target that cannot be used.  Against a target frequency of zero,
    the placeholder's, the deviation is [+Infinity]: red, the needle at
    its right stop, "+Infinity cents".  Against [NaN], what
    [parseFloat] returns for a string button without a frequency, the
    deviation is [NaN]: red, a rotation of [NaN] degrees, "NaN cents"
    without a sign. *)
Theorem unusable_target_display (detected : R) n o :
  0 < detected ->
  (let shown :=
     updateUI (Fin detected) n o
       (calculateCents (Fin detected) (Fin 0)) in
   tuning shown = red /\ needle shown = Fin 45
   /\ centsDisplay shown = (true, PInf))
  /\ (let shown :=
        updateUI (Fin detected) n o (calculateCents (Fin detected) NaN) in
      tuning shown = red /\ needle shown = NaN
      /\ centsDisplay shown = (false, NaN)).
Proof.
  intros Hd. cbv zeta. unfold calculateCents. cbn [div].
  replace (Reqb 0 0) with true by (symmetry; now reals_bool).
  rewrite (Rsign_pos detected Hd). cbn [signed_inf Math_log2 mul].
  replace (Rsign 1200) with Gt by (symmetry; apply Rsign_pos; lra).
  cbn [signed_inf]. unfold updateUI.
  cbn [tuning needle centsDisplay Math_abs Math_round le ge mul].
  replace (Rsign 0.9) with Gt by (symmetry; apply Rsign_pos; lra).
  cbn [signed_inf Math_min Math_max lt].
  replace (Rltb (-45) 45) with true by (symmetry; reals_bool; lra).
  now repeat split.
Qed.

Lemma unusable_target_display_witness :
  (let shown :=
     updateUI (Fin 440) "A" (Fin 4) (calculateCents (Fin 440) (Fin 0)) in
   tuning shown = red /\ needle shown = Fin 45
   /\ centsDisplay shown = (true, PInf))
  /\ (let shown :=
        updateUI (Fin 440) "A" (Fin 4) (calculateCents (Fin 440) NaN) in
      tuning shown = red /\ needle shown = NaN
      /\ centsDisplay shown = (false, NaN)).
Proof. apply (unusable_target_display 440 "A" (Fin 4)). lra. Defined.


End Rendering.

(* ================================================================== *)
(** ** The page over its events *)
(* ================================================================== *)

Section PageEvents.
Implicit Types (p : Page) (ev : Event) (events : list Event).

(** Showing effects leaves the variables of the script alone. *)
Lemma show_all_variables (effects : list Effect) p :
  let q := fold_left (fun q e => show e q) effects p in
  tuner q = tuner p /\ audioContext q = audioContext p
  /\ microphone q = microphone p /\ pendingStarts q = pendingStarts p.
Proof.
  revert p. induction effects as [|e effects IH]; intros p; cbn [fold_left].
  - now repeat split.
  - destruct (IH (show e p)) as (-> & -> & -> & ->).
    now destruct e.
Qed.

Lemma on_page_variables (r : State * list Effect) p :
  tuner (on_page r p) = r.1 /\ audioContext (on_page r p) = audioContext p
  /\ microphone (on_page r p) = microphone p
  /\ pendingStarts (on_page r p) = pendingStarts p.
Proof.
  exact (show_all_variables r.2
           {| tuner := r.1;
              audioContext := audioContext p;
              microphone := microphone p;
              screen := screen p;
              statusBar := statusBar p;
              pendingStarts := pendingStarts p |}).
Qed.

(** [audioLoop] never writes [analyser] or [isListening]. *)
Lemma audioLoop_keeps_session st audioBuffer sampleRate handle st' effects :
  audioLoop st audioBuffer sampleRate handle = Normal (st', effects) ->
  analyser st' = analyser st /\ isListening st' = isListening st.
Proof.
  unfold audioLoop.
  destruct (negb (analyser st) || negb (isListening st)).
  - intros [= <- _]. now split.
  - destruct (autocorrelate audioBuffer sampleRate) as [f| |];
      cbn [mbind completion_bind]; try discriminate.
    destruct (if (f >? Fin 0)%num then _ else _) as [e| |];
      try discriminate.
    intros [= <- _]. now split.
Qed.


Lemma handle_event_invariant p ev :
  page_invariant p -> page_invariant (handle_event p ev).
Proof.
  intros (Hmode & Han & Hres). unfold page_invariant.
  assert (forall P : Prop, isListening (tuner p) = true ->
            (audioContext p = true -> microphone p = true -> P) -> P)
    as Hres' by (intros P El HP; destruct (Hres El); auto).
  destruct ev as [created|audioBuffer sampleRate handle|
                  |audioBuffer sampleRate handle| | |n o f|];
    cbn [handle_event].
  - destruct (isListening (tuner p)) eqn:El; [|destruct created];
      cbn; rewrite ?El; (split; [|split]); intros;
      first [discriminate | reflexivity | auto].
  - destruct (pendingStarts p); [exact (conj Hmode (conj Han Hres)) |].
    unfold startAudio_granted.
    cbn [resumed audioContext tuner microphone screen statusBar
         pendingStarts].
    destruct (audioContext p) eqn:Ec.
    + destruct (audioLoop _ audioBuffer sampleRate handle)
        as [[st' effects]| |] eqn:Eloop.
      * match goal with
        | |- context [on_page ?r ?q] =>
            destruct (on_page_variables r q) as (-> & -> & -> & _)
        end.
        apply audioLoop_keeps_session in Eloop as Hs.
        apply audioLoop_keeps_selection in Eloop as Hk.
        cbn in Hs, Hk |- *. destruct Hs as [-> ->], Hk as [-> ->].
        (split; [|split]); intros; first [reflexivity | auto].
      * cbn. (split; [|split]); intros; first [reflexivity | auto].
      * cbn. (split; [|split]); intros; first [reflexivity | auto].
    + cbn. rewrite ?Ec. (split; [|split]); intros; auto.
      all: apply (Hres' _ ltac:(eassumption)); congruence.
  - destruct (pendingStarts p); [exact (conj Hmode (conj Han Hres)) |].
    cbn. exact (conj Hmode (conj Han Hres)).
  - destruct (audioLoop (tuner p) audioBuffer sampleRate handle)
      as [[st' effects]| |] eqn:Eloop;
      [|exact (conj Hmode (conj Han Hres))..].
    destruct (on_page_variables (st', effects) p) as (-> & -> & -> & _).
    apply audioLoop_keeps_session in Eloop as Hs.
    apply audioLoop_keeps_selection in Eloop as Hk.
    cbn in Hs, Hk |- *. destruct Hs as [-> ->], Hk as [-> ->].
    exact (conj Hmode (conj Han Hres)).
  - destruct (on_page_variables (setAutoMode (tuner p)) p)
      as (-> & -> & -> & _).
    cbn. (split; [|split]); intros; first [reflexivity | auto].
  - destruct (on_page_variables (setManualMode (tuner p)) p)
      as (-> & -> & -> & _).
    cbn. (split; [|split]); intros; first [discriminate | auto].
  - destruct (on_page_variables (selectNote n o f (tuner p)) p)
      as (-> & -> & -> & _).
    unfold selectNote. cbn [currentMode].
    destruct (currentMode (tuner p)); cbn;
      (split; [|split]); intros; first [discriminate | auto].
  - destruct (isListening (tuner p)) eqn:El.
    + cbn. (split; [|split]); intros; first [discriminate | auto].
    + rewrite El. exact (conj Hmode (conj Han Hres)).
Qed.

Lemma run_events_invariant events p :
  page_invariant p -> page_invariant (run_events p events).
Proof.
  revert p. induction events as [|ev events IH]; intros p Hp;
    cbn [run_events fold_left]; [assumption |].
  apply IH. now apply handle_event_invariant.
Qed.

(** X12.  From the page as loaded, whatever happens: in auto mode no target
    is held; the analyser is set exactly while the tuner listens; and
    while it listens the audio context and the microphone are set. *)
Theorem reachable_page_invariant events :
  page_invariant (run_events initial_page events).
Proof.
  apply run_events_invariant. unfold page_invariant, initial_page. cbn.
  split; [reflexivity |]. split; [reflexivity | discriminate].
Qed.




Lemma session_event_keeps_selection p ev :
  session_event ev = true ->
  currentMode (tuner (handle_event p ev)) = currentMode (tuner p)
  /\ selectedNote (tuner (handle_event p ev)) = selectedNote (tuner p).
Proof.
  destruct ev as [created|audioBuffer sampleRate handle|
                  |audioBuffer sampleRate handle| | |n o f|];
    cbn [session_event handle_event]; try discriminate; intros _.
  - destruct (isListening (tuner p)); [|destruct created]; now split.
  - destruct (pendingStarts p); [now split |].
    unfold startAudio_granted.
    cbn [resumed audioContext tuner microphone screen statusBar
         pendingStarts].
    destruct (audioContext p); [|now split].
    destruct (audioLoop _ audioBuffer sampleRate handle)
      as [[st' effects]| |] eqn:Eloop; [|now split..].
    match goal with
    | |- context [on_page ?r ?q] =>
        destruct (on_page_variables r q) as (-> & _)
    end.
    apply audioLoop_keeps_selection in Eloop. exact Eloop.
  - destruct (pendingStarts p); now split.
  - destruct (audioLoop (tuner p) audioBuffer sampleRate handle)
      as [[st' effects]| |] eqn:Eloop; [|now split..].
    destruct (on_page_variables (st', effects) p) as (-> & _).
    apply audioLoop_keeps_selection in Eloop. exact Eloop.
  - destruct (isListening (tuner p)); now split.
Qed.

(** X14.  Starting and stopping the tuner, the answer to the request for the
    microphone, animation frames and hiding the page never change the
    mode or the selected string. *)
Theorem session_keeps_selection events p :
  Forall (fun ev => session_event ev = true) events ->
  currentMode (tuner (run_events p events)) = currentMode (tuner p)
  /\ selectedNote (tuner (run_events p events)) = selectedNote (tuner p).
Proof.
  intros H. revert p.
  induction H as [|ev events Hev _ IH]; intros p; [now split |].
  change (run_events p (ev :: events))
    with (run_events (handle_event p ev) events).
  destruct (IH (handle_event p ev)) as [-> ->].
  now apply session_event_keeps_selection.
Qed.

(** A grant that finds the audio context set makes the tuner listen,
    also when the first run of the loop throws. *)
Lemma grant_with_context p audioBuffer sampleRate handle (n : nat) :
  audioContext p = true -> pendingStarts p = S n ->
  isListening (tuner (handle_event p
                        (MediaGranted audioBuffer sampleRate handle)))
  = true
  /\ pendingStarts (handle_event p
                      (MediaGranted audioBuffer sampleRate handle)) = n.
Proof.
  intros Ec Ep. cbn [handle_event]. rewrite Ep.
  unfold startAudio_granted.
  cbn [resumed audioContext tuner microphone screen statusBar
       pendingStarts].
  rewrite Ec, Ep. cbn [Nat.pred].
  destruct (audioLoop _ audioBuffer sampleRate handle)
    as [[st' effects]| |] eqn:Eloop; [|now split..].
  match goal with
  | |- context [on_page ?r ?q] =>
      destruct (on_page_variables r q) as (-> & _ & _ & ->)
  end.
  apply audioLoop_keeps_session in Eloop as [_ Hl].
  cbn in Hl |- *. now split.
Qed.

Lemma session_keeps_selection_witness :
  currentMode
    (tuner (run_events initial_page
              [ClickStart true; MediaDenied; PageHidden])) = auto
  /\ selectedNote
       (tuner (run_events initial_page
                 [ClickStart true; MediaDenied; PageHidden])) = None.
Proof.
  apply (session_keeps_selection
           [ClickStart true; MediaDenied; PageHidden] initial_page).
  repeat constructor.
Defined.

(** X15.  Two clicks on the start button before the microphone is granted
    start two calls of [startAudio].  When the tuner is stopped between
    the two grants, the second call finds [audioContext] cleared: it
    reports the microphone error, although access was granted, and the
    tuner does not listen. *)
Theorem late_grant_reports_error
    (frame1 frame2 : list number) (rate1 rate2 : number)
    (handle1 handle2 : Z) (created : bool) :
  let p := run_events initial_page
             [ClickStart true; ClickStart true;
              MediaGranted frame1 rate1 handle1;
              ClickStart created;
              MediaGranted frame2 rate2 handle2] in
  statusBar p = MicrophoneError
  /\ isListening (tuner p) = false
  /\ audioContext p = false
  /\ screen p = resetUI
  /\ pendingStarts p = 0%nat.
Proof.
  set (p2 := run_events initial_page [ClickStart true; ClickStart true]).
  set (q := handle_event p2 (MediaGranted frame1 rate1 handle1)).
  change (run_events initial_page _)
    with (handle_event (handle_event q (ClickStart created))
            (MediaGranted frame2 rate2 handle2)).
  destruct (grant_with_context p2 frame1 rate1 handle1 1
              eq_refl eq_refl) as [El Ep].
  fold q in El, Ep. cbv zeta.
  cbn [handle_event]. rewrite El.
  cbn [stopAudio pendingStarts]. rewrite Ep.
  unfold startAudio_granted.
  cbn [resumed stopAudio startAudio_failed audioContext tuner isListening
       statusBar screen pendingStarts].
  rewrite Ep. now repeat split.
Qed.

(** X16.  A start that is denied leaves the audio context it created: the
    tuner does not listen, the error is shown, and nothing closes the
    context until a later session is stopped. *)
Theorem denied_start_keeps_context p :
  isListening (tuner p) = false ->
  let p' := run_events p [ClickStart true; MediaDenied] in
  audioContext p' = true
  /\ isListening (tuner p') = false
  /\ statusBar p' = MicrophoneError
  /\ screen p' = screen p
  /\ pendingStarts p' = pendingStarts p.
Proof.
  intros El. cbn [run_events fold_left handle_event]. rewrite El.
  cbn. now rewrite El.
Qed.

Lemma denied_start_keeps_context_witness :
  audioContext (run_events initial_page [ClickStart true; MediaDenied])
  = true
  /\ isListening
       (tuner (run_events initial_page [ClickStart true; MediaDenied]))
     = false
  /\ statusBar (run_events initial_page [ClickStart true; MediaDenied])
     = MicrophoneError
  /\ screen (run_events initial_page [ClickStart true; MediaDenied])
     = screen initial_page
  /\ pendingStarts (run_events initial_page [ClickStart true; MediaDenied])
     = pendingStarts initial_page.
Proof. apply (denied_start_keeps_context initial_page). reflexivity. Defined.

End PageEvents.

(* ================================================================== *)
(** ** What a frame in auto mode shows *)
(* ================================================================== *)

Section AutoFrame.
Local Open Scope R_scope.



End AutoFrame.

(* ================================================================== *)
(** ** The display against a target frequency *)
(* ================================================================== *)

Section TargetBands.
Local Open Scope R_scope.






End TargetBands.

(* ================================================================== *)
(** ** Louder and quieter buffers *)
(* ================================================================== *)

Section Loudness.
Local Open Scope R_scope.
Variable a : R.
Hypothesis Ha : 0 < a.

Lemma Rsign_scale x : Rsign (a * x) = Rsign x.
Proof.
  destruct (Rtotal_order x 0) as [H|[->|H]].
  - rewrite !Rsign_neg by nra. reflexivity.
  - now rewrite Rmult_0_r.
  - rewrite !Rsign_pos by nra. reflexivity.
Qed.

Lemma scaled_PInf : scaled a PInf = PInf.
Proof. unfold scaled. cbn [mul]. now rewrite Rsign_pos. Qed.

Lemma scaled_NInf : scaled a NInf = NInf.
Proof. unfold scaled. cbn [mul]. now rewrite Rsign_pos. Qed.

Lemma scaled_NaN : scaled a NaN = NaN.
Proof. reflexivity. Qed.

Lemma scaled_Fin x : scaled a (Fin x) = Fin (a * x).
Proof. reflexivity. Qed.

Lemma scaled_signed_inf c : scaled a (signed_inf c) = signed_inf c.
Proof.
  destruct c; cbn [signed_inf];
    [apply scaled_NaN | apply scaled_NInf | apply scaled_PInf].
Qed.

End Loudness.

Create Rewrite HintDb scaled.
#[local] Hint Rewrite scaled_PInf scaled_NInf scaled_NaN scaled_Fin
  scaled_signed_inf Rsign_scale using (assumption || nra) : scaled.

Section LoudnessOperations.
Local Open Scope R_scope.
Variables a : R.
Hypothesis Ha : 0 < a.

Lemma scaled_add x y : scaled a (x + y)%num = (scaled a x + scaled a y)%num.
Proof.
  destruct x as [x| | |], y as [y| | |]; cbn [add];
    autorewrite with scaled; cbn [add]; try reflexivity.
  f_equal. ring.
Qed.

Lemma scaled_neg x : scaled a (neg x) = neg (scaled a x).
Proof.
  destruct x as [x| | |]; cbn [neg]; autorewrite with scaled; cbn [neg];
    try reflexivity.
  f_equal. ring.
Qed.

Lemma scaled_sub x y : scaled a (x - y)%num = (scaled a x - scaled a y)%num.
Proof. unfold sub. now rewrite scaled_add, scaled_neg. Qed.

Lemma scaled_mul x y :
  scaled (a * a) (x * y)%num = (scaled a x * scaled a y)%num.
Proof.
  assert (0 < a * a) as Haa by nra.
  destruct x as [x| | |], y as [y| | |]; cbn [mul];
    autorewrite with scaled; cbn [mul];
    rewrite ?Rsign_scale by assumption;
    autorewrite with scaled; try reflexivity.
  f_equal. ring.
Qed.

(** A constant factor commutes with the scaling. *)
Lemma scaled_factor c x : (Fin c * scaled a x)%num = scaled a (Fin c * x)%num.
Proof.
  destruct x as [x| | |]; autorewrite with scaled; cbn [mul];
    autorewrite with scaled; try reflexivity.
  f_equal. ring.
Qed.

Lemma scaled_div_const x c :
  (scaled a x / Fin c)%num = scaled a (x / Fin c)%num.
Proof.
  destruct x as [x| | |]; autorewrite with scaled; cbn [div].
  - destruct (Reqb c 0) eqn:Ec; autorewrite with scaled; [reflexivity |].
    reals_bool. f_equal. field. assumption.
  - destruct (Rltb c 0); now autorewrite with scaled.
  - destruct (Rltb c 0); now autorewrite with scaled.
  - reflexivity.
Qed.

(** A quotient does not change when both sides are scaled. *)
Lemma scaled_div x y : (scaled a x / scaled a y)%num = (x / y)%num.
Proof.
  destruct x as [x| | |], y as [y| | |]; autorewrite with scaled;
    cbn [div]; try reflexivity.
  - destruct (Reqb y 0) eqn:Ey; reals_bool.
    + subst y. rewrite Rmult_0_r.
      replace (Reqb 0 0) with true by (symmetry; now apply Reqb_true).
      now rewrite Rsign_scale.
    + replace (Reqb (a * y) 0) with false
        by (symmetry; apply Reqb_false; nra).
      f_equal. field. split; lra.
  - destruct (Rltb y 0) eqn:Ey; reals_bool.
    + replace (Rltb (a * y) 0) with true
        by (symmetry; apply Rltb_true; nra).
      reflexivity.
    + replace (Rltb (a * y) 0) with false
        by (symmetry; apply Rltb_false; nra).
      reflexivity.
  - destruct (Rltb y 0) eqn:Ey; reals_bool.
    + replace (Rltb (a * y) 0) with true
        by (symmetry; apply Rltb_true; nra).
      reflexivity.
    + replace (Rltb (a * y) 0) with false
        by (symmetry; apply Rltb_false; nra).
      reflexivity.
Qed.

Lemma scaled_lt x y : (scaled a x <? scaled a y)%num = (x <? y)%num.
Proof.
  destruct x as [x| | |], y as [y| | |]; autorewrite with scaled;
    cbn [lt]; try reflexivity.
  destruct (Rltb x y) eqn:E; reals_bool; nra.
Qed.

Lemma scaled_strict_neq_0 x :
  (scaled a x !== Fin 0)%num = (x !== Fin 0)%num.
Proof.
  destruct x as [x| | |]; autorewrite with scaled; cbn [strict_neq];
    try reflexivity.
  f_equal. destruct (Reqb x 0) eqn:E; reals_bool; nra.
Qed.

(** A value not below a positive threshold stays so when scaled up. *)
Lemma scaled_not_below x threshold :
  1 <= a -> 0 < threshold ->
  (x <? Fin threshold)%num = false ->
  (scaled a x <? Fin threshold)%num = false.
Proof.
  intros H1 Ht.
  destruct x as [x| | |]; autorewrite with scaled; cbn [lt];
    try (intros; assumption).
  intros H. reals_bool. nra.
Qed.

Lemma read_scaled (arr : list number) k :
  read (scaled a <$> arr) k = scaled a (read arr k).
Proof.
  unfold read. destruct (k <? 0)%Z; [reflexivity |].
  rewrite list_lookup_fmap. now destruct (arr !! Z.to_nat k).
Qed.

Lemma write_scaled (arr : list number) k v :
  write (scaled a <$> arr) k (scaled a v) = scaled a <$> write arr k v.
Proof.
  unfold write. destruct (k <? 0)%Z; [reflexivity |].
  now rewrite list_fmap_insert.
Qed.

Lemma is_peak_scaled (arr : list number) lag :
  is_peak (scaled a <$> arr) lag = is_peak arr lag.
Proof. unfold is_peak, gt. now rewrite !read_scaled, !scaled_lt. Qed.

Lemma peak_scan_scaled (arr : list number) lags bestLag m :
  peak_scan (scaled a <$> arr) lags bestLag (scaled a m)
  = ((peak_scan arr lags bestLag m).1,
     scaled a (peak_scan arr lags bestLag m).2).
Proof.
  revert bestLag m. induction lags as [|lag lags IH]; intros bestLag m;
    [reflexivity |].
  cbn [peak_scan]. rewrite is_peak_scaled. unfold gt.
  rewrite !read_scaled, scaled_lt, scaled_factor, scaled_lt.
  destruct (is_peak arr lag); [|apply IH].
  destruct (m <? read arr lag)%num;
    destruct (Fin 0.9 * read arr 0 <? read arr lag)%num;
    try reflexivity; apply IH.
Qed.

Lemma refine_lag_scaled (arr : list number) bestLag maxLag :
  refine_lag (scaled a <$> arr) bestLag maxLag = refine_lag arr bestLag maxLag.
Proof.
  unfold refine_lag.
  destruct ((0 <? bestLag)%Z && (bestLag <? maxLag)%Z); [|reflexivity].
  cbv zeta. rewrite !read_scaled.
  rewrite !scaled_factor, <- !scaled_add, <- !scaled_sub.
  rewrite !scaled_div_const, scaled_strict_neq_0.
  destruct (_ !== Fin 0)%num; [|reflexivity].
  now rewrite scaled_factor, scaled_div.
Qed.

End LoudnessOperations.

Section LoudBuffers.
Local Open Scope R_scope.
Variables a : R.
Hypothesis Ha : 0 < a.
Implicit Types buffer : list number.

Lemma scaled_zero : Fin 0 = scaled (a * a) (Fin 0).
Proof. unfold scaled. cbn [mul]. f_equal. ring. Qed.

Lemma sumSquares_amplified buffer :
  sumSquares (amplified a buffer) = scaled (a * a) (sumSquares buffer).
Proof.
  assert (0 < a * a) as Haa by nra.
  unfold sumSquares, amplified. rewrite scaled_zero at 1.
  generalize (Fin 0) as acc.
  induction buffer as [|x buffer IH]; intros acc; [reflexivity |].
  cbn [fmap list_fmap fold_left].
  rewrite <- (scaled_mul a Ha), <- (scaled_add (a * a) Haa). apply IH.
Qed.

Lemma fold_correlation_amplified buffer lag (l : list Z) acc :
  fold_left (fun correlation i =>
               correlation
               + read (amplified a buffer) i
                 * read (amplified a buffer) (i + lag))%num
            l (scaled (a * a) acc)
  = scaled (a * a)
      (fold_left (fun correlation i =>
                    correlation + read buffer i * read buffer (i + lag))%num
                 l acc).
Proof.
  assert (0 < a * a) as Haa by nra.
  unfold amplified.
  revert acc. induction l as [|i l IH]; intros acc; [reflexivity |].
  cbn [fold_left].
  rewrite !read_scaled, <- (scaled_mul a Ha), <- (scaled_add (a * a) Haa).
  apply IH.
Qed.

Lemma correlation_at_amplified buffer lag :
  correlation_at (amplified a buffer) lag
  = scaled (a * a) (correlation_at buffer lag).
Proof.
  unfold correlation_at. rewrite scaled_zero at 1.
  apply (fold_correlation_amplified buffer lag (seqZ 0 windowSize) (Fin 0)).
Qed.

Lemma fold_write_amplified buffer (l : list Z) (arr : list number) :
  fold_left (fun cs lag =>
               write cs lag (correlation_at (amplified a buffer) lag))
            l (scaled (a * a) <$> arr)
  = scaled (a * a)
      <$> fold_left (fun cs lag => write cs lag (correlation_at buffer lag))
                    l arr.
Proof.
  revert arr. induction l as [|lag l IH]; intros arr; [reflexivity |].
  cbn [fold_left].
  rewrite correlation_at_amplified, write_scaled. apply IH.
Qed.

(** The correlations of a buffer [a] times as loud are [a * a] times
    as large. *)
Lemma correlations_of_amplified buffer minLag maxLag :
  correlations_of (amplified a buffer) minLag maxLag
  = scaled (a * a) <$> correlations_of buffer minLag maxLag.
Proof.
  unfold correlations_of, compute_correlations, zeros.
  rewrite <- fold_write_amplified. f_equal.
  rewrite fmap_replicate. now rewrite <- scaled_zero.
Qed.

Lemma rms_amplified buffer : rms (amplified a buffer) = scaled a (rms buffer).
Proof.
  assert (0 < a * a) as Haa by nra.
  unfold rms. rewrite sumSquares_amplified.
  unfold amplified at 1. rewrite length_fmap.
  unfold ofNat. rewrite (scaled_div_const (a * a) Haa).
  destruct (sumSquares buffer / Fin (INR (length buffer)))%num as [q| | |];
    autorewrite with scaled; cbn [Math_sqrt]; autorewrite with scaled;
    try reflexivity.
  destruct (Rltb q 0) eqn:Eq; reals_bool.
  - replace (Rltb (a * a * q) 0) with true
      by (symmetry; apply Rltb_true; nra).
    reflexivity.
  - replace (Rltb (a * a * q) 0) with false
      by (symmetry; apply Rltb_false; nra).
    autorewrite with scaled. f_equal.
    rewrite sqrt_mult by nra. rewrite sqrt_square by lra. reflexivity.
Qed.

(** The scan of the louder buffer finds the same lag. *)
Lemma scan_for_amplified buffer sampleRate :
  scan_for (amplified a buffer) sampleRate
  = ((scan_for buffer sampleRate).1,
     scaled (a * a) (scan_for buffer sampleRate).2).
Proof.
  assert (0 < a * a) as Haa by nra.
  unfold scan_for, correlations_for.
  rewrite correlations_of_amplified.
  rewrite <- (scaled_NInf (a * a) Haa) at 1.
  apply (peak_scan_scaled (a * a) Haa).
Qed.

(** A buffer and the same buffer [a] times as loud, [a > 0]: the scan
    and the refinement agree, so the two results differ only where one
    of the two thresholds, on the RMS or on the best correlation,
    returns [-1] for one of them. *)
Lemma amplified_cases buffer sampleRate :
  allocatable sampleRate ->
  exists v,
    (autocorrelate buffer (Fin sampleRate) = Normal v
     \/ autocorrelate buffer (Fin sampleRate) = Normal (Fin (-1)))
    /\ (autocorrelate (amplified a buffer) (Fin sampleRate) = Normal v
        \/ autocorrelate (amplified a buffer) (Fin sampleRate)
           = Normal (Fin (-1)))
    /\ (1 <= a ->
        autocorrelate buffer (Fin sampleRate) <> Normal (Fin (-1)) ->
        autocorrelate (amplified a buffer) (Fin sampleRate) = Normal v).
Proof.
  intros Halloc. assert (0 < a * a) as Haa by nra.
  exists (Fin sampleRate
          / refine_lag (correlations_for buffer sampleRate)
                       (bestLag_for buffer sampleRate)
                       (maxLag_of sampleRate))%num.
  assert (bestLag_for (amplified a buffer) sampleRate
          = bestLag_for buffer sampleRate) as Eb
    by (unfold bestLag_for; now rewrite scan_for_amplified).
  assert (maxCorrelation_for (amplified a buffer) sampleRate
          = scaled (a * a) (maxCorrelation_for buffer sampleRate)) as Em
    by (unfold maxCorrelation_for; now rewrite scan_for_amplified).
  assert (refine_lag (correlations_for (amplified a buffer) sampleRate)
                     (bestLag_for buffer sampleRate) (maxLag_of sampleRate)
          = refine_lag (correlations_for buffer sampleRate)
                       (bestLag_for buffer sampleRate)
                       (maxLag_of sampleRate)) as Er.
  { unfold correlations_for. rewrite correlations_of_amplified.
    apply refine_lag_scaled. assumption. }
  destruct (rms buffer <? Fin MIN_RMS_THRESHOLD)%num eqn:Hg.
  { rewrite (autocorrelate_gate_closed buffer) by assumption.
    split; [now right |]. split; [|intros _ Hne; now contradiction Hne].
    destruct (rms (amplified a buffer) <? Fin MIN_RMS_THRESHOLD)%num eqn:Hg';
      [right; now apply autocorrelate_gate_closed |].
    rewrite autocorrelate_after_gate by assumption. rewrite Eb, Em, Er.
    destruct (_ || _); [now right | now left]. }
  rewrite (autocorrelate_after_gate buffer) by assumption.
  destruct (Z.eqb_spec (bestLag_for buffer sampleRate) (-1)) as [Hb|Hb].
  { cbn [orb]. split; [now right |].
    split; [|intros _ Hne; now contradiction Hne].
    right. destruct (rms (amplified a buffer) <? Fin MIN_RMS_THRESHOLD)%num
      eqn:Hg'; [now apply autocorrelate_gate_closed |].
    rewrite autocorrelate_after_gate by assumption. rewrite Eb, Hb.
    reflexivity. }
  cbn [orb].
  assert (forall P : Prop,
            (autocorrelate (amplified a buffer) (Fin sampleRate)
             = Normal (Fin (-1)) -> P) ->
            ((rms (amplified a buffer) <? Fin MIN_RMS_THRESHOLD)%num = false ->
             autocorrelate (amplified a buffer) (Fin sampleRate)
             = (if (scaled (a * a) (maxCorrelation_for buffer sampleRate)
                    <? Fin 0.01)%num
                then Normal (Fin (-1))
                else Normal (Fin sampleRate
                             / refine_lag (correlations_for buffer sampleRate)
                                 (bestLag_for buffer sampleRate)
                                 (maxLag_of sampleRate))%num) -> P) -> P)
    as Hamp.
  { intros P Hclosed Hopen.
    destruct (rms (amplified a buffer) <? Fin MIN_RMS_THRESHOLD)%num eqn:Hg';
      [apply Hclosed; now apply autocorrelate_gate_closed |].
    apply Hopen; [reflexivity |].
    rewrite autocorrelate_after_gate by assumption. rewrite Eb, Em, Er.
    destruct (Z.eqb_spec (bestLag_for buffer sampleRate) (-1));
      [contradiction | reflexivity]. }
  destruct (maxCorrelation_for buffer sampleRate <? Fin 0.01)%num eqn:Hf.
  { split; [now right |]. split; [|intros _ Hne; now contradiction Hne].
    apply Hamp; [intros E; now right |]. intros _ E. rewrite E.
    destruct (scaled (a * a) (maxCorrelation_for buffer sampleRate)
              <? Fin 0.01)%num; [right; reflexivity | left; reflexivity]. }
  split; [now left |]. split.
  - apply Hamp; [intros E; now right |]. intros _ E. rewrite E.
    destruct (scaled (a * a) (maxCorrelation_for buffer sampleRate)
              <? Fin 0.01)%num; [right; reflexivity | left; reflexivity].
  - intros H1 _.
    assert (1 <= a * a) as H1' by nra.
    rewrite autocorrelate_after_gate;
      [| assumption
       | rewrite rms_amplified;
         apply scaled_not_below; [assumption | | | assumption];
         [lra | unfold MIN_RMS_THRESHOLD; lra]].
    rewrite Eb, Em, Er.
    rewrite (scaled_not_below (a * a) Haa _ 0.01 H1' ltac:(lra) Hf).
    destruct (Z.eqb_spec (bestLag_for buffer sampleRate) (-1));
      [contradiction | reflexivity].
Qed.

(** X19.  Loudness, in the exact arithmetic of the embedding.  For
    [a > 0] the buffer [a] times as loud gives the same result, unless
    one of the two results is [-1]: a change of level never changes the
    pitch read.  For [a >= 1] whatever the buffer gives, other than
    [-1], the louder buffer gives too. *)
Theorem loudness_keeps_pitch buffer sampleRate :
  allocatable sampleRate ->
  (autocorrelate (amplified a buffer) (Fin sampleRate)
   = autocorrelate buffer (Fin sampleRate)
   \/ autocorrelate (amplified a buffer) (Fin sampleRate)
      = Normal (Fin (-1))
   \/ autocorrelate buffer (Fin sampleRate) = Normal (Fin (-1)))
  /\ (1 <= a ->
      autocorrelate buffer (Fin sampleRate) <> Normal (Fin (-1)) ->
      autocorrelate (amplified a buffer) (Fin sampleRate)
      = autocorrelate buffer (Fin sampleRate)).
Proof.
  intros Halloc.
  destruct (amplified_cases buffer sampleRate Halloc)
    as (v & [E|E] & [E'|E'] & Hup); rewrite E, ?E' in *.
  - split; [now left |]. intros H1 Hne. now apply Hup.
  - split; [right; now left |]. intros H1 Hne. now apply Hup.
  - split; [now right; right |]. intros _ Hne. now contradiction Hne.
  - split; [now left |]. intros _ Hne. now contradiction Hne.
Qed.

End LoudBuffers.

Section LoudnessWitness.
Local Open Scope R_scope.

(** The two-click frame twice as loud at 44100 Hz: 441 Hz as before. *)
Lemma loudness_keeps_pitch_witness :
  autocorrelate (amplified 2 click_frame) (Fin 44100)
  = autocorrelate click_frame (Fin 44100).
Proof.
  assert (0 < 2) as H2 by lra.
  refine (proj2 (loudness_keeps_pitch 2 H2 click_frame 44100
                   allocatable_44100) _ _).
  - lra.
  - rewrite click_frame_frequency. intros [= H]. lra.
Defined.

End LoudnessWitness.

(* ================================================================== *)
(** ** The resolver on every number *)
(* ================================================================== *)

Section ResolverInputs.
Local Open Scope R_scope.


End ResolverInputs.

(* ================================================================== *)
(** ** The samples the search reads *)
(* ================================================================== *)

Section SearchReads.
Local Open Scope R_scope.
Implicit Types (buffer : list number) (sampleRate : R).

Lemma fold_left_ext_in {A B} (g h : A -> B -> A) (l : list B) acc :
  (forall acc x, x ∈ l -> g acc x = h acc x) ->
  fold_left g l acc = fold_left h l acc.
Proof.
  revert acc. induction l as [|x l IH]; intros acc H; cbn [fold_left];
    [reflexivity |].
  rewrite (H acc x) by now left. apply IH.
  intros acc' y Hy. apply H. now right.
Qed.

(** Two buffers that agree on the first [windowSize + maxLag] samples
    have the same correlations. *)
Lemma correlations_for_prefix buffer1 buffer2 sampleRate :
  0 < sampleRate ->
  (forall k, (0 <= k < windowSize + maxLag_of sampleRate)%Z ->
             read buffer1 k = read buffer2 k) ->
  correlations_for buffer1 sampleRate = correlations_for buffer2 sampleRate.
Proof.
  intros Hsr Hagree. pose proof (minLag_of_nonneg sampleRate Hsr).
  unfold correlations_for, correlations_of, compute_correlations.
  apply (fold_left_ext_in
           (fun cs lag => write cs lag (correlation_at buffer1 lag))
           (fun cs lag => write cs lag (correlation_at buffer2 lag))).
  intros cs lag Hlag. apply elem_of_lag_range in Hlag. f_equal.
  unfold correlation_at.
  apply (fold_add_ext
           (fun i => read buffer1 i * read buffer1 (i + lag))%num
           (fun i => read buffer2 i * read buffer2 (i + lag))%num).
  intros i Hi. apply elem_of_seqZ in Hi.
  rewrite !Hagree by lia. reflexivity.
Qed.

(** X21.  Past the RMS gate the result depends on the first
    [windowSize + maxLag] samples only: the samples after them count
    for the RMS and for nothing else. *)
Theorem search_reads_prefix buffer1 buffer2 sampleRate :
  allocatable sampleRate ->
  (forall k, (0 <= k < windowSize + maxLag_of sampleRate)%Z ->
             read buffer1 k = read buffer2 k) ->
  (rms buffer1 <? Fin MIN_RMS_THRESHOLD)%num = false ->
  (rms buffer2 <? Fin MIN_RMS_THRESHOLD)%num = false ->
  autocorrelate buffer1 (Fin sampleRate)
  = autocorrelate buffer2 (Fin sampleRate).
Proof.
  intros Halloc Hagree Hg1 Hg2.
  rewrite !autocorrelate_after_gate by assumption.
  unfold bestLag_for, maxCorrelation_for, scan_for.
  now rewrite (correlations_for_prefix buffer1 buffer2 sampleRate
                 (proj1 Halloc) Hagree).
Qed.

Lemma tail_click_frame_gate :
  (rms tail_click_frame <? Fin MIN_RMS_THRESHOLD)%num = false.
Proof.
  unfold tail_click_frame. rewrite gate_embed by (vm_compute; lia).
  now vm_compute.
Qed.

Lemma tail_click_frame_prefix k :
  (0 <= k < windowSize + maxLag_of 44100)%Z ->
  read tail_click_frame k = read click_frame k.
Proof.
  rewrite maxLag_of_44100. unfold windowSize. intros Hk.
  unfold tail_click_frame, click_frame. rewrite !read_embed.
  apply (f_equal embed).
  change (impulses [(0, IFin 1); (100, IFin 1); (4000, IFin 1)]%nat)
    with (<[4000%nat := IFin 1]>
            (impulses [(0, IFin 1); (100, IFin 1)]%nat)).
  unfold iread. destruct (k <? 0)%Z; [reflexivity |].
  rewrite list_lookup_insert_ne by lia. reflexivity.
Qed.

(** The frame with a third click at sample 4000 gives what the
    two-click frame gives. *)
Lemma search_reads_prefix_witness :
  autocorrelate tail_click_frame (Fin 44100)
  = autocorrelate click_frame (Fin 44100).
Proof.
  exact (search_reads_prefix tail_click_frame click_frame 44100
           allocatable_44100 tail_click_frame_prefix
           tail_click_frame_gate click_frame_gate).
Defined.

End SearchReads.

(* ================================================================== *)
(** ** The exceptions of the loop *)
(* ================================================================== *)

Section LoopExceptions.
Local Open Scope R_scope.



End LoopExceptions.

(* ================================================================== *)
(** ** Impulse trains *)
(* ================================================================== *)

Section ImpulseTrains.
Local Open Scope R_scope.

Lemma read_impulse_train (n : nat) (period k : Z) :
  (0 <= k < Z.of_nat n)%Z ->
  read (impulse_train n period) k
  = if (k mod period =? 0)%Z then Fin 1 else Fin 0.
Proof.
  intros Hk. unfold read, impulse_train.
  destruct (Z.ltb_spec k 0); [lia |].
  rewrite list_lookup_fmap, lookup_seqZ_lt by lia.
  cbn [fmap option_fmap option_map]. now rewrite Z.add_0_l, Z2Nat.id by lia.
Qed.

(** A sum of real terms is a real. *)
Lemma fold_add_Fin {A} (g : A -> number) (t : A -> R) (l : list A) acc :
  (forall i, i ∈ l -> g i = Fin (t i)) ->
  fold_left (fun c i => c + g i)%num l (Fin acc)
  = Fin (fold_left (fun c i => c + t i) l acc).
Proof.
  revert acc. induction l as [|j l IH]; intros acc H; cbn [fold_left];
    [reflexivity |].
  rewrite (H j) by now left. cbn [add]. apply IH.
  intros i Hi. apply H. now right.
Qed.

Lemma fold_sum_zero {A} (t : A -> R) (l : list A) acc :
  (forall i, i ∈ l -> t i = 0) ->
  fold_left (fun c i => c + t i) l acc = acc.
Proof.
  revert acc. induction l as [|j l IH]; intros acc H; cbn [fold_left];
    [reflexivity |].
  rewrite IH by (intros i Hi; apply H; now right).
  rewrite (H j) by now left. lra.
Qed.

Lemma fold_sum_ge {A} (t : A -> R) (l : list A) acc :
  (forall i, i ∈ l -> 0 <= t i) ->
  acc <= fold_left (fun c i => c + t i) l acc.
Proof.
  revert acc. induction l as [|j l IH]; intros acc H; cbn [fold_left];
    [lra |].
  apply Rle_trans with (acc + t j).
  - pose proof (H j ltac:(now left)). lra.
  - apply IH. intros i Hi. apply H. now right.
Qed.

(** The correlation of the train at a lag that is no multiple of the
    period. *)
Lemma impulse_train_off_period (n : nat) (period lag : Z) :
  (0 < period)%Z -> (0 <= lag)%Z -> (lag mod period <> 0)%Z ->
  (windowSize + lag <= Z.of_nat n)%Z ->
  correlation_at (impulse_train n period) lag = Fin 0.
Proof.
  intros Hp Hlag Hmod Hlen. unfold correlation_at.
  rewrite (fold_add_Fin
             (fun i => read (impulse_train n period) i
                       * read (impulse_train n period) (i + lag))%num
             (fun _ => 0)).
  - now rewrite fold_sum_zero.
  - intros i Hi. apply elem_of_seqZ in Hi.
    rewrite !read_impulse_train by lia.
    destruct (Z.eqb_spec (i mod period) 0) as [Ei|Ei];
      destruct (Z.eqb_spec ((i + lag) mod period) 0) as [El|El];
      cbn [mul]; try (f_equal; lra).
    exfalso. apply Hmod.
    rewrite Zplus_mod, Ei, Z.add_0_l, Zmod_mod in El. exact El.
Qed.

(** The correlation of the train at a multiple of its period: the
    number of clicks in the window, at least one. *)
Lemma impulse_train_on_period (n : nat) (period k : Z) :
  (0 < period)%Z -> (0 <= k)%Z ->
  (windowSize + k * period <= Z.of_nat n)%Z ->
  exists clicks,
    correlation_at (impulse_train n period) (k * period) = Fin clicks
    /\ 1 <= clicks.
Proof.
  intros Hp Hk Hlen. unfold correlation_at.
  assert (0 <= k * period)%Z as Hm by lia.
  set (t := fun i : Z => if (i mod period =? 0)%Z then 1 else 0).
  rewrite (fold_add_Fin
             (fun i => read (impulse_train n period) i
                       * read (impulse_train n period) (i + k * period))%num
             t).
  - eexists. split; [reflexivity |].
    unfold windowSize. rewrite seqZ_cons by lia. cbn [fold_left].
    apply Rle_trans with (0 + t 0%Z).
    + unfold t. rewrite Zmod_0_l. cbn. lra.
    + apply fold_sum_ge. intros i _. unfold t.
      destruct (i mod period =? 0)%Z; lra.
  - intros i Hi. apply elem_of_seqZ in Hi.
    rewrite !read_impulse_train by lia.
    rewrite Z_mod_plus_full.
    unfold t. destruct (i mod period =? 0)%Z; cbn [mul]; f_equal; lra.
Qed.

(** The sum of squares of zeros and ones, from a real. *)
Lemma sumSquares_clicks (buffer : list number) acc :
  Forall (fun x => x = Fin 0 \/ x = Fin 1) buffer ->
  exists s,
    fold_left (fun a x => a + x * x)%num buffer (Fin acc) = Fin s
    /\ acc <= s.
Proof.
  intros H. revert acc.
  induction H as [|x buffer Hx _ IH]; intros acc; cbn [fold_left].
  - exists acc. split; [reflexivity | lra].
  - destruct Hx as [-> | ->]; cbn [add mul].
    + destruct (IH (acc + 0 * 0)) as (s & E & Hs).
      exists s. split; [exact E | lra].
    + destruct (IH (acc + 1 * 1)) as (s & E & Hs).
      exists s. split; [exact E | lra].
Qed.

(** A train of at most 40000 samples passes the RMS gate. *)
Lemma impulse_train_gate (n : nat) (period : Z) :
  (1 <= Z.of_nat n <= 40000)%Z ->
  (rms (impulse_train n period) <? Fin MIN_RMS_THRESHOLD)%num = false.
Proof.
  intros Hn.
  assert (exists s, sumSquares (impulse_train n period) = Fin s /\ 1 <= s)
    as (s & Es & Hs).
  { unfold sumSquares, impulse_train.
    destruct n as [|n]; [lia |].
    rewrite Nat2Z.inj_succ, <- Z.add_1_r, Z.add_comm.
    rewrite seqZ_cons by lia. cbn [fmap list_fmap fold_left].
    rewrite Zmod_0_l. cbn [Z.eqb add mul].
    destruct (sumSquares_clicks
                ((fun i : Z => if (i mod period =? 0)%Z then Fin 1 else Fin 0)
                   <$> seqZ (Z.succ 0) (Z.pred (1 + Z.of_nat n)))
                (0 + 1 * 1)) as (s & E & Hs).
    - apply Forall_fmap, Forall_forall. intros i _. cbn.
      destruct (i mod period =? 0)%Z; [now right | now left].
    - exists s. split; [exact E | lra]. }
  assert (length (impulse_train n period) = n) as Hlen.
  { unfold impulse_train. rewrite length_fmap, length_seqZ. lia. }
  assert (impulse_train n period <> []) as Hne.
  { intros E. rewrite E in Hlen. cbn in Hlen. lia. }
  rewrite (rms_real _ s Es ltac:(lra) Hne), Hlen. cbn [lt].
  apply Rltb_false.
  assert (0 < INR n) as Hpos by (apply lt_0_INR; lia).
  assert (INR n <= 40000) as Hmax
    by (rewrite INR_IZR_INZ; apply IZR_le; lia).
  destruct (Rle_dec MIN_RMS_THRESHOLD (sqrt (s / INR n)))
    as [|Hlt]; [assumption | exfalso].
  assert (sqrt (s / INR n) < MIN_RMS_THRESHOLD) as Hlt' by lra.
  apply sqrt_lt_threshold in Hlt'.
  - apply Rmult_lt_compat_r with (r := INR n) in Hlt'; [|assumption].
    unfold Rdiv in Hlt'. rewrite Rmult_assoc, Rinv_l in Hlt' by lra. lra.
  - apply Rmult_le_pos; [lra |]. apply Rlt_le.
    now apply Rinv_0_lt_compat.
Qed.

(** A lag strictly between two successive multiples of the period. *)
Lemma between_multiples (period k lag : Z) :
  (0 < period)%Z -> ((k - 1) * period < lag < k * period)%Z ->
  (lag mod period <> 0)%Z.
Proof.
  intros Hp Hlag Hmod.
  apply Z.mod_divide in Hmod; [|lia]. destruct Hmod as [q ->].
  assert (k - 1 < q < k)%Z; [nia | lia].
Qed.

(** X23.  An impulse train, a click every [period] samples, is read at the
    first multiple [k * period] of its period that is a lag of the
    range: [autocorrelate] returns the sample rate over [k * period].
    With [minLag <= period] this is the frequency of the train; a
    faster train is read [k] times too low.  The lag is below [maxLag],
    and the buffer holds the window shifted by one sample more, and at
    most 40000 samples. *)
Theorem impulse_train_frequency (n : nat) (period k : Z) (sampleRate : R) :
  allocatable sampleRate -> MAX_FREQUENCY <= sampleRate ->
  (2 <= period)%Z -> (1 <= k)%Z ->
  ((k - 1) * period < minLag_of sampleRate)%Z ->
  (minLag_of sampleRate <= k * period < maxLag_of sampleRate)%Z ->
  (windowSize + k * period + 1 <= Z.of_nat n <= 40000)%Z ->
  autocorrelate (impulse_train n period) (Fin sampleRate)
  = Normal (Fin (sampleRate / IZR (k * period))).
Proof.
  intros Halloc Hrate Hp Hk Hfirst Hrange [Hlen Hn].
  pose proof (minLag_of_pos sampleRate Hrate) as Hmin.
  set (m := (k * period)%Z) in *.
  set (buffer := impulse_train n period).
  set (correlations := correlations_for buffer sampleRate).
  assert (forall lag, (0 <= lag <= m + 1)%Z ->
            (lag < minLag_of sampleRate)%Z \/ (lag mod period <> 0)%Z ->
            read correlations lag = Fin 0) as Hzero.
  { intros lag Hlag Hwhy. unfold correlations, correlations_for.
    rewrite read_correlations_of.
    repeat case_decide; try lia; [|reflexivity].
    destruct Hwhy as [?|Hmod]; [lia |].
    apply impulse_train_off_period; unfold windowSize in *; lia. }
  assert (forall lag, (minLag_of sampleRate <= lag < m)%Z ->
            (lag mod period <> 0)%Z) as Hbetween
    by (intros lag Hlag; apply (between_multiples period k); lia).
  assert (forall lag, (0 <= lag < m)%Z -> read correlations lag = Fin 0)
    as Hbefore.
  { intros lag Hlag. apply Hzero; [lia |].
    destruct (Z_lt_ge_dec lag (minLag_of sampleRate)); [now left |].
    right. apply Hbetween. lia. }
  assert (read correlations (m + 1) = Fin 0) as Eafter.
  { apply Hzero; [lia |]. right. unfold m.
    rewrite Z.add_comm, Z_mod_plus_full, Z.mod_small; lia. }
  destruct (impulse_train_on_period n period k ltac:(lia) ltac:(lia)
              ltac:(unfold windowSize in *; lia)) as (clicks & Ec & Hc).
  fold m in Ec.
  assert (read correlations m = Fin clicks) as Eperiod.
  { unfold correlations, correlations_for. rewrite read_correlations_of.
    repeat case_decide; try lia. exact Ec. }
  assert (exit_threshold correlations = Fin 0) as Eexit
    by (apply exit_threshold_zero, Hbefore; lia).
  assert (scan_for buffer sampleRate = (m, Fin clicks)) as Escan.
  { unfold scan_for. fold correlations.
    rewrite (lag_range_split _ _ m) by lia.
    rewrite <- Eperiod. apply peak_scan_first_exit.
    - intros l Hl. apply elem_of_seqZ in Hl.
      unfold stops_scan, is_peak, gt.
      rewrite (Hbefore l), (Hbefore (l - 1)%Z) by lia. cbn [lt].
      replace (Rltb 0 0) with false by (symmetry; apply Rltb_false; lra).
      reflexivity.
    - unfold stops_scan, is_peak, gt.
      rewrite Eexit, Eperiod, Eafter, (Hbefore (m - 1)%Z) by lia.
      cbn [lt].
      replace (Rltb 0 clicks) with true by (symmetry; apply Rltb_true; lra).
      reflexivity.
    - now left. }
  rewrite autocorrelate_after_gate;
    [| assumption | apply impulse_train_gate; unfold windowSize in *; lia].
  unfold bestLag_for, maxCorrelation_for. fold buffer. rewrite Escan.
  cbn [fst snd lt].
  destruct (Z.eqb_spec m (-1)); [lia |].
  replace (Rltb clicks 0.01) with false by (symmetry; apply Rltb_false; lra).
  cbn [orb]. fold correlations.
  rewrite (refine_lag_real correlations m _ 0 clicks 0);
    [| lia | apply Hbefore; lia | exact Eperiod | exact Eafter | lra | lra].
  assert (parabola_vertex m 0 clicks 0 = IZR m) as ->
    by (unfold parabola_vertex; field; lra).
  assert (2 <= IZR m) by (apply IZR_le; nia).
  now rewrite div_Fin_nonzero by lra.
Qed.

(** At 44100 Hz, lags 44 to 678: a click every 100 samples, 441 Hz, is
    read as 441 Hz; a click every 30 samples, 1470 Hz, is read at lag
    60 as 735 Hz. *)
Lemma impulse_train_frequency_witness :
  autocorrelate (impulse_train 4096 100) (Fin 44100)
  = Normal (Fin (44100 / IZR (1 * 100)))
  /\ autocorrelate (impulse_train 4096 30) (Fin 44100)
     = Normal (Fin (44100 / IZR (2 * 30))).
Proof.
  assert (MAX_FREQUENCY <= 44100) as Hrate by (unfold MAX_FREQUENCY; lra).
  split.
  - apply (impulse_train_frequency 4096 100 1 44100 allocatable_44100 Hrate);
      rewrite ?minLag_of_44100, ?maxLag_of_44100; unfold windowSize; lia.
  - apply (impulse_train_frequency 4096 30 2 44100 allocatable_44100 Hrate);
      rewrite ?minLag_of_44100, ?maxLag_of_44100; unfold windowSize; lia.
Defined.

End ImpulseTrains.
